(** * HTLL-IR framework: near-duplicate detection engine (v1/qdrant)

    A shallow embedding of the Python sources

      - [src/v1/qdrant/src/basic/minhash.py]          (normalizer, shingler, MinHash/LSH)
      - [src/v1/qdrant/src/basic/filter_adapter.py]   (filter-expression compiler)
      - [src/v1/qdrant/src/basic/embedder.py]         (the LSH embedder)
      - [src/v1/qdrant/src/basic/utils.py]            (the clock)
      - [src/v1/qdrant/src/basic/vector_store.py]     (canonical id, collection, [inserts])
      - [src/v1/qdrant/src/log_ingestion_handler.py]  (ingestion pipeline, relink job)

    Python [int] is [Z]; a [str] is a [string] of code points below 128
    (the masks, [lower], [\w], [\d] and [\s] are modelled on ASCII text);
    a [dict] is an association list in insertion order; a [set] of ints is
    a [gset Z]; an exception is a value of [exn] returned through [result].
    The classes of [qdrant_client.http.models] that the compiler calls
    are modelled by what their constructors accept (module [models]). *)

From Stdlib Require Import ZArith QArith String Ascii List Lia Bool.
From stdpp Require Import gmap strings list pretty.

Set Warnings "-register-all,-clear-no-such-hyp".

Open Scope string_scope.
Open Scope list_scope.
Open Scope Z_scope.

(** ** Python values, exceptions and results *)

(** The values that travel through filter specs and log metadata. *)
Inductive PyVal : Type :=
| PNone
| PBool (b : bool)
| PInt (z : Z)
| PFloat (q : Q)
| PStr (s : string)
| PList (l : list PyVal)
| PTuple (l : list PyVal)
| PDict (kvs : list (string * PyVal)).

(** [bool(v)]: the falsy values are [None], [False], zero, and the empty
    string, list, tuple and dict. *)
Definition truthy (v : PyVal) : bool :=
  match v with
  | PNone => false
  | PBool b => b
  | PInt z => negb (z =? 0)%Z
  | PFloat q => negb (Qeq_bool q 0)
  | PStr s => negb (String.eqb s "")
  | PList l | PTuple l => match l with [] => false | _ => true end
  | PDict kvs => match kvs with [] => false | _ => true end
  end.

(** [d.get(k)] on a dict held as an association list. *)
Fixpoint dict_get (k : string) (kvs : list (string * PyVal)) : option PyVal :=
  match kvs with
  | [] => None
  | (k', v) :: tl => if String.eqb k' k then Some v else dict_get k tl
  end.

(** [d[k] = v]: an existing key keeps its position, a new key goes last. *)
Fixpoint dict_set (k : string) (v : PyVal) (kvs : list (string * PyVal))
  : list (string * PyVal) :=
  match kvs with
  | [] => [(k, v)]
  | (k', v') :: tl =>
      if String.eqb k' k then (k', v) :: tl else (k', v') :: dict_set k v tl
  end.

(** The exceptions the modelled code raises.  A [ValueError] carries the
    fixed text of its f-string and the objects interpolated into it, in
    order; a [ValidationError] is pydantic's, raised by the constructor of
    the named model. *)
Inductive exn : Type :=
| ValueError (text : string) (interpolated : list PyVal)
| AttributeError (what : string)
| IndexError (what : string)
| KeyError (what : string)
| TypeError (what : string)
| NotImplementedError
| ValidationError (model : string).

Inductive result (A : Type) : Type :=
| Ok (a : A)
| Raise (e : exn).
Arguments Ok {A} a.
Arguments Raise {A} e.

Definition bind {A B} (r : result A) (f : A -> result B) : result B :=
  match r with
  | Ok a => f a
  | Raise e => Raise e
  end.

Notation "'let*' x ':=' r 'in' k" := (bind r (fun x => k))
  (at level 10, x name, r at level 100, k at level 200).

Definition is_ok {A} (r : result A) : bool :=
  match r with Ok _ => true | Raise _ => false end.

Definition is_value_error {A} (r : result A) : bool :=
  match r with Raise (ValueError _ _) => true | _ => false end.

(** [[f(x) for x in xs]] where [f] may raise: stops at the first error. *)
Definition mapM {A B} (f : A -> result B) : list A -> result (list B) :=
  fix go (xs : list A) : result (list B) :=
    match xs with
    | [] => Ok []
    | x :: tl => let* y := f x in let* ys := go tl in Ok (y :: ys)
    end.

(** ** Python's [re], the part [minhash.py] and [vector_store.py] use

    A backtracking matcher over the constructs that occur in the
    patterns of the source: character classes, concatenation, ordered
    alternation, greedy bounded repetition, [\b], positive lookahead,
    capturing groups and [$].  Alternatives are tried left to right and
    a repetition takes as many iterations as it can before giving them
    back, which is the order Python's engine explores. *)
Module re.

Definition code (a : ascii) : nat := nat_of_ascii a.

Definition in_range (lo hi : ascii) (a : ascii) : bool :=
  ((code lo <=? code a) && (code a <=? code hi))%nat.

Definition is_digit (a : ascii) : bool := in_range "0" "9" a.
Definition is_lower (a : ascii) : bool := in_range "a" "z" a.
Definition is_upper (a : ascii) : bool := in_range "A" "Z" a.
Definition is_alpha (a : ascii) : bool := is_lower a || is_upper a.
Definition is_alnum (a : ascii) : bool := is_alpha a || is_digit a.

(** [\w] *)
Definition is_word (a : ascii) : bool := is_alnum a || Ascii.eqb a "_".

(** [\s], and the characters [str.strip()] removes: TAB, LF, VT, FF, CR,
    the separators 0x1c to 0x1f, and the space. *)
Definition is_space (a : ascii) : bool :=
  ((9 <=? code a) && (code a <=? 13) || (28 <=? code a) && (code a <=? 32))%nat.

Definition one_of (s : string) (a : ascii) : bool :=
  existsb (Ascii.eqb a) (list_ascii_of_string s).

Definition to_lower (a : ascii) : ascii :=
  if is_upper a then ascii_of_nat (code a + 32) else a.

Definition to_upper (a : ascii) : ascii :=
  if is_lower a then ascii_of_nat (code a - 32) else a.

Inductive regex : Type :=
| Eps
| Chr (p : ascii -> bool)           (* [...]  *)
| NotChr (p : ascii -> bool)        (* [^...] *)
| Seq (r1 r2 : regex)
| Alt (r1 r2 : regex)
| Rep (r : regex) (lo : nat) (hi : option nat)    (* greedy {lo,hi} *)
| WordB                             (* \b *)
| Look (r : regex)                  (* (?=...) *)
| Group (i : nat) (r : regex)       (* (...)  *)
| Eos.                              (* $ *)

(** The position of the matcher in the subject: the character before it
    (for [\b]), the text ahead, and the groups captured so far. *)
Record cursor : Type := Cursor {
  before : option ascii;
  ahead : list ascii;
  groups : list (nat * list ascii)
}.

Definition at_boundary (c : cursor) : bool :=
  xorb (match before c with Some a => is_word a | None => false end)
       (match ahead c with a :: _ => is_word a | [] => false end).

Definition capture (i : nat) (c0 c1 : cursor) : cursor :=
  Cursor (before c1) (ahead c1)
         ((i, firstn (length (ahead c0) - length (ahead c1)) (ahead c0)) :: groups c1).

Definition under (hi : option nat) (n : nat) : bool :=
  match hi with
  | Some h => (n <? h)%nat
  | None => true
  end.

(** The iterations of a greedy repetition whose body is matched by
    [body]: [n] iterations are done; try one more (it must consume
    text), and fall back to stopping here when that fails. *)
Fixpoint rep_loop (body : cursor -> (cursor -> option cursor) -> option cursor)
    (lo : nat) (hi : option nat) (k : cursor -> option cursor)
    (fuel n : nat) (c : cursor) {struct fuel} : option cursor :=
  let stop := if (lo <=? n)%nat then k c else None in
  match fuel with
  | O => stop
  | S fuel' =>
      if under hi n then
        match body c (fun c1 =>
                 if (length (ahead c1) <? length (ahead c))%nat
                 then rep_loop body lo hi k fuel' (S n) c1 else None) with
        | Some c' => Some c'
        | None => stop
        end
      else stop
  end.

(** [run r c k]: match [r] at [c], then continue with [k]; the first
    success in backtracking order is the answer. *)
Fixpoint run (r : regex) (c : cursor) (k : cursor -> option cursor) {struct r}
  : option cursor :=
  match r with
  | Eps => k c
  | Chr p =>
      match ahead c with
      | a :: tl => if p a then k (Cursor (Some a) tl (groups c)) else None
      | [] => None
      end
  | NotChr p =>
      match ahead c with
      | a :: tl => if p a then None else k (Cursor (Some a) tl (groups c))
      | [] => None
      end
  | Seq r1 r2 => run r1 c (fun c1 => run r2 c1 k)
  | Alt r1 r2 =>
      match run r1 c k with
      | Some c' => Some c'
      | None => run r2 c k
      end
  | Rep r1 lo hi => rep_loop (run r1) lo hi k (S (length (ahead c))) O c
  | WordB => if at_boundary c then k c else None
  | Look r1 =>
      match run r1 c Some with
      | Some _ => k c
      | None => None
      end
  | Group i r1 => run r1 c (fun c1 => k (capture i c c1))
  | Eos =>
      match ahead c with
      | [] => k c
      | [a] => if Ascii.eqb a "010" then k c else None
      | _ => None
      end
  end.

(** [re.I]: a class matches a character when it matches either case of it. *)
Definition either_case (p : ascii -> bool) (a : ascii) : bool :=
  p a || p (to_lower a) || p (to_upper a).

Fixpoint ignorecase (r : regex) : regex :=
  match r with
  | Chr p => Chr (either_case p)
  | NotChr p => NotChr (either_case p)
  | Seq r1 r2 => Seq (ignorecase r1) (ignorecase r2)
  | Alt r1 r2 => Alt (ignorecase r1) (ignorecase r2)
  | Rep r1 lo hi => Rep (ignorecase r1) lo hi
  | Look r1 => Look (ignorecase r1)
  | Group i r1 => Group i (ignorecase r1)
  | Eps | WordB | Eos => r
  end.

(** [pattern.match(s)]: a match anchored at the start of [s]. *)
Definition match_ (r : regex) (s : list ascii) : option cursor :=
  run r (Cursor None s []) Some.

(** [pattern.sub(repl, s)]: scan left to right; at each position outside
    a previous match try the pattern, replace a match and resume after
    it.  [skip] counts the characters of the current match still to be
    dropped.  No pattern of the source matches the empty string; a
    zero-length match is left alone. *)
Fixpoint sub_from (r : regex) (repl : cursor -> list ascii)
    (skip : nat) (prev : option ascii) (s : list ascii) {struct s} : list ascii :=
  match s with
  | [] => []
  | a :: tl =>
      match skip with
      | S n => sub_from r repl n (Some a) tl
      | O =>
          match run r (Cursor prev s []) Some with
          | Some c' =>
              match (length s - length (ahead c'))%nat with
              | O => a :: sub_from r repl O (Some a) tl
              | S n => repl c' ++ sub_from r repl n (Some a) tl
              end
          | None => a :: sub_from r repl O (Some a) tl
          end
      end
  end.

Definition sub (r : regex) (repl : cursor -> list ascii) (s : list ascii) : list ascii :=
  sub_from r repl O None s.

(** Pattern syntax. *)
Fixpoint lit_chars (l : list ascii) : regex :=
  match l with
  | [] => Eps
  | [a] => Chr (Ascii.eqb a)
  | a :: tl => Seq (Chr (Ascii.eqb a)) (lit_chars tl)
  end.

Definition lit (s : string) : regex := lit_chars (list_ascii_of_string s).
Definition times (n : nat) (r : regex) : regex := Rep r n (Some n).
Definition at_least (n : nat) (r : regex) : regex := Rep r n None.
Definition between (lo hi : nat) (r : regex) : regex := Rep r lo (Some hi).
Definition opt (r : regex) : regex := Rep r 0 (Some 1%nat).
Definition star (r : regex) : regex := Rep r 0 None.
Definition plus (r : regex) : regex := Rep r 1 None.
Definition digit : regex := Chr is_digit.

Fixpoint seqs (rs : list regex) : regex :=
  match rs with
  | [] => Eps
  | [r] => r
  | r :: tl => Seq r (seqs tl)
  end.

Fixpoint alts (rs : list regex) : regex :=
  match rs with
  | [] => NotChr (fun _ => true)
  | [r] => r
  | r :: tl => Alt r (alts tl)
  end.

(** The character before the matcher once it has read [ds]. *)
Definition read_past (ds : list ascii) (b : option ascii) : option ascii :=
  fold_left (fun _ a => Some a) ds b.

End re.

(** ** Methods of [str] *)
Module str.

(** [s.lower()] *)
Definition lower (s : list ascii) : list ascii := map re.to_lower s.

Fixpoint lstrip (s : list ascii) : list ascii :=
  match s with
  | a :: tl => if re.is_space a then lstrip tl else s
  | [] => []
  end.

(** [s.strip()] *)
Definition strip (s : list ascii) : list ascii := rev (lstrip (rev (lstrip s))).

(** [s.split(",", 1)] when [s] holds a comma: the text before the first
    comma and the text after it. *)
Fixpoint split_comma (s : list ascii) : option (list ascii * list ascii) :=
  match s with
  | [] => None
  | a :: tl =>
      if Ascii.eqb a "," then Some ([], tl)
      else match split_comma tl with
           | Some (l, r) => Some (a :: l, r)
           | None => None
           end
  end.

(** [s.encode("utf-8")] on ASCII text: the bytes as integers. *)
Definition encode (s : string) : list Z :=
  map (fun a => Z.of_nat (nat_of_ascii a)) (list_ascii_of_string s).

Definition lower_s (s : string) : string :=
  string_of_list_ascii (lower (list_ascii_of_string s)).

Definition strip_s (s : list ascii) : string := string_of_list_ascii (strip s).

End str.

(** ** [hashlib.blake2b] (RFC 7693, unkeyed, sequential mode)

    [minhash.py] takes its shingle hashes, its hash-family parameters
    and its band digests from BLAKE2b; the function is modelled in full
    so that the fingerprinter computes inside the development. *)
Module blake2b.

Definition mask64 : Z := 2 ^ 64 - 1.
Definition add64 (x y : Z) : Z := Z.land (x + y) mask64.
Definition rotr64 (x : Z) (n : Z) : Z :=
  Z.land (Z.lor (Z.shiftr x n) (Z.shiftl x (64 - n))) mask64.

Definition IV : list Z :=
  [ 0x6a09e667f3bcc908; 0xbb67ae8584caa73b; 0x3c6ef372fe94f82b; 0xa54ff53a5f1d36f1;
    0x510e527fade682d1; 0x9b05688c2b3e6c1f; 0x1f83d9abfb41bd6b; 0x5be0cd19137e2179 ].

Definition SIGMA : list (list nat) :=
  [ [ 0; 1; 2; 3; 4; 5; 6; 7; 8; 9; 10; 11; 12; 13; 14; 15 ];
    [ 14; 10; 4; 8; 9; 15; 13; 6; 1; 12; 0; 2; 11; 7; 5; 3 ];
    [ 11; 8; 12; 0; 5; 2; 15; 13; 10; 14; 3; 6; 7; 1; 9; 4 ];
    [ 7; 9; 3; 1; 13; 12; 11; 14; 2; 6; 5; 10; 4; 0; 15; 8 ];
    [ 9; 0; 5; 7; 2; 4; 10; 15; 14; 1; 11; 12; 6; 8; 3; 13 ];
    [ 2; 12; 6; 10; 0; 11; 8; 3; 4; 13; 7; 5; 15; 14; 1; 9 ];
    [ 12; 5; 1; 15; 14; 13; 4; 10; 0; 7; 6; 3; 9; 2; 8; 11 ];
    [ 13; 11; 7; 14; 12; 1; 3; 9; 5; 0; 15; 4; 8; 6; 2; 10 ];
    [ 6; 15; 14; 9; 11; 3; 0; 8; 12; 2; 13; 7; 1; 4; 10; 5 ];
    [ 10; 2; 8; 4; 7; 6; 1; 5; 15; 11; 9; 14; 3; 12; 13; 0 ] ]%nat.

Definition word (v : list Z) (i : nat) : Z := nth i v 0.

(** The mixing function G on the working vector. *)
Definition G (v : list Z) (a b c d : nat) (x y : Z) : list Z :=
  let va := add64 (add64 (word v a) (word v b)) x in
  let vd := rotr64 (Z.lxor (word v d) va) 32 in
  let vc := add64 (word v c) vd in
  let vb := rotr64 (Z.lxor (word v b) vc) 24 in
  let va := add64 (add64 va vb) y in
  let vd := rotr64 (Z.lxor vd va) 16 in
  let vc := add64 vc vd in
  let vb := rotr64 (Z.lxor vb vc) 63 in
  <[a := va]> (<[b := vb]> (<[c := vc]> (<[d := vd]> v))).

Definition round (m : list Z) (v : list Z) (r : nat) : list Z :=
  let s := nth (r mod 10) SIGMA [] in
  let mw i := word m (nth i s O) in
  let v := G v 0 4 8 12 (mw 0%nat) (mw 1%nat) in
  let v := G v 1 5 9 13 (mw 2%nat) (mw 3%nat) in
  let v := G v 2 6 10 14 (mw 4%nat) (mw 5%nat) in
  let v := G v 3 7 11 15 (mw 6%nat) (mw 7%nat) in
  let v := G v 0 5 10 15 (mw 8%nat) (mw 9%nat) in
  let v := G v 1 6 11 12 (mw 10%nat) (mw 11%nat) in
  let v := G v 2 7 8 13 (mw 12%nat) (mw 13%nat) in
  G v 3 4 9 14 (mw 14%nat) (mw 15%nat).

(** Little-endian bytes to an integer, and back. *)
Fixpoint from_le (bs : list Z) : Z :=
  match bs with
  | [] => 0
  | b :: tl => b + 256 * from_le tl
  end.

Fixpoint to_le (n : nat) (x : Z) : list Z :=
  match n with
  | O => []
  | S n' => (x mod 256) :: to_le n' (x / 256)
  end.

Fixpoint words_of (n : nat) (bs : list Z) : list Z :=
  match n with
  | O => []
  | S n' => from_le (firstn 8 bs) :: words_of n' (skipn 8 bs)
  end.

(** The compression function F: [h] the chain value, [block] 128 bytes,
    [t] the byte counter, [final] the last-block flag. *)
Definition F (h : list Z) (block : list Z) (t : Z) (final : bool) : list Z :=
  let m := words_of 16 block in
  let v := h ++ IV in
  let v := <[12%nat := Z.lxor (word v 12) (Z.land t mask64)]> v in
  let v := <[13%nat := Z.lxor (word v 13) (Z.shiftr t 64)]> v in
  let v := if final then <[14%nat := Z.lxor (word v 14) mask64]> v else v in
  let v := fold_left (round m) (seq 0 12) v in
  map (fun i => Z.lxor (Z.lxor (word h i) (word v i)) (word v (i + 8)))
      (seq 0 8).

Definition pad (block : list Z) : list Z :=
  block ++ repeat 0 (128 - length block).

(** Every block but the last is compressed with the running counter; the
    last (the only one holding fewer than 129 bytes) carries the flag. *)
Fixpoint absorb (fuel : nat) (h : list Z) (t : Z) (data : list Z) : list Z :=
  match fuel with
  | O => h
  | S fuel' =>
      if (length data <=? 128)%nat
      then F h (pad data) (t + Z.of_nat (length data)) true
      else absorb fuel' (F h (firstn 128 data) (t + 128) false) (t + 128)
                  (skipn 128 data)
  end.

(** [hashlib.blake2b(data, digest_size=nn).digest()], bytes as integers. *)
Definition digest (nn : nat) (data : list Z) : list Z :=
  let h0 := <[0%nat := Z.lxor (word IV 0) (Z.lxor 0x01010000 (Z.of_nat nn))]> IV in
  let h := absorb (S (length data)) h0 0 data in
  firstn nn (flat_map (to_le 8) h).

Definition hex_digit (d : Z) : ascii :=
  nth (Z.to_nat d) (list_ascii_of_string "0123456789abcdef") "0"%char.

(** [.hexdigest()] *)
Definition hexdigest (nn : nat) (data : list Z) : string :=
  string_of_list_ascii
    (flat_map (fun b => [hex_digit (b / 16); hex_digit (b mod 16)]) (digest nn data)).

End blake2b.

(** ** [basic/minhash.py]: normalizer, shingler, MinHash signature, LSH bands *)
Module minhash.
Import re.

(** [LSHEmbedding]: the frozen dataclass returned by [embed]. *)
Record LSHEmbedding : Type := {
  signature : list Z;
  band_keys : list string;
  shingle_count : Z
}.

(** The attributes [__init__] stores on the embedder. *)
Record LSHMinHashEmbedder : Type := {
  shingle_size : Z;
  num_hashes : Z;
  bands : Z;
  rows_per_band : Z;
  seed : Z;
  normalize_enabled : bool;
  lowercase : bool;
  collapse_whitespace : bool;
  stop_short_lines : Z;
  _prime : Z;
  _max_hash : Z;
  _a : list Z;
  _b : list Z
}.

(** *** Hash utilities *)

(** [_stable_u32]: the 4-byte BLAKE2b digest of the string, little endian. *)
Definition _stable_u32 (s : string) : Z :=
  blake2b.from_le (blake2b.digest 4 (str.encode s)).

(** The pair [(a_i, b_i)] that [_make_hash_params] derives for index [i]. *)
Definition hash_param (seed : Z) (i : nat) : Z * Z :=
  let h := blake2b.digest 16
             (str.encode (pretty seed +:+ ":" +:+ pretty (Z.of_nat i))) in
  (Z.lor (blake2b.from_le (firstn 8 h)) 1, blake2b.from_le (skipn 8 h)).

(** [_make_hash_params(k, seed)]: the lists [a] and [b], one entry per
    [i] in [range(k)]. *)
Definition _make_hash_params (k : Z) (seed : Z) : list Z * list Z :=
  let ps := map (hash_param seed) (seq 0 (Z.to_nat k)) in
  (map fst ps, map snd ps).

(** *** Construction *)

Definition __init__ (shingle_size num_hashes bands seed : Z)
    (normalize lowercase collapse_whitespace : bool) (stop_short_lines : Z)
  : result LSHMinHashEmbedder :=
  if shingle_size <=? 0 then
    Raise (ValueError "shingle_size must be > 0" [])
  else if num_hashes <=? 0 then
    Raise (ValueError "num_hashes must be > 0" [])
  else if (bands <=? 0) || negb (num_hashes mod bands =? 0) then
    Raise (ValueError "bands must be > 0 and must divide num_hashes exactly" [])
  else
    let (a, b) := _make_hash_params num_hashes seed in
    Ok {| shingle_size := shingle_size;
          num_hashes := num_hashes;
          bands := bands;
          rows_per_band := num_hashes / bands;
          seed := seed;
          normalize_enabled := normalize;
          lowercase := lowercase;
          collapse_whitespace := collapse_whitespace;
          stop_short_lines := stop_short_lines;
          _prime := 4294967311;
          _max_hash := Z.shiftl 1 32 - 1;
          _a := a;
          _b := b |}.

(** *** Exact Jaccard

    Python returns the float nearest to the quotient of the two sizes;
    the quotient itself is kept here as a rational. *)
Definition jaccard (shingles_a shingles_b : gset Z) : Q :=
  if bool_decide (shingles_a = ∅) && bool_decide (shingles_b = ∅) then 1%Q
  else if bool_decide (shingles_a = ∅) || bool_decide (shingles_b = ∅) then 0%Q
  else
    let inter := size (shingles_a ∩ shingles_b) in
    let union := size (shingles_a ∪ shingles_b) in
    (Z.of_nat inter # Pos.of_nat union)%Q.

(** *** The mask patterns of [_preprocess] *)

Definition hex : regex := Chr (fun a => is_digit a || in_range "a" "f" a).
Definition lower_digit (extra : string) : regex :=
  Chr (fun a => is_lower a || is_digit a || one_of extra a).
Definition alnum (extra : string) : regex :=
  Chr (fun a => is_alnum a || one_of extra a).
Definition space : regex := Chr is_space.
Definition dot : regex := lit ".".
Definition dquote : ascii := "034"%char.

Definition RE_UUID : regex :=
  ignorecase (seqs [WordB; times 8 hex; lit "-"; times 4 hex; lit "-";
                   Chr (in_range "1" "5"); times 3 hex; lit "-";
                   Chr (one_of "89ab"); times 3 hex; lit "-"; times 12 hex; WordB]).

Definition RE_HEX_WORD : regex := ignorecase (seqs [WordB; lit "0x"; plus hex; WordB]).
Definition RE_HEX_LONG : regex := ignorecase (seqs [WordB; at_least 16 hex; WordB]).

(** [25[0-5]|2[0-4]\d|1?\d?\d] *)
Definition octet : regex :=
  alts [seqs [lit "25"; Chr (in_range "0" "5")];
       seqs [lit "2"; Chr (in_range "0" "4"); digit];
       seqs [opt (lit "1"); opt digit; digit]].

Definition RE_IPv4 : regex := seqs [WordB; times 3 (seqs [octet; dot]); octet; WordB].
Definition RE_IPv6 : regex :=
  ignorecase (seqs [WordB; between 2 7 (seqs [between 1 4 hex; lit ":"]);
                   between 1 4 hex; WordB]).
Definition RE_MAC : regex :=
  ignorecase (seqs [WordB; times 5 (seqs [times 2 hex; Chr (one_of ":-")]);
                   times 2 hex; WordB]).

Definition RE_TS_ISO : regex :=
  ignorecase (seqs [WordB; times 4 digit; lit "-"; times 2 digit; lit "-"; times 2 digit;
                   Chr (one_of "T "); times 2 digit; lit ":"; times 2 digit; lit ":";
                   times 2 digit;
                   opt (seqs [dot; between 1 9 digit]);
                   opt (alts [lit "Z";
                             seqs [Chr (one_of "+-"); times 2 digit; lit ":"; times 2 digit]]);
                   WordB]).
Definition RE_TS_DATE : regex :=
  seqs [WordB; times 4 digit; lit "/"; times 2 digit; lit "/"; times 2 digit; WordB].
Definition RE_TS_TIME : regex :=
  seqs [WordB; times 2 digit; lit ":"; times 2 digit; lit ":"; times 2 digit;
       opt (seqs [dot; plus digit]); WordB].

Definition RE_URL : regex :=
  ignorecase (seqs [WordB; lit "http"; opt (lit "s"); lit "://";
                   plus (NotChr (fun a => is_space a || Ascii.eqb a dquote || one_of "'<>" a))]).
Definition RE_EMAIL : regex :=
  ignorecase (seqs [WordB; plus (lower_digit "._%+-"); lit "@"; plus (lower_digit ".-");
                   dot; at_least 2 (Chr is_lower); WordB]).
Definition RE_ARN : regex :=
  ignorecase (seqs [WordB; lit "arn:aws"; star (Chr (fun a => is_lower a || one_of "-" a));
                   lit ":"; plus (lower_digit "-"); lit ":"; star (lower_digit "-");
                   lit ":"; times 12 digit; lit ":";
                   plus (NotChr (fun a => is_space a || Ascii.eqb a dquote || one_of "'" a)); WordB]).
Definition RE_JWT : regex :=
  seqs [WordB; lit "eyJ"; at_least 10 (alnum "_-"); dot; at_least 10 (alnum "_-"); dot;
       at_least 10 (alnum "_-"); WordB].
Definition RE_B64 : regex :=
  seqs [WordB; at_least 20 (alnum "+/"); between 0 2 (lit "="); WordB].
Definition RE_NUM : regex := seqs [WordB; plus digit; WordB].

(** [name[_-]?id] *)
Definition id_key (name : string) : regex :=
  seqs [lit name; opt (Chr (one_of "_-")); lit "id"].

Definition RE_KV_ID : regex :=
  ignorecase
    (seqs [WordB;
          Group 1 (alts [id_key "trace"; id_key "span"; id_key "request"; id_key "req";
                        id_key "correlation"; id_key "session"; id_key "event";
                        id_key "message"; id_key "msg"; id_key "job"; id_key "task";
                        id_key "txn"; id_key "transaction"; id_key "op";
                        id_key "operation"; id_key "run"; lit "uid"; id_key "user";
                        id_key "account"; id_key "customer"; id_key "tenant";
                        id_key "org"]);
          star space; Group 2 (Chr (one_of "=:")); star space;
          Group 3 (at_least 6 (alnum "._:/+=-")); WordB]).

(** [.] of a pattern compiled without [re.S]: anything but a newline. *)
Definition any : regex := NotChr (fun a => Ascii.eqb a "010").

Definition RE_LONG_ALNUM : regex :=
  seqs [WordB;
       Look (seqs [at_least 12 (alnum "_-"); WordB]);
       Look (seqs [star any; Chr is_alpha]);
       Look (seqs [star any; digit]);
       plus (alnum "_-"); WordB].
Definition RE_MIXED_TOKEN : regex := seqs [WordB; at_least 18 (Chr is_alnum); WordB].

Definition group (i : nat) (c : cursor) : list ascii :=
  match find (fun g => Nat.eqb (fst g) i) (groups c) with
  | Some g => snd g
  | None => []
  end.

(** [_mask_kv]: keep the key and the separator, mask the value. *)
Definition _mask_kv (m : cursor) : list ascii :=
  group 1 m ++ group 2 m ++ list_ascii_of_string "<id>".

Definition const (s : string) (_ : cursor) : list ascii := list_ascii_of_string s.

(** The substitutions of the [if normalize_enabled:] block, in source order. *)
Definition masks : list (regex * (cursor -> list ascii)) :=
  [ (RE_URL, const "<url>"); (RE_EMAIL, const "<url>"); (RE_ARN, const "<url>");
    (RE_JWT, const "<url>");
    (RE_UUID, const "<id>"); (RE_IPv4, const "<ip>"); (RE_IPv6, const "<ip>");
    (RE_MAC, const "<ip>");
    (RE_TS_ISO, const "<ts>"); (RE_TS_DATE, const "<ts>"); (RE_TS_TIME, const "<ts>");
    (RE_KV_ID, _mask_kv);
    (RE_HEX_WORD, const "<hex>"); (RE_HEX_LONG, const "<hex>"); (RE_B64, const "<hex>");
    (RE_LONG_ALNUM, const "<id>"); (RE_MIXED_TOKEN, const "<id>");
    (RE_NUM, const "<id>") ].

Definition mask (s : list ascii) : list ascii :=
  fold_left (fun s m => sub (fst m) (snd m) s) masks s.

(** [re.sub(r"\s+", " ", s).strip()] *)
Definition collapse (s : list ascii) : list ascii :=
  str.strip (sub (plus space) (const " ") s).

(** [_preprocess] on the characters of the text. *)
Definition preprocess_chars (lowercase normalize_enabled collapse_whitespace : bool)
    (text : list ascii) : list ascii :=
  let s := text in
  let s := if lowercase then str.lower s else s in
  let s := if normalize_enabled then mask s else s in
  let s := if collapse_whitespace then collapse s else s in
  s.

Definition _preprocess (self : LSHMinHashEmbedder) (text : string) : string :=
  string_of_list_ascii
    (preprocess_chars (lowercase self) (normalize_enabled self)
                      (collapse_whitespace self) (list_ascii_of_string text)).

(** Text without capital letters, and a matcher position on such text. *)
Definition no_upper (s : list ascii) : Prop := Forall (fun a => is_upper a = false) s.

Definition tidy (c : cursor) : Prop :=
  no_upper (ahead c) /\ Forall (fun g => no_upper (snd g)) (groups c).

(** The order of the specification's wording, kept for comparison with
    [_preprocess]: every mask on the text as given, then lowercasing,
    then whitespace collapsing. *)
Definition normalize_masks_first (self : LSHMinHashEmbedder) (text : string) : string :=
  let s := list_ascii_of_string text in
  let s := if normalize_enabled self then mask s else s in
  let s := if lowercase self then str.lower s else s in
  let s := if collapse_whitespace self then collapse s else s in
  string_of_list_ascii s.

(** *** Shingling *)

(** [len(s)] *)
Definition len (s : string) : Z := Z.of_nat (String.length s).

(** [s[i : i + n]] for [0 <= i] and [0 <= n] *)
Definition slice (s : string) (i n : nat) : string := String.substring i n s.

(** [_shingle]: the set of hashed windows of width [shingle_size]. *)
Definition _shingle (self : LSHMinHashEmbedder) (s : string) : gset Z :=
  let n := shingle_size self in
  if len s <? n then ∅
  else
    fold_left (fun out i => out ∪ {[ _stable_u32 (slice s i (Z.to_nat n)) ]})
              (seq 0 (Z.to_nat (len s - n + 1))) ∅.

(** [shingles]: the public wrapper. *)
Definition shingles (self : LSHMinHashEmbedder) (text : string) : gset Z :=
  _shingle self (_preprocess self text).

(** *** MinHash *)

(** [[self._max_hash] * self.num_hashes] *)
Definition sentinel (self : LSHMinHashEmbedder) : list Z :=
  repeat (_max_hash self) (Z.to_nat (num_hashes self)).

(** [hx = (self._a[i] * x + self._b[i]) % p] *)
Definition hx (self : LSHMinHashEmbedder) (x : Z) (i : nat) : Z :=
  (nth i (_a self) 0 * x + nth i (_b self) 0) mod _prime self.

(** The body of [for i in range(self.num_hashes)]. *)
Definition update_slot (self : LSHMinHashEmbedder) (x : Z) (sig : list Z) (i : nat)
  : list Z :=
  if hx self x i <? nth i sig 0 then <[i := hx self x i]> sig else sig.

(** The body of [for x in shingles]. *)
Definition update_all (self : LSHMinHashEmbedder) (sig : list Z) (x : Z) : list Z :=
  fold_left (update_slot self x) (seq 0 (Z.to_nat (num_hashes self))) sig.

(** [_minhash_signature] *)
Definition _minhash_signature (self : LSHMinHashEmbedder) (shingles : gset Z) : list Z :=
  if bool_decide (shingles = ∅) then sentinel self
  else
    let sig := fold_left (update_all self) (elements shingles) (sentinel self) in
    map (fun v => Z.land v (_max_hash self)) sig.

(** [",".join(map(str, chunk))] *)
Fixpoint join_ints (chunk : list Z) : string :=
  match chunk with
  | [] => ""
  | [v] => pretty v
  | v :: tl => pretty v +:+ "," +:+ join_ints tl
  end.

(** [sig[lo : hi]] for [0 <= lo] *)
Definition chunk_of (sig : list Z) (lo hi : Z) : list Z :=
  firstn (Z.to_nat (hi - lo)) (skipn (Z.to_nat lo) sig).

(** [_signature_to_band_keys]: one key ["lsh:{b}:{digest}"] per band. *)
Definition _signature_to_band_keys (self : LSHMinHashEmbedder) (sig : list Z)
  : list string :=
  let r := rows_per_band self in
  map (fun b : nat =>
         let chunk := chunk_of sig (Z.of_nat b * r) ((Z.of_nat b + 1) * r) in
         let digest := blake2b.hexdigest 8 (str.encode (join_ints chunk)) in
         "lsh:" +:+ pretty (Z.of_nat b) +:+ ":" +:+ digest)
      (seq 0 (Z.to_nat (bands self))).

(** [embed] *)
Definition embed (self : LSHMinHashEmbedder) (text : string) : LSHEmbedding :=
  let norm := _preprocess self text in
  if negb (stop_short_lines self =? 0) && (len norm <? stop_short_lines self) then
    let sig := sentinel self in
    {| signature := sig;
       band_keys := _signature_to_band_keys self sig;
       shingle_count := 0 |}
  else
    let shingles := _shingle self norm in
    let sig := _minhash_signature self shingles in
    {| signature := sig;
       band_keys := _signature_to_band_keys self sig;
       shingle_count := Z.of_nat (size shingles) |}.

(** The shingle set [embed] works from: none when the text is cut short
    by [stop_short_lines], the shingles of the normalized text otherwise. *)
Definition embedded_shingles (self : LSHMinHashEmbedder) (text : string) : gset Z :=
  let norm := _preprocess self text in
  if negb (stop_short_lines self =? 0) && (len norm <? stop_short_lines self) then ∅
  else _shingle self norm.

(** *** Whitespace in normal form

    What [RE_WS.sub(" ", s).strip()] leaves: the text neither starts nor
    ends with whitespace, and every whitespace character in it is a
    single blank followed by a character that is not whitespace. *)

(** The text is empty or starts with a character that is not whitespace. *)
Definition ends_ok (s : list ascii) : bool :=
  match s with
  | a :: _ => negb (is_space a)
  | [] => true
  end.

Fixpoint spaced (s : list ascii) : bool :=
  match s with
  | [] => true
  | a :: tl =>
      (negb (is_space a) || (Ascii.eqb a " " && ends_ok tl)) && spaced tl
  end.

Definition ws_normal (s : list ascii) : bool :=
  spaced s && ends_ok s && ends_ok (rev s).

(** The number of whitespace characters the text starts with. *)
Fixpoint lead (s : list ascii) : nat :=
  match s with
  | a :: tl => if is_space a then S (lead tl) else O
  | [] => O
  end.

End minhash.

(** ** [qdrant_client.http.models], as far as the compiler calls it

    The classes are pydantic models: calling one validates its keyword
    arguments and raises pydantic's [ValidationError] when they do not
    fit the declared fields.  The strict unions ([StrictBool],
    [StrictInt], [StrictStr]) accept a value of exactly that type and
    nothing else; a [bool] is not a [StrictInt].  What a [float] field and
    a [datetime]/[date] field accept is decided by pydantic's parsers and
    is a parameter here. *)
Module models.

Inductive match_t : Type :=
| match_value (value : PyVal)
| match_any (any : list PyVal)
| match_text (text : PyVal)         (* holds [str] of the value kept here *)
| match_phrase (phrase : PyVal).    (* holds [str] of the value kept here *)

(** The four bounds as they were passed in. *)
Record range_t : Type := {
  gt : option PyVal;
  gte : option PyVal;
  lt : option PyVal;
  lte : option PyVal
}.

Inductive range_interface : Type :=
| number_range (r : range_t)        (* models.Range *)
| datetime_range (r : range_t).     (* models.DatetimeRange *)

Record field_condition : Type := {
  key : string;
  match_ : option match_t;
  range : option range_interface;
  is_empty : option bool;
  is_null : option bool
}.

Inductive condition : Type :=
| has_id_condition (has_id : list PyVal)
| field (f : field_condition).

Record min_should_t : Type := {
  conditions : list condition;
  min_count : Z
}.

Record filter : Type := {
  must : option (list condition);
  should : option (list condition);
  min_should : option min_should_t;
  must_not : option (list condition)
}.

Definition strict_bool (v : PyVal) : bool :=
  match v with PBool _ => true | _ => false end.
Definition strict_int (v : PyVal) : bool :=
  match v with PInt _ => true | _ => false end.
Definition strict_str (v : PyVal) : bool :=
  match v with PStr _ => true | _ => false end.

(** [ValueVariants = Union[StrictBool, StrictInt, StrictStr]] *)
Definition ValueVariants (v : PyVal) : bool :=
  strict_bool v || strict_int v || strict_str v.

(** [AnyVariants = Union[List[StrictStr], List[StrictInt]]] *)
Definition AnyVariants (l : list PyVal) : bool :=
  forallb strict_str l || forallb strict_int l.

(** [ExtendedPointId]: an integer or a string. *)
Definition ExtendedPointId (v : PyVal) : bool := strict_int v || strict_str v.

(** An [Optional[...]] field: [None] (or no argument) is accepted. *)
Definition optional (ok : PyVal -> bool) (v : option PyVal) : bool :=
  match v with
  | None | Some PNone => true
  | Some v => ok v
  end.

Section Validation.

(** What pydantic accepts for a field declared [float], and for one
    declared [Union[datetime, date]]. *)
Variable float_ok : PyVal -> bool.
Variable datetime_ok : PyVal -> bool.

(** [models.MatchValue(value=...)] *)
Definition MatchValue (value : PyVal) : result match_t :=
  if ValueVariants value then Ok (match_value value)
  else Raise (ValidationError "MatchValue").

(** [models.MatchAny(any=...)] *)
Definition MatchAny (any : list PyVal) : result match_t :=
  if AnyVariants any then Ok (match_any any)
  else Raise (ValidationError "MatchAny").

(** [models.MatchExcept(except_=...)]: the field is declared under the
    alias ["except"], so the keyword [except_] is an input the model
    forbids and the field itself is missing. *)
Definition MatchExcept (except_ : list PyVal) : result match_t :=
  Raise (ValidationError "MatchExcept").

(** [models.MatchText(text=str(value))] and
    [models.MatchPhrase(phrase=str(value))]: a [str] always fits. *)
Definition MatchText (value : PyVal) : result match_t := Ok (match_text value).
Definition MatchPhrase (value : PyVal) : result match_t := Ok (match_phrase value).

Definition bounds_ok (ok : PyVal -> bool) (r : range_t) : bool :=
  optional ok (gt r) && optional ok (gte r) && optional ok (lt r) && optional ok (lte r).

(** [models.Range(gt=..., gte=..., lt=..., lte=...)] *)
Definition Range (r : range_t) : result range_interface :=
  if bounds_ok float_ok r then Ok (number_range r)
  else Raise (ValidationError "Range").

(** [models.DatetimeRange(gt=..., gte=..., lt=..., lte=...)] *)
Definition DatetimeRange (r : range_t) : result range_interface :=
  if bounds_ok datetime_ok r then Ok (datetime_range r)
  else Raise (ValidationError "DatetimeRange").

(** [models.FieldCondition(key=..., ...)]: [key] is declared [str]. *)
Definition FieldCondition (key : PyVal) (match_ : option match_t)
    (range : option range_interface) (is_empty is_null : option bool)
  : result condition :=
  match key with
  | PStr k => Ok (field {| key := k; match_ := match_; range := range;
                           is_empty := is_empty; is_null := is_null |})
  | _ => Raise (ValidationError "FieldCondition")
  end.

(** [models.HasIdCondition(has_id=...)] *)
Definition HasIdCondition (has_id : list PyVal) : result condition :=
  if forallb ExtendedPointId has_id then Ok (has_id_condition has_id)
  else Raise (ValidationError "HasIdCondition").

(** [models.MinShould(...)]: both [conditions] and [min_count] are
    required fields. *)
Definition MinShould (conditions : option (list condition)) (min_count : Z)
  : result min_should_t :=
  match conditions with
  | Some cs => Ok {| conditions := cs; min_count := min_count |}
  | None => Raise (ValidationError "MinShould")
  end.

(** [models.Filter(...)] of conditions and a [MinShould] already built. *)
Definition Filter (must should : option (list condition))
    (min_should : option min_should_t) (must_not : option (list condition))
  : result filter :=
  Ok {| must := must; should := should; min_should := min_should;
        must_not := must_not |}.

(** [models.FilterCondition]: the module has no such attribute. *)
Definition FilterCondition : result (filter -> condition) :=
  Raise (AttributeError "FilterCondition").

End Validation.

End models.

(** ** [basic/filter_adapter.py]: the filter-expression compiler *)
Module filter_adapter.

(** [spec.get(k)], with Python's [None] for a missing key. *)
Definition get (d : list (string * PyVal)) (k : string) : PyVal :=
  match dict_get k d with
  | Some v => v
  | None => PNone
  end.

(** [(v or dflt).lower()] *)
Definition or_lower (v : PyVal) (dflt : string) : result string :=
  if truthy v then
    match v with
    | PStr s => Ok (str.lower_s s)
    | _ => Raise (AttributeError "lower")
    end
  else Ok (str.lower_s dflt).

Definition is_in (op : string) (names : list string) : bool :=
  existsb (String.eqb op) names.

(** [_as_list] *)
Definition _as_list (x : PyVal) : list PyVal :=
  match x with
  | PNone => []
  | PList l => l
  | _ => [x]
  end.

Definition contains_comma (s : string) : bool :=
  existsb (Ascii.eqb ",") (list_ascii_of_string s).

(** [_parse_range_value] *)
Definition _parse_range_value (value : PyVal) : result (list (string * PyVal)) :=
  let unsupported := Raise (ValueError "Unsupported range value format: " [value]) in
  match value with
  | PDict d => Ok d
  | PList [a; b] | PTuple [a; b] => Ok [("gte", a); ("lte", b)]
  | PStr s =>
      match str.split_comma (list_ascii_of_string s) with
      | Some (a, b) => Ok [("gte", PStr (str.strip_s a)); ("lte", PStr (str.strip_s b))]
      | None => unsupported
      end
  | _ => unsupported
  end.

(** The keyword arguments [gt=r.get("gt"), gte=r.get("gte"), ...]. *)
Definition range_of (r : list (string * PyVal)) : models.range_t :=
  {| models.gt := dict_get "gt" r; models.gte := dict_get "gte" r;
     models.lt := dict_get "lt" r; models.lte := dict_get "lte" r |}.

Definition bad_clauses (expr : PyVal) : exn :=
  ValueError "Logical expr must have non-empty list 'clauses': " [expr].

(** [c.get("logic")] of a clause, as a truth value. *)
Definition is_nested (c : PyVal) : result bool :=
  match c with
  | PDict d => Ok (truthy (get d "logic"))
  | _ => Raise (AttributeError "get")
  end.

Section Compiler.

Variable float_ok : PyVal -> bool.
Variable datetime_ok : PyVal -> bool.

(** [_field_condition_from_atomic].  An argument that is itself a call
    is evaluated, and validated, before the call it is passed to. *)
Definition _field_condition_from_atomic (spec : PyVal) : result models.condition :=
  match spec with
  | PDict d =>
      let key := get d "key" in
      let* dtype := or_lower (get d "dtype") "string" in
      let* op := or_lower (get d "op") "equals" in
      let value := get d "value" in
      if negb (truthy key) && negb (String.eqb op "has_id") then
        Raise (ValueError "Missing 'key' in spec: " [spec])
      else if String.eqb op "has_id" then
        let ids := _as_list value in
        models.HasIdCondition ids
      else if is_in op ["equals"; "eq"] then
        let* m := models.MatchValue value in
        models.FieldCondition key (Some m) None None None
      else if is_in op ["in"] then
        let* m := models.MatchAny (_as_list value) in
        models.FieldCondition key (Some m) None None None
      else if is_in op ["not_in"] then
        let* m := models.MatchExcept (_as_list value) in
        models.FieldCondition key (Some m) None None None
      else if is_in op ["contains"; "text"] then
        let* m := models.MatchText value in
        models.FieldCondition key (Some m) None None None
      else if is_in op ["phrase"] then
        let* m := models.MatchPhrase value in
        models.FieldCondition key (Some m) None None None
      else if is_in op ["prefix"] then
        let* m := models.MatchText value in
        models.FieldCondition key (Some m) None None None
      else if is_in op ["exists"; "has_field"] then
        models.FieldCondition key None None None (Some false)
      else if is_in op ["is_null"] then
        models.FieldCondition key None None None (Some true)
      else if is_in op ["is_empty"] then
        models.FieldCondition key None None (Some true) None
      else if is_in op ["gt"; "gte"; "lt"; "lte"; "between"; "range"] then
        let* r := if is_in op ["between"; "range"] then _parse_range_value value
                  else Ok [(op, value)] in
        if is_in dtype ["datetime"; "date"; "timestamp"] then
          let* rg := models.DatetimeRange datetime_ok (range_of r) in
          models.FieldCondition key None (Some rg) None None
        else
          let* rg := models.Range float_ok (range_of r) in
          models.FieldCondition key None (Some rg) None None
      else
        Raise (ValueError "Unsupported op=" [PStr op; spec])
  | _ => Raise (AttributeError "get")
  end.

(** What a logical expression returns once its clause loop has run;
    [conds] is the outcome of the loop.  An unsupported [logic] runs no
    loop. *)
Definition combine (logic : string) (expr : PyVal)
    (conds : result (list models.condition)) : result models.filter :=
  if String.eqb logic "and" then
    let* must_conds := conds in
    models.Filter (Some must_conds) None None None
  else if String.eqb logic "or" then
    let* should_conds := conds in
    let* min_should := models.MinShould None 1 in
    models.Filter None (Some should_conds) (Some min_should) None
  else if String.eqb logic "not" then
    let* must_not_conds := conds in
    models.Filter None None None (Some must_not_conds)
  else
    Raise (ValueError "Unsupported logic=" [PStr logic; expr]).

(** [_build_filter_from_expr].  The inner [find] is [expr.get("clauses",
    [])] followed by the list test; the function mapped over the clauses
    is the body shared by the three [for c in clauses] loops, in which
    [models.FilterCondition] is looked up before the nested expression is
    compiled. *)
Fixpoint _build_filter_from_expr (expr : PyVal) {struct expr} : result models.filter :=
  match expr with
  | PDict d =>
      let logic := get d "logic" in
      if negb (truthy logic) then
        let* cond := _field_condition_from_atomic expr in
        models.Filter (Some [cond]) None None None
      else
        let* logic := or_lower logic "" in
        (fix find (kvs : list (string * PyVal)) : result models.filter :=
           match kvs with
           | [] => Raise (bad_clauses expr)
           | (k, v) :: tl =>
               if String.eqb k "clauses" then
                 match v with
                 | PList (c0 :: cs0) =>
                     combine logic expr
                       (mapM (fun c =>
                                let* nested := is_nested c in
                                if nested then
                                  let* FilterCondition := models.FilterCondition in
                                  let* f := _build_filter_from_expr c in
                                  Ok (FilterCondition f)
                                else _field_condition_from_atomic c)
                             (c0 :: cs0))
                 | _ => Raise (bad_clauses expr)
                 end
               else find tl
           end) d
  | _ => Raise (AttributeError "get")
  end.

(** One turn of the clause loops: a clause with a truthy ["logic"] is to
    be compiled recursively and embedded, any other is compiled as an
    atomic spec. *)
Definition compile_clause (c : PyVal) : result models.condition :=
  let* nested := is_nested c in
  if nested then
    let* FilterCondition := models.FilterCondition in
    let* f := _build_filter_from_expr c in
    Ok (FilterCondition f)
  else _field_condition_from_atomic c.

(** ["logic" in s] *)
Definition has_logic (s : list (string * PyVal)) : bool :=
  match dict_get "logic" s with
  | Some _ => true
  | None => false
  end.

(** [adapter_specs_to_filters]: a list of filters when some spec carries
    a ["logic"] key, a single filter otherwise. *)
Definition adapter_specs_to_filters (specs : list (list (string * PyVal)))
    (mode : string) : result (list models.filter + models.filter) :=
  let mode := str.lower_s mode in
  if existsb has_logic specs then
    let* filters := mapM (fun s => _build_filter_from_expr (PDict s)) specs in
    Ok (inl filters)
  else
    let* conds := mapM (fun s => _field_condition_from_atomic (PDict s)) specs in
    if String.eqb mode "and" then
      let* filter_ := models.Filter (Some conds) None None None in
      Ok (inr filter_)
    else if String.eqb mode "or" then Raise NotImplementedError
    else Raise (ValueError "Unsupported mode=" [PStr mode]).

End Compiler.

(** The ops [_field_condition_from_atomic] has a branch for. *)
Definition supported_ops : list string :=
  ["has_id"; "equals"; "eq"; "in"; "not_in"; "contains"; "text"; "phrase"; "prefix";
   "exists"; "has_field"; "is_null"; "is_empty";
   "gt"; "gte"; "lt"; "lte"; "between"; "range"].

(** The range values [_parse_range_value] accepts: a dict, a sequence of
    two elements, a string with a comma. *)
Definition range_shape_ok (value : PyVal) : bool :=
  match value with
  | PDict _ => true
  | PList [_; _] | PTuple [_; _] => true
  | PStr s => contains_comma s
  | _ => false
  end.

(** A field the wire format declares as a string: a [str], or absent or
    falsy so that its default applies. *)
Definition str_or_falsy (v : PyVal) : bool :=
  match v with
  | PStr _ => true
  | _ => negb (truthy v)
  end.

(** [clauses] is a non-empty list. *)
Definition clauses_ok (d : list (string * PyVal)) : bool :=
  match dict_get "clauses" d with
  | Some (PList (_ :: _)) => true
  | _ => false
  end.

(** The spec is a dict without a truthy ["logic"]: the loops compile it
    as an atomic spec. *)
Definition atomic (c : PyVal) : bool :=
  match c with
  | PDict d => negb (truthy (get d "logic"))
  | _ => false
  end.

End filter_adapter.

(** ** [basic/embedder.py]: the embedder interface and its LSH instance *)
Module embedder.

(** [compare] can raise, besides the exceptions of [exn], the
    [ZeroDivisionError] of Python's [/]. *)
Inductive raised : Type :=
| Exn (e : exn)
| ZeroDivisionError.

Inductive outcome (A : Type) : Type :=
| Returns (a : A)
| Raises (r : raised).
Arguments Returns {A} a.
Arguments Raises {A} r.

Module BaseEmbedder.

Record t : Type := {
  vector_size : Z;
  distance : string
}.

(** [distance in {"cosine", "euclidean", "dot"}] *)
Definition supported (distance : string) : bool :=
  String.eqb distance "cosine" || String.eqb distance "euclidean"
  || String.eqb distance "dot".

Definition __init__ (vector_size : Z) (distance : string) : result t :=
  if negb (supported distance) then
    Raise (ValueError "Unsupported distance metric: " [PStr distance])
  else Ok {| vector_size := vector_size; distance := distance |}.

End BaseEmbedder.

Module LshEmbedder.

(** The attributes of an [LshEmbedder]: [self.lsh] and those its base
    class stores. *)
Record t : Type := {
  lsh : minhash.LSHMinHashEmbedder;
  base : BaseEmbedder.t
}.

Definition vector_size (self : t) : Z := BaseEmbedder.vector_size (base self).
Definition distance (self : t) : string := BaseEmbedder.distance (base self).

Definition __init__ (shingle_size num_hashes bands seed : Z)
    (normalize lowercase collapse_whitespace : bool) (stop_short_lines : Z)
  : result t :=
  let* lsh := minhash.__init__ shingle_size num_hashes bands seed
                normalize lowercase collapse_whitespace stop_short_lines in
  let* base := BaseEmbedder.__init__ num_hashes "cosine" in
  Ok {| lsh := lsh; base := base |}.

(** [embed]: the signature of the text. *)
Definition embed (self : t) (text : string) : list Z :=
  minhash.signature (minhash.embed (lsh self) text).

(** [embeds]: the generator, as the list of what it yields. *)
Definition embeds (self : t) (texts : list string) : list (list Z) :=
  map (embed self) texts.

(** [sum(1 for x, y in zip(sig_a, sig_b) if x == y)] *)
Definition matches (sig_a sig_b : list Z) : nat :=
  length (List.filter (fun xy : Z * Z => fst xy =? snd xy) (zip sig_a sig_b)).

(** The inner [jaccard] of [compare]; the quotient is kept as a
    rational. *)
Definition jaccard (sig_a sig_b : list Z) : outcome Q :=
  if negb (length sig_a =? length sig_b)%nat then
    Raises (Exn (ValueError "Signatures must be of the same length for comparison." []))
  else
    match length sig_a with
    | O => Raises ZeroDivisionError
    | S _ => Returns (Z.of_nat (matches sig_a sig_b) # Pos.of_nat (length sig_a))%Q
    end.

(** [compare]: the inner [cosine] is defined and never called. *)
Definition compare (self : t) (a b : list Z) : outcome Q := jaccard a b.

End LshEmbedder.

End embedder.

(** ** [basic/utils.py]: the clock *)
Module utils.

(** [datetime.datetime.now(datetime.timezone.utc)]: the fields of an
    aware datetime in UTC. *)
Record datetime : Type := {
  year : Z;
  month : Z;
  day : Z;
  hour : Z;
  minute : Z;
  second : Z;
  microsecond : Z
}.

(** The ranges [datetime] keeps its fields in. *)
Definition within (lo hi x : Z) : bool := (lo <=? x) && (x <=? hi).

Definition well_formed (d : datetime) : bool :=
  within 1 9999 (year d) && within 1 12 (month d) && within 1 31 (day d)
  && within 0 23 (hour d) && within 0 59 (minute d) && within 0 59 (second d)
  && within 0 999999 (microsecond d).

Definition digit_char (d : Z) : ascii := ascii_of_nat (48 + Z.to_nat d).

(** ["%0{w}d" % n]: the last [w] decimal digits of [n]. *)
Fixpoint digits (w : nat) (n : Z) : list ascii :=
  match w with
  | O => []
  | S w' => digits w' (n / 10) ++ [digit_char (n mod 10)]
  end.

(** [d.isoformat()] of an aware datetime in UTC: the fraction is left
    out when [microsecond] is zero. *)
Definition isoformat (d : datetime) : list ascii :=
  digits 4 (year d) ++ "-"%char :: digits 2 (month d) ++ "-"%char :: digits 2 (day d)
  ++ "T"%char :: digits 2 (hour d) ++ ":"%char :: digits 2 (minute d)
  ++ ":"%char :: digits 2 (second d)
  ++ (if microsecond d =? 0 then [] else "."%char :: digits 6 (microsecond d))
  ++ list_ascii_of_string "+00:00".

Fixpoint starts_with (p s : list ascii) : bool :=
  match p, s with
  | [], _ => true
  | a :: p', b :: s' => Ascii.eqb a b && starts_with p' s'
  | _ :: _, [] => false
  end.

(** [s.replace(old, new)] for a non-empty [old]: [skip] counts the
    characters of the current occurrence still to be dropped. *)
Fixpoint replace_from (old new : list ascii) (skip : nat) (s : list ascii)
  : list ascii :=
  match s with
  | [] => []
  | a :: tl =>
      match skip with
      | S n => replace_from old new n tl
      | O =>
          if starts_with old s
          then new ++ replace_from old new (length old - 1) tl
          else a :: replace_from old new O tl
      end
  end.

Definition replace (old new : string) (s : list ascii) : list ascii :=
  replace_from (list_ascii_of_string old) (list_ascii_of_string new) O s.

(** [get_time()] when the clock reads [now]. *)
Definition get_time (now : datetime) : string :=
  string_of_list_ascii (replace "+00:00" "Z" (isoformat now)).

End utils.

(** ** [basic/vector_store.py] (with [utils.hash_text_to_string]): the canonical id,
    the store and its client *)
Module vector_store.
Section VectorStore.

(** [str(d)] of a dict and [hashlib.md5(b).hexdigest()] are Python's own. *)
Variable str_of_dict : list (string * PyVal) -> string.
Variable md5_hexdigest : list Z -> string.

(** [Insertable]: the pydantic model. *)
Record Insertable : Type := {
  text : string;
  metadata : list (string * PyVal);
  insert_timestamp : option string
}.

(** [utils.hash_text_to_string] *)
Definition hash_text_to_string (text : string) : string :=
  md5_hexdigest (str.encode text).

(** [VectorStore._hash]: [f"{insertable.text}-{insertable.metadata}"], hashed. *)
Definition _hash (insertable : Insertable) : string :=
  let stringifoed_obj := text insertable +:+ "-" +:+ str_of_dict (metadata insertable) in
  hash_text_to_string stringifoed_obj.

End VectorStore.

(** *** The store and its Qdrant client *)

(** [ISO_8601_UTC_REGEX] of [inserts]. *)
Definition ISO_8601_UTC_REGEX : re.regex :=
  re.seqs [ re.times 4 re.digit; re.lit "-"; re.times 2 re.digit; re.lit "-";
            re.times 2 re.digit; re.lit "T"; re.times 2 re.digit; re.lit ":";
            re.times 2 re.digit; re.lit ":"; re.times 2 re.digit;
            re.opt (re.Group 1 (re.Seq (re.lit ".") (re.plus re.digit)));
            re.lit "Z"; re.Eos ].

(** [models.Distance] *)
Inductive Distance : Type := COSINE | EUCLIDEAN | DOT.

(** A point as [inserts] hands it to [client.upsert]. *)
Record PointStruct : Type := {
  point_id : string;
  vector : list Z;
  point_payload : list (string * PyVal)
}.

(** The calls made on the client, oldest first. *)
Inductive call : Type :=
| CreateCollection (name : string) (size : Z) (distance : Distance)
| Upsert (name : string) (point : PointStruct).

(** The client: the collections the server holds and the calls made on
    it, which are taken to succeed; [tick] counts the readings of the
    clock. *)
Record client : Type := {
  collections : gset string;
  tick : nat;
  calls : list call
}.

Section Store.

Variable str_of_dict : list (string * PyVal) -> string.
Variable md5_hexdigest : list Z -> string.

(** What the clock reads at each tick. *)
Variable now : nat -> utils.datetime.

Record VectorStore : Type := {
  collection_name : string;
  embedder : embedder.LshEmbedder.t
}.

(** Computations on the client that may raise; calls made before an
    exception stay made. *)
Definition St (A : Type) : Type := client -> result A * client.

Definition st_ret {A} (a : A) : St A := fun c => (Ok a, c).
Definition st_raise {A} (e : exn) : St A := fun c => (Raise e, c).
Definition st_bind {A B} (m : St A) (f : A -> St B) : St B :=
  fun c => match m c with
           | (Ok a, c') => f a c'
           | (Raise e, c') => (Raise e, c')
           end.

Local Notation "'let!' x ':=' m 'in' k" := (st_bind m (fun x => k))
  (at level 10, x name, m at level 100, k at level 200).

Definition get_time : St string :=
  fun c => (Ok (utils.get_time (now (tick c))),
            {| collections := collections c; tick := S (tick c); calls := calls c |}).

Definition client_call (e : call) : St unit :=
  fun c => (Ok tt,
            {| collections := collections c; tick := tick c; calls := calls c ++ [e] |}).

(** [client.create_collection] *)
Definition create_collection (name : string) (size : Z) (dist : Distance) : St unit :=
  fun c => (Ok tt,
            {| collections := {[ name ]} ∪ collections c;
               tick := tick c;
               calls := calls c ++ [CreateCollection name size dist] |}).

(** [create_collection_if_not_exists] *)
Definition create_collection_if_not_exists (self : VectorStore)
    (vector_size : Z) (distance : string) : St unit :=
  let dist :=
    if String.eqb distance "cosine" then Ok COSINE
    else if String.eqb distance "euclidean" then Ok EUCLIDEAN
    else if String.eqb distance "dot" then Ok DOT
    else Raise (ValueError "Unsupported distance metric" []) in
  match dist with
  | Raise e => st_raise e
  | Ok dist =>
      fun c =>
        if bool_decide (collection_name self ∈ collections c) then (Ok tt, c)
        else create_collection (collection_name self) vector_size dist c
  end.

(** [VectorStore.__init__] *)
Definition __init__ (collection_name : string) (embedder : embedder.LshEmbedder.t)
  : St VectorStore :=
  let self := {| collection_name := collection_name; embedder := embedder |} in
  let! _ := create_collection_if_not_exists self
              (embedder.LshEmbedder.vector_size embedder)
              (embedder.LshEmbedder.distance embedder) in
  st_ret self.

(** [re.match(ISO_8601_UTC_REGEX, ts)] as a truth value. *)
Definition iso_ok (ts : string) : bool :=
  match re.match_ ISO_8601_UTC_REGEX (list_ascii_of_string ts) with
  | Some _ => true
  | None => false
  end.

(** The body of the [for insertable, embedding in zip(...)] loop. *)
Definition insert_point (self : VectorStore) (insertable : Insertable)
    (embedding : list Z) : St unit :=
  let _id := _hash str_of_dict md5_hexdigest insertable in
  let! ts := match insert_timestamp insertable with
             | None => get_time
             | Some ts =>
                 if negb (iso_ok ts) then
                   st_raise (ValueError
                     "insert_timestamp must be in ISO 8601 UTC format (…Z): " [PStr ts])
                 else st_ret ts
             end in
  let insertable := {| text := text insertable;
                       metadata := metadata insertable;
                       insert_timestamp := Some ts |} in
  client_call
    (Upsert (collection_name self)
            {| point_id := _hash str_of_dict md5_hexdigest insertable;
               vector := embedding;
               point_payload := dict_set "insert_timestamp" (PStr ts)
                                         (metadata insertable) |}).

Fixpoint inserts_loop (self : VectorStore) (pairs : list (Insertable * list Z))
  : St unit :=
  match pairs with
  | [] => st_ret tt
  | (insertable, embedding) :: tl =>
      let! _ := insert_point self insertable embedding in
      inserts_loop self tl
  end.

(** [inserts] on objects that hold the keys of an [Insertable]. *)
Definition inserts (self : VectorStore) (objects : list Insertable) : St unit :=
  let insertables := objects in
  let texts := map text insertables in
  inserts_loop self
    (zip insertables (embedder.LshEmbedder.embeds (embedder self) texts)).

End Store.

End vector_store.

(** ** [log_ingestion_handler.py]: ingestion pipeline and relink job *)
Module log_ingestion_handler.
Import vector_store.

Section Handler.

Variable str_of_dict : list (string * PyVal) -> string.
Variable md5_hexdigest : list Z -> string.

(** Similarity scores are Python floats: the code compares them with
    [>=] and writes the constant [1.0]. *)
Variable score : Type.
Variable score_ge : score -> score -> bool.
Variable score_one : score.

(** [utils.get_time()] as read at each tick of the clock. *)
Variable isoformat : nat -> string.

(** A Qdrant point id is an integer or a string. *)
Inductive PointId : Type :=
| IdInt (n : Z)
| IdStr (s : string).

(** [str(point.id)] *)
Definition str_id (i : PointId) : string :=
  match i with
  | IdInt n => pretty n
  | IdStr s => s
  end.

Record ScoredPoint : Type := {
  id : PointId;
  score_ : score;
  payload : option (list (string * PyVal))
}.

Record QueryResponse : Type := { points : list ScoredPoint }.

(** The arguments of one [insert_into_lookup_db] call. *)
Record LookupRecord : Type := {
  log_id : string;
  closest_log_id : string;
  similarity : score;
  timestamp : PyVal;
  location : PyVal
}.

(** A log entry of the caller's batch: the dict with keys ['text'],
    ['metadata'] and, once annotated, ['insert_timestamp']. *)
Record LogEntry : Type := {
  entry_text : string;
  entry_metadata : list (string * PyVal);
  entry_insert_timestamp : option string
}.

(** Calls made to the two stores, oldest first. *)
Inductive event : Type :=
| LookupInsert (r : LookupRecord)          (* lookup_db_store.insert_into_lookup_db *)
| VectorInserts (objs : list nat).         (* vector_store.inserts *)

(** The entries live in a heap of objects; the batch and the insertion
    queue hold references into it. *)
Record world : Type := {
  heap : gmap nat LogEntry;
  clock : nat;
  trace : list event
}.

Record LogIngestionHtbridHandler : Type := {
  insert_sim_threshold : score;
  sim_sync_batch_size : Z
}.

(** Computations that read and write the world and may raise; what was
    written before an exception stays written. *)
Definition M (A : Type) : Type := world -> result A * world.

Definition ret {A} (a : A) : M A := fun w => (Ok a, w).
Definition raise {A} (e : exn) : M A := fun w => (Raise e, w).
Definition mbind {A B} (m : M A) (f : A -> M B) : M B :=
  fun w => match m w with
           | (Ok a, w') => f a w'
           | (Raise e, w') => (Raise e, w')
           end.

Notation "'do*' x := m 'in' k" := (mbind m (fun x => k))
  (at level 10, x name, m at level 100, k at level 200).

Definition get_time : M string :=
  fun w => (Ok (isoformat (clock w)),
            {| heap := heap w; clock := S (clock w); trace := trace w |}).

Definition emit (e : event) : M unit :=
  fun w => (Ok tt, {| heap := heap w; clock := clock w; trace := trace w ++ [e] |}).

(** [entry[...]] of the object at [l]. *)
Definition read (l : nat) : M LogEntry :=
  fun w => match heap w !! l with
           | Some e => (Ok e, w)
           | None => (Raise (KeyError "text"), w)
           end.

Definition mutate (l : nat) (f : LogEntry -> LogEntry) : M unit :=
  fun w => (Ok tt, {| heap := alter f l (heap w); clock := clock w; trace := trace w |}).

(** [entry['insert_timestamp'] = t] *)
Definition set_insert_timestamp (t : string) (e : LogEntry) : LogEntry :=
  {| entry_text := entry_text e;
     entry_metadata := entry_metadata e;
     entry_insert_timestamp := Some t |}.

(** [entry["metadata"]["sim_sync"] = False] *)
Definition set_sim_sync (e : LogEntry) : LogEntry :=
  {| entry_text := entry_text e;
     entry_metadata := dict_set "sim_sync" (PBool false) (entry_metadata e);
     entry_insert_timestamp := entry_insert_timestamp e |}.

(** [d.get(k, '')] *)
Definition get_or_empty (d : list (string * PyVal)) (k : string) : PyVal :=
  match dict_get k d with
  | Some v => v
  | None => PStr ""
  end.

(** The f-string of the "Top match" log line slices
    [top_point.payload.get('text', '')], which raises unless the payload
    is a dict whose ['text'] is absent or a sequence. *)
Definition log_top_match (top_point : ScoredPoint) : M unit :=
  match payload top_point with
  | None => raise (AttributeError "get")
  | Some d =>
      match get_or_empty d "text" with
      | PStr _ | PList _ | PTuple _ => ret tt
      | _ => raise (TypeError "subscript")
      end
  end.

Definition hashval_of (e : LogEntry) : string :=
  _hash str_of_dict md5_hexdigest
        {| text := entry_text e; metadata := entry_metadata e;
           insert_timestamp := None |}.

Definition lookup_record (e : LogEntry) (hashval closest : string) (sim : score)
  : LookupRecord :=
  {| log_id := hashval;
     closest_log_id := closest;
     similarity := sim;
     timestamp := get_or_empty (entry_metadata e) "timestamp";
     location := get_or_empty (entry_metadata e) "pod_name" |}.

(** The body of [for entry, result in zip(log_entries, search_results)];
    it returns the queue [vector_store_inserts] as it stands afterwards. *)
Definition insert_one (self : LogIngestionHtbridHandler)
    (vector_store_inserts : list nat) (entry : nat) (result_ : option QueryResponse)
  : M (list nat) :=
  do* now := get_time in
  do* _ := mutate entry (set_insert_timestamp now) in
  do* _ := mutate entry set_sim_sync in
  do* e := read entry in
  let hashval := hashval_of e in
  match result_ with
  | None => raise (AttributeError "points")
  | Some result_ =>
      match points result_ with
      | top_point :: _ =>
          let sim := score_ top_point in
          do* _ := log_top_match top_point in
          if score_ge sim (insert_sim_threshold self) then
            do* _ := emit (LookupInsert
                             (lookup_record e hashval (str_id (id top_point)) sim)) in
            ret vector_store_inserts
          else
            do* _ := emit (LookupInsert (lookup_record e hashval hashval score_one)) in
            ret (vector_store_inserts ++ [entry])
      | [] =>
          do* _ := emit (LookupInsert (lookup_record e hashval hashval score_one)) in
          ret (vector_store_inserts ++ [entry])
      end
  end.

Fixpoint insert_loop (self : LogIngestionHtbridHandler)
    (pairs : list (nat * option QueryResponse)) (vector_store_inserts : list nat)
  : M (list nat) :=
  match pairs with
  | [] => ret vector_store_inserts
  | (entry, result_) :: tl =>
      do* queue := insert_one self vector_store_inserts entry result_ in
      insert_loop self tl queue
  end.

(** [insert_logs].  [log_entries] are the references of the caller's
    batch; [search_results] is what [vector_store.search_batch] returned
    for their texts.  [zip] stops at the shorter of its two lists. *)
Definition insert_logs (self : LogIngestionHtbridHandler) (log_entries : list nat)
    (search_results : option (list QueryResponse)) : M unit :=
  let search_results :=
    match search_results with
    | None | Some [] => repeat None (length log_entries)
    | Some rs => map Some rs
    end in
  do* vector_store_inserts := insert_loop self (zip log_entries search_results) [] in
  match vector_store_inserts with
  | [] => ret tt
  | _ => emit (VectorInserts vector_store_inserts)
  end.

(** The state of an entry once [insert_logs] has annotated it at clock
    reading [t]. *)
Definition annotated (t : nat) (e : LogEntry) : LogEntry :=
  set_sim_sync (set_insert_timestamp (isoformat t) e).

(** A response whose "Top match" log line can be formatted. *)
Definition loggable (r : QueryResponse) : Prop :=
  match points r with
  | top_point :: _ =>
      exists d, payload top_point = Some d
                /\ match get_or_empty d "text" with
                   | PStr _ | PList _ | PTuple _ => True
                   | _ => False
                   end
  | [] => True
  end.

(** The entry is queued for the vector store: no top match, or one
    scoring below the threshold. *)
Definition queued (self : LogIngestionHtbridHandler) (r : QueryResponse) : bool :=
  match points r with
  | top_point :: _ => negb (score_ge (score_ top_point) (insert_sim_threshold self))
  | [] => true
  end.

(** The lookup record written for entry [e] (as the caller passed it)
    answered by [r]. *)
Definition decision (self : LogIngestionHtbridHandler) (e : LogEntry)
    (r : QueryResponse) : LookupRecord :=
  let e' := set_sim_sync e in
  let hashval := hashval_of e' in
  match points r with
  | top_point :: _ =>
      if score_ge (score_ top_point) (insert_sim_threshold self)
      then lookup_record e' hashval (str_id (id top_point)) (score_ top_point)
      else lookup_record e' hashval hashval score_one
  | [] => lookup_record e' hashval hashval score_one
  end.

(** The references queued by a batch, in batch order. *)
Definition queue_of (self : LogIngestionHtbridHandler) (log_entries : list nat)
    (rs : list QueryResponse) : list nat :=
  map fst (List.filter (fun lr => queued self (snd lr)) (zip log_entries rs)).

(** The [Insertable] that [inserts] makes of an entry: it reads the
    three keys. *)
Definition to_insertable (e : LogEntry) : Insertable :=
  {| text := entry_text e;
     metadata := entry_metadata e;
     insert_timestamp := entry_insert_timestamp e |}.

(** The objects behind the references of [vector_store_inserts], as
    [vector_store.inserts] receives them. *)
Definition objects_of (w : world) (refs : list nat) : list Insertable :=
  omap (fun l => to_insertable <$> heap w !! l) refs.

(** A point returned by [scroll]. *)
Record Record_ : Type := {
  record_id : PointId;
  record_payload : option (list (string * PyVal))
}.

(** An edge [[point.id, str(top_point.id), sim]]. *)
Definition edge : Type := PointId * string * score.

(** What pydantic accepts for a [float] and for a [datetime] field; see
    [models]. *)
Variable float_ok : PyVal -> bool.
Variable datetime_ok : PyVal -> bool.

(** The filter [sync_similarty] scrolls and searches with. *)
Definition sim_sync_filter : result (list models.filter + models.filter) :=
  filter_adapter.adapter_specs_to_filters float_ok datetime_ok
    [[("key", PStr "sim_sync"); ("dtype", PStr "boolean"); ("op", PStr "equals");
      ("value", PBool false)]] "and".

(** [p.payload.get("textPayload", "")] *)
Definition text_payload (p : Record_) : result PyVal :=
  match record_payload p with
  | Some d => Ok (get_or_empty d "textPayload")
  | None => Raise (AttributeError "get")
  end.

(** The body of [for point, result in zip(unsync_points, search_results)]. *)
Definition relink_one (edges_to_update : list edge) (point : Record_)
    (result_ : QueryResponse) : result (list edge) :=
  if match points result_ with [] => false | _ => true end
     && (0 <? Z.of_nat (length (points result_))) then
    match points result_ with
    | _ :: top_point :: _ =>
        Ok (edges_to_update
              ++ [(record_id point, str_id (id top_point), score_ top_point)])
    | _ => Raise (IndexError "list index out of range")
    end
  else Ok edges_to_update.

Fixpoint relink_loop (pairs : list (Record_ * QueryResponse))
    (edges_to_update : list edge) : result (list edge) :=
  match pairs with
  | [] => Ok edges_to_update
  | (point, result_) :: tl =>
      let* edges := relink_one edges_to_update point result_ in
      relink_loop tl edges
  end.

(** [sync_similarty].  [unsync_points] is the first component of what
    [vector_store.scroll] returned, [search_results] what
    [vector_store.search_batch] returned for their texts with [top_k=2]. *)
Definition sync_similarty (self : LogIngestionHtbridHandler)
    (unsync_points : list Record_) (search_results : list QueryResponse)
  : result (list edge) :=
  let* filter := sim_sync_filter in
  let* texts := mapM text_payload unsync_points in
  relink_loop (zip unsync_points search_results) [].


(** *** Properties of the ingestion pipeline and of the relink job *)

Lemma dict_set_idem k v d : dict_set k v (dict_set k v d) = dict_set k v d.
Proof.
  induction d as [|[k' v'] d IH]; cbn.
  - rewrite String.eqb_refl. reflexivity.
  - destruct (String.eqb k' k) eqn:E; cbn; rewrite E; [reflexivity|].
    rewrite IH. reflexivity.
Qed.

Lemma annotated_annotated t0 t e : annotated t (annotated t0 e) = annotated t e.
Proof.
  unfold annotated, set_sim_sync, set_insert_timestamp. cbn.
  rewrite dict_set_idem. reflexivity.
Qed.

(** The record written depends on the text and the metadata alone. *)
Lemma decision_annotated self t e r : decision self (annotated t e) r = decision self e r.
Proof.
  unfold decision, annotated, set_sim_sync, set_insert_timestamp, hashval_of, lookup_record.
  cbn. rewrite dict_set_idem. reflexivity.
Qed.

Lemma log_top_match_ok p ps r w :
  points r = p :: ps -> loggable r -> log_top_match p w = (Ok tt, w).
Proof.
  unfold loggable, log_top_match. intros -> (d & -> & Hd).
  destruct (get_or_empty d "text"); try contradiction; reflexivity.
Qed.

(** One turn of the loop on a present entry and a well-formed response. *)
Lemma insert_one_spec self q l r w e :
  heap w !! l = Some e -> loggable r ->
  insert_one self q l (Some r) w =
    (Ok (if queued self r then q ++ [l] else q),
     {| heap := alter set_sim_sync l
                  (alter (set_insert_timestamp (isoformat (clock w))) l (heap w));
        clock := S (clock w);
        trace := trace w ++ [LookupInsert (decision self e r)] |}).
Proof.
  intros Hl Hlog. rewrite <- (decision_annotated self (clock w) e r).
  unfold insert_one, mbind, get_time, mutate, read. cbn [heap clock trace].
  rewrite !lookup_alter_eq, Hl. cbn [fmap option_fmap option_map].
  fold (annotated (clock w) e).
  unfold decision, queued.
  assert (Hs : set_sim_sync (annotated (clock w) e) = annotated (clock w) e).
  { unfold annotated, set_sim_sync, set_insert_timestamp. cbn.
    rewrite dict_set_idem. reflexivity. }
  rewrite Hs.
  destruct (points r) as [|p ps] eqn:Hp.
  - reflexivity.
  - rewrite (log_top_match_ok p ps r _ Hp Hlog).
    destruct (score_ge (score_ p) (insert_sim_threshold self)); reflexivity.
Qed.

(** The response is read only after the entry has been annotated: with
    no response object the turn raises, and the entry stays annotated. *)
Lemma insert_one_none self q l w e :
  heap w !! l = Some e ->
  exists w',
    insert_one self q l None w = (Raise (AttributeError "points"), w')
    /\ heap w' !! l = Some (annotated (clock w) e)
    /\ trace w' = trace w.
Proof.
  intros Hl. eexists. split; [|split].
  - unfold insert_one, mbind, get_time, mutate, read. cbn [heap clock trace].
    rewrite !lookup_alter_eq, Hl. reflexivity.
  - cbn [heap]. rewrite !lookup_alter_eq, Hl. reflexivity.
  - reflexivity.
Qed.

Lemma queue_of_cons self l ls r rs :
  queue_of self (l :: ls) (r :: rs) =
    if queued self r then l :: queue_of self ls rs else queue_of self ls rs.
Proof.
  unfold queue_of. cbn [zip zip_with List.filter snd].
  destruct (queued self r); reflexivity.
Qed.

(** The loop over a batch whose entries are present in the heap, each
    with its response. *)
Lemma insert_loop_spec self :
  forall ls es rs q w,
    length rs = length ls ->
    Forall2 (fun l e => exists e', heap w !! l = Some e'
                                   /\ forall t, annotated t e' = annotated t e) ls es ->
    Forall loggable rs ->
    exists w',
      insert_loop self (zip ls (map Some rs)) q w = (Ok (q ++ queue_of self ls rs), w')
      /\ trace w' = trace w ++ map LookupInsert (zip_with (decision self) es rs)
      /\ clock w' = (clock w + length ls)%nat
      /\ (forall l', l' ∉ ls -> heap w' !! l' = heap w !! l')
      /\ Forall2 (fun l e => exists t, (clock w <= t < clock w')%nat
                                       /\ heap w' !! l = Some (annotated t e)) ls es.
Proof.
  induction ls as [|l ls IH]; intros es rs q w Hlen Hes Hlog.
  - destruct rs; [|discriminate]. inversion Hes; subst.
    exists w. cbn. rewrite !app_nil_r, Nat.add_0_r. repeat split; auto.
  - destruct rs as [|r rs]; [discriminate|].
    inversion Hes as [|? e ? es' (e' & Hl & He) Hes']; subst.
    inversion Hlog as [|? ? Hr Hrs]; subst.
    cbn [map zip zip_with insert_loop]. unfold mbind at 1.
    rewrite (insert_one_spec self q l r w e' Hl Hr).
    set (w1 := {| heap := alter set_sim_sync l
                            (alter (set_insert_timestamp (isoformat (clock w))) l (heap w));
                  clock := S (clock w);
                  trace := trace w ++ [LookupInsert (decision self e' r)] |}).
    assert (Hw1l : heap w1 !! l = Some (annotated (clock w) e')).
    { cbn [w1 heap]. rewrite !lookup_alter_eq, Hl. reflexivity. }
    assert (Hw1o : forall l', l' <> l -> heap w1 !! l' = heap w !! l').
    { intros l' Hne. cbn [w1 heap]. rewrite !lookup_alter_ne by congruence. reflexivity. }
    destruct (IH es' rs (if queued self r then q ++ [l] else q) w1)
      as (w' & Hrun & Htr & Hck & Hout & Hfin).
    + cbn in Hlen. lia.
    + eapply Forall2_impl; [exact Hes'|].
      intros l2 e2 (e2' & Hl2 & He2). destruct (decide (l2 = l)) as [->|Hne].
      * exists (annotated (clock w) e'). split; [exact Hw1l|].
        intros t. rewrite annotated_annotated.
        rewrite Hl in Hl2. injection Hl2 as <-. apply He2.
      * exists e2'. split; [rewrite Hw1o by exact Hne; exact Hl2|exact He2].
    + exact Hrs.
    + exists w'. split; [|split; [|split; [|split]]].
      * rewrite Hrun, queue_of_cons. destruct (queued self r); [|reflexivity].
        rewrite <- app_assoc. reflexivity.
      * rewrite Htr. cbn [w1 trace map]. rewrite <- app_assoc. cbn [app].
        rewrite <- (decision_annotated self 0 e' r), He, decision_annotated.
        reflexivity.
      * rewrite Hck. cbn [w1 clock length]. lia.
      * intros l' Hnin. rewrite Hout by set_solver. apply Hw1o. set_solver.
      * assert (Hck' : (S (clock w) <= clock w')%nat) by (rewrite Hck; cbn; lia).
        constructor.
        -- destruct (decide (l ∈ ls)) as [Hin|Hnin].
           ++ apply list_elem_of_lookup in Hin. destruct Hin as [i Hi].
              destruct (Forall2_lookup_l _ _ _ _ _ Hes' Hi) as (e2 & Hi2 & e2' & Hl2 & He2).
              destruct (Forall2_lookup_l _ _ _ _ _ Hfin Hi) as (e3 & Hi3 & t & Ht & Hfl).
              rewrite Hi2 in Hi3. injection Hi3 as <-.
              rewrite Hl in Hl2. injection Hl2 as <-.
              exists t. split; [cbn [w1 clock] in Ht; lia|].
              rewrite Hfl, <- He2, He. reflexivity.
           ++ exists (clock w). split; [lia|].
              rewrite (Hout l Hnin), Hw1l, He. reflexivity.
        -- eapply Forall2_impl; [exact Hfin|].
           intros l2 e2 (t & Ht & Hfl). exists t. split; [cbn [w1 clock] in Ht; lia|exact Hfl].
Qed.

(** [insert_logs] on a batch of present entries with one well-formed
    response each. *)
Lemma insert_logs_spec self ls es rs w :
  length rs = length ls ->
  Forall2 (fun l e => heap w !! l = Some e) ls es ->
  Forall loggable rs ->
  exists w',
    insert_logs self ls (Some rs) w = (Ok tt, w')
    /\ trace w' = trace w ++ map LookupInsert (zip_with (decision self) es rs)
                   ++ match queue_of self ls rs with
                      | [] => []
                      | queue => [VectorInserts queue]
                      end
    /\ Forall2 (fun l e => exists t, (clock w <= t < clock w')%nat
                                     /\ heap w' !! l = Some (annotated t e)) ls es.
Proof.
  intros Hlen Hes Hlog.
  destruct rs as [|r rs'].
  { destruct ls; [|discriminate]. inversion Hes; subst.
    exists w. split; [reflexivity|]. cbn. rewrite app_nil_r. split; [reflexivity|constructor]. }
  destruct (insert_loop_spec self ls es (r :: rs') [] w Hlen)
    as (w1 & Hrun & Htr & Hck & _ & Hfin).
  { eapply Forall2_impl; [exact Hes|]. intros l e Hl. exists e. split; [exact Hl|reflexivity]. }
  { exact Hlog. }
  cbn [app] in Hrun.
  unfold insert_logs, mbind. cbv beta iota. rewrite Hrun.
  destruct (queue_of self ls (r :: rs')) as [|l0 queue] eqn:Hq.
  - exists w1. split; [reflexivity|]. split; [rewrite Htr, app_nil_r; reflexivity|exact Hfin].
  - eexists. split; [reflexivity|]. cbn [trace clock heap].
    split; [rewrite Htr, <- app_assoc; reflexivity|exact Hfin].
Qed.

Lemma decision_log_id self e r :
  log_id (decision self e r) =
    md5_hexdigest
      (str.encode (entry_text e +:+ "-"
                   +:+ str_of_dict (dict_set "sim_sync" (PBool false) (entry_metadata e)))).
Proof.
  unfold decision. destruct (points r) as [|p ps]; [reflexivity|].
  destruct (score_ge (score_ p) (insert_sim_threshold self)); reflexivity.
Qed.

Lemma Forall2_zip_with_l {A B C} (P : A -> C -> Prop) (f : A -> B -> C) :
  (forall a b, P a (f a b)) ->
  forall (xs : list A) (ys : list B),
    length xs = length ys -> Forall2 P xs (zip_with f xs ys).
Proof.
  intros HP. induction xs as [|x xs IH]; intros [|y ys] Hlen; try discriminate.
  - constructor.
  - cbn. constructor; [apply HP|apply IH]. cbn in Hlen. lia.
Qed.

(** X14.  On a batch whose every entry has its response, and in which
    the "Top match" log line of every response can be formatted (the top
    point carries a payload whose ['text'] is absent or can be sliced),
    [insert_logs] returns normally having written one lookup record per
    entry, in batch order, followed by a single [inserts] call carrying
    the queued entries (none when nothing was queued).  The record of an
    entry whose top match scores at least [insert_sim_threshold] points at
    the matched id with that score, and the entry is not queued; otherwise
    (lower score, or no point at all) the record points at the entry's own
    id with similarity [1.0], and the entry is queued. *)
Theorem insert_logs_decides_each_entry :
  forall self (ls : list nat) (es : list LogEntry) (rs : list QueryResponse) w,
    length rs = length ls ->
    Forall2 (fun l e => heap w !! l = Some e) ls es ->
    Forall loggable rs ->
    exists w',
      insert_logs self ls (Some rs) w = (Ok tt, w')
      /\ trace w' = trace w ++ map LookupInsert (zip_with (decision self) es rs)
                     ++ match queue_of self ls rs with
                        | [] => []
                        | queue => [VectorInserts queue]
                        end
      /\ queue_of self ls rs =
           map fst (List.filter (fun lr => queued self (snd lr)) (zip ls rs))
      /\ forall e r,
           let e' := set_sim_sync e in
           let own := {| log_id := hashval_of e';
                         closest_log_id := hashval_of e';
                         similarity := score_one;
                         timestamp := get_or_empty (entry_metadata e') "timestamp";
                         location := get_or_empty (entry_metadata e') "pod_name" |} in
           match points r with
           | top_point :: _ =>
               if score_ge (score_ top_point) (insert_sim_threshold self)
               then decision self e r =
                      {| log_id := hashval_of e';
                         closest_log_id := str_id (id top_point);
                         similarity := score_ top_point;
                         timestamp := get_or_empty (entry_metadata e') "timestamp";
                         location := get_or_empty (entry_metadata e') "pod_name" |}
                    /\ queued self r = false
               else decision self e r = own /\ queued self r = true
           | [] => decision self e r = own /\ queued self r = true
           end.
Proof.
  intros self ls es rs w Hlen Hes Hlog.
  destruct (insert_logs_spec self ls es rs w Hlen Hes Hlog) as (w' & Hrun & Htr & _).
  exists w'. split; [exact Hrun|]. split; [exact Htr|]. split; [reflexivity|].
  intros e r. unfold decision, queued, lookup_record. cbn zeta.
  destruct (points r) as [|p ps]; [split; reflexivity|].
  destruct (score_ge (score_ p) (insert_sim_threshold self)); split; reflexivity.
Qed.

(** A turn whose "Top match" log line cannot be formatted raises before
    the score is compared with the threshold. *)
Lemma insert_one_unloggable self q l r p ps w e ex :
  heap w !! l = Some e -> points r = p :: ps ->
  (forall w0, log_top_match p w0 = (Raise ex, w0)) ->
  exists w',
    insert_one self q l (Some r) w = (Raise ex, w')
    /\ heap w' !! l = Some (annotated (clock w) e)
    /\ (forall l', l' <> l -> heap w' !! l' = heap w !! l')
    /\ trace w' = trace w.
Proof.
  intros Hl Hp Hlog. eexists. split; [|split; [|split]].
  - unfold insert_one, mbind, get_time, mutate, read. cbn [heap clock trace].
    rewrite !lookup_alter_eq, Hl. cbn [fmap option_fmap option_map].
    rewrite Hp, Hlog. reflexivity.
  - cbn [heap]. rewrite !lookup_alter_eq, Hl. reflexivity.
  - intros l' Hne. cbn [heap]. rewrite !lookup_alter_ne by congruence. reflexivity.
  - reflexivity.
Qed.

Lemma insert_logs_first_raises self l ls r rs w ex w1 :
  insert_one self [] l (Some r) w = (Raise ex, w1) ->
  insert_logs self (l :: ls) (Some (r :: rs)) w = (Raise ex, w1).
Proof.
  intros H. unfold insert_logs. cbn [map zip zip_with insert_loop].
  unfold mbind at 1. unfold mbind at 1. rewrite H. reflexivity.
Qed.

(** C1 fails on the code.  The "Top match" log line slices
    [top_point.payload.get('text', '')] before the score is compared with
    the threshold.  When the top match of an entry has no payload, or a
    payload whose ['text'] is an integer, [insert_logs] raises
    ([AttributeError], [TypeError]) whatever the score, at or above the
    threshold or below it: no lookup record is written for the entry and
    [inserts] is not called. *)
Theorem insert_logs_unloggable_match_raises :
  forall self (l : nat) (ls : list nat) (e : LogEntry) (h : gmap nat LogEntry)
         (c : nat) (tr : list event) (i : PointId) (s : score)
         (ps : list ScoredPoint) (rs : list QueryResponse)
         (n : Z) (d : list (string * PyVal)),
    let w := {| heap := <[l := e]> h; clock := c; trace := tr |} in
    let top := fun pl =>
      {| points := {| id := i; score_ := s; payload := pl |} :: ps |} in
    (exists w',
        insert_logs self (l :: ls) (Some (top None :: rs)) w
          = (Raise (AttributeError "get"), w')
        /\ trace w' = tr)
    /\ (exists w',
          insert_logs self (l :: ls) (Some (top (Some (("text", PInt n) :: d)) :: rs)) w
            = (Raise (TypeError "subscript"), w')
          /\ trace w' = tr).
Proof.
  intros self l ls e h c tr i s ps rs n d w top.
  assert (Hl : heap w !! l = Some e) by (cbn; apply lookup_insert_eq).
  split.
  - destruct (insert_one_unloggable self [] l (top None) _ ps w e (AttributeError "get") Hl eq_refl)
      as (w' & Hrun & _ & _ & Htr); [reflexivity|].
    exists w'. split; [apply insert_logs_first_raises, Hrun|exact Htr].
  - destruct (insert_one_unloggable self [] l (top (Some (("text", PInt n) :: d))) _ ps w e
                (TypeError "subscript") Hl eq_refl)
      as (w' & Hrun & _ & _ & Htr); [reflexivity|].
    exists w'. split; [apply insert_logs_first_raises, Hrun|exact Htr].
Qed.

(** C10 fails on the code.  The entries are annotated one by one inside
    the loop, so a call that raises at one entry never reaches the
    entries after it: with a first top match whose payload ['text'] is an
    integer, the first entry is annotated and the second is left exactly
    as the caller passed it, whatever its own response. *)
Theorem insert_logs_leaves_later_entries_unannotated :
  forall self (l : nat) (e1 e2 : LogEntry) (h : gmap nat LogEntry)
         (c : nat) (tr : list event) (i : PointId) (s : score)
         (ps : list ScoredPoint) (rs : list QueryResponse)
         (n : Z) (d : list (string * PyVal)),
    let w := {| heap := <[l := e1]> (<[S l := e2]> h); clock := c; trace := tr |} in
    let r := {| points := {| id := i; score_ := s;
                             payload := Some (("text", PInt n) :: d) |} :: ps |} in
    exists w',
      insert_logs self [l; S l] (Some (r :: rs)) w = (Raise (TypeError "subscript"), w')
      /\ heap w' !! l = Some (annotated c e1)
      /\ heap w' !! S l = Some e2.
Proof.
  intros self l e1 e2 h c tr i s ps rs n d w r.
  assert (Hl : heap w !! l = Some e1) by (cbn; apply lookup_insert_eq).
  destruct (insert_one_unloggable self [] l r _ ps w e1 (TypeError "subscript") Hl eq_refl)
    as (w' & Hrun & Hh & Hout & _); [reflexivity|].
  exists w'. split; [apply insert_logs_first_raises, Hrun|]. split; [exact Hh|].
  rewrite Hout by lia. cbn [w heap].
  rewrite lookup_insert_ne by lia. apply lookup_insert_eq.
Qed.

(** C2 fails on the code.  With a non-empty batch and no result list
    ([None] or an empty list) [insert_logs] substitutes [None] for every
    response and then reads [result.points] of it: the first turn of the
    loop raises [AttributeError], nothing is written, and the first entry
    has already been annotated. *)
Theorem insert_logs_without_results_raises :
  forall self (l : nat) (ls : list nat) (e : LogEntry) (h : gmap nat LogEntry)
         (c : nat) (tr : list event),
    let w := {| heap := <[l := e]> h; clock := c; trace := tr |} in
    (exists w', insert_logs self (l :: ls) None w = (Raise (AttributeError "points"), w')
                /\ trace w' = tr
                /\ heap w' !! l = Some (annotated c e))
    /\ (exists w', insert_logs self (l :: ls) (Some []) w
                   = (Raise (AttributeError "points"), w')
                   /\ trace w' = tr
                   /\ heap w' !! l = Some (annotated c e)).
Proof.
  intros self l ls e h c tr w.
  assert (Hl : heap w !! l = Some e) by (cbn; apply lookup_insert_eq).
  destruct (insert_one_none self [] l w e Hl) as (w' & Hrun & Hh & Ht).
  split; exists w'; (split; [|split; [exact Ht|exact Hh]]);
    unfold insert_logs; cbn [length repeat zip zip_with insert_loop];
    unfold mbind at 1; unfold mbind at 1; rewrite Hrun; reflexivity.
Qed.

Lemma sim_sync_filter_ok : exists f, sim_sync_filter = Ok (inr f).
Proof. eexists. vm_compute. reflexivity. Qed.

(** A response with two points or more yields the edge to the second. *)
Lemma relink_one_second_point edges point p0 p1 ps :
  relink_one edges point {| points := p0 :: p1 :: ps |} =
    Ok (edges ++ [(record_id point, str_id (id p1), score_ p1)]).
Proof. reflexivity. Qed.

(** C9 fails on the code.  When the top-2 query of a scanned point
    returns exactly one point, the guard [len(result.points) > 0] passes
    and [result.points[1]] raises [IndexError]. *)
Theorem sync_similarty_single_point_raises :
  forall self (i : PointId) (d : list (string * PyVal)) (p : ScoredPoint),
    sync_similarty self [{| record_id := i; record_payload := Some d |}]
                   [{| points := [p] |}]
    = Raise (IndexError "list index out of range").
Proof.
  intros self i d p. unfold sync_similarty.
  destruct sim_sync_filter_ok as [f ->]. reflexivity.
Qed.

Lemma dict_get_set_eq k v d : dict_get k (dict_set k v d) = Some v.
Proof.
  induction d as [|[k' v'] d IH]; cbn.
  - rewrite String.eqb_refl. reflexivity.
  - destruct (String.eqb k' k) eqn:E; cbn; rewrite E; [reflexivity|exact IH].
Qed.

Lemma dict_get_set_ne k k' v d :
  k' <> k -> dict_get k' (dict_set k v d) = dict_get k' d.
Proof.
  intros Hne. induction d as [|[k0 v0] d IH]; cbn.
  - destruct (String.eqb_spec k k'); [congruence|reflexivity].
  - destruct (String.eqb_spec k0 k) as [->|Hk]; cbn.
    + destruct (String.eqb_spec k k'); [congruence|reflexivity].
    + destruct (String.eqb k0 k'); [reflexivity|exact IH].
Qed.

(** A turn annotates its entry before it looks at the response: whatever
    the response, and whether the turn returns or raises, the entry is
    left annotated. *)
Lemma insert_one_annotates self q l res w e :
  heap w !! l = Some e ->
  exists out w',
    insert_one self q l res w = (out, w')
    /\ heap w' !! l = Some (annotated (clock w) e).
Proof.
  intros Hl. unfold insert_one, mbind, get_time, mutate, read. cbn [heap clock trace].
  rewrite !lookup_alter_eq, Hl. cbn [fmap option_fmap option_map].
  assert (Hh : forall tr' : list event,
             heap {| heap := alter set_sim_sync l
                               (alter (set_insert_timestamp (isoformat (clock w))) l (heap w));
                     clock := S (clock w); trace := tr' |} !! l
             = Some (annotated (clock w) e)).
  { intros tr'. cbn [heap]. rewrite !lookup_alter_eq, Hl. reflexivity. }
  destruct res as [r|]; [|eexists _, _; split; [reflexivity|apply Hh]].
  destruct (points r) as [|p ps]; [eexists _, _; split; [reflexivity|apply Hh]|].
  unfold log_top_match.
  destruct (payload p) as [d|]; [|eexists _, _; split; [reflexivity|apply Hh]].
  destruct (get_or_empty d "text");
    try (eexists _, _; split; [reflexivity|apply Hh]);
    unfold ret; destruct (score_ge (score_ p) (insert_sim_threshold self));
    eexists _, _; (split; [reflexivity|apply Hh]).
Qed.

(** X15.  On a batch whose every entry has its response, and in which
    the "Top match" log line of every response can be formatted,
    [insert_logs] leaves every entry of the caller's batch, duplicates
    included, with the text it had, with [insert_timestamp] set to a
    clock reading taken during the call, with [metadata['sim_sync']] equal
    to [False] and with every other metadata key as it was; the id of the
    lookup record written for the entry is the hash of its text, a dash
    and the metadata so annotated.  The annotation comes before the
    response is looked at: a turn of the loop leaves its entry annotated
    whatever the response, also when it raises. *)
Theorem insert_logs_annotates_every_entry :
  forall self (ls : list nat) (es : list LogEntry) (rs : list QueryResponse) w,
    length rs = length ls ->
    Forall2 (fun l e => heap w !! l = Some e) ls es ->
    Forall loggable rs ->
    exists w' recs,
      insert_logs self ls (Some rs) w = (Ok tt, w')
      /\ trace w' = trace w ++ map LookupInsert recs
                     ++ match queue_of self ls rs with
                        | [] => []
                        | queue => [VectorInserts queue]
                        end
      /\ (forall (i : nat) l e,
            ls !! i = Some l -> es !! i = Some e ->
            exists t e' rec,
              (clock w <= t < clock w')%nat
              /\ heap w' !! l = Some e'
              /\ entry_text e' = entry_text e
              /\ entry_insert_timestamp e' = Some (isoformat t)
              /\ dict_get "sim_sync" (entry_metadata e') = Some (PBool false)
              /\ (forall k, k <> "sim_sync" ->
                    dict_get k (entry_metadata e') = dict_get k (entry_metadata e))
              /\ recs !! i = Some rec
              /\ log_id rec =
                   md5_hexdigest
                     (str.encode (entry_text e' +:+ "-"
                                  +:+ str_of_dict (entry_metadata e'))))
      /\ forall q l e (res : option QueryResponse) w0,
           heap w0 !! l = Some e ->
           exists out w1,
             insert_one self q l res w0 = (out, w1)
             /\ heap w1 !! l = Some (annotated (clock w0) e).
Proof.
  intros self ls es rs w Hlen Hes Hlog.
  destruct (insert_logs_spec self ls es rs w Hlen Hes Hlog) as (w' & Hrun & Htr & Hfin).
  exists w', (zip_with (decision self) es rs).
  split; [exact Hrun|]. split; [exact Htr|]. split.
  - intros i l e Hi He.
    destruct (Forall2_lookup_lr _ _ _ _ _ _ Hfin Hi He) as (t & Ht & Hh).
    assert (Hr : is_Some (rs !! i)).
    { apply lookup_lt_is_Some. rewrite Hlen. apply lookup_lt_is_Some. eauto. }
    destruct Hr as [r Hr].
    exists t, (annotated t e), (decision self e r).
    split; [exact Ht|]. split; [exact Hh|].
    split; [reflexivity|]. split; [reflexivity|].
    split; [apply dict_get_set_eq|].
    split; [intros k Hk; apply dict_get_set_ne, Hk|].
    split.
    + rewrite lookup_zip_with, He, Hr. reflexivity.
    + apply decision_log_id.
  - intros q l e res w0 Hl. apply insert_one_annotates, Hl.
Qed.
(** *** Partial batches, failures in mid-batch, and the relink loop *)




Lemma insert_loop_app self p1 : forall p2 q w,
  insert_loop self (p1 ++ p2) q w =
    match insert_loop self p1 q w with
    | (Ok q', w') => insert_loop self p2 q' w'
    | (Raise e, w') => (Raise e, w')
    end.
Proof.
  induction p1 as [|[l r] p1 IH]; intros p2 q w; cbn [app insert_loop].
  - reflexivity.
  - unfold mbind at 1 2. destruct (insert_one self q l r w) as [[q1|e] w1]; [apply IH|reflexivity].
Qed.

Lemma zip_app_same {A B} (l1 l1' : list A) (l2 l2' : list B) :
  length l2 = length l1 -> zip (l1 ++ l1') (l2 ++ l2') = zip l1 l2 ++ zip l1' l2'.
Proof.
  revert l2. induction l1 as [|a l1 IH]; intros [|b l2] H; try discriminate; cbn.
  - reflexivity.
  - f_equal. apply IH. cbn in H. lia.
Qed.

(** X12. A batch is not atomic.  When the response of one entry cannot
    be handled (here: its top point carries no payload), [insert_logs]
    raises at that entry; the lookup records of the entries before it
    stay written, the failing entry stays annotated, and [inserts] is
    never called, so the entries already decided to be canonical have a
    self-referencing lookup record but no point in the vector store. *)
Theorem insert_logs_failure_keeps_earlier_records :
  forall self (ls ls2 : list nat) (es : list LogEntry) (rs rs2 : list QueryResponse)
         (l : nat) (e : LogEntry) (r : QueryResponse) (p : ScoredPoint)
         (ps : list ScoredPoint) w,
    length rs = length ls ->
    Forall2 (fun l e => heap w !! l = Some e) ls es ->
    Forall loggable rs ->
    l ∉ ls -> heap w !! l = Some e ->
    points r = p :: ps -> payload p = None ->
    exists w',
      insert_logs self (ls ++ l :: ls2) (Some (rs ++ r :: rs2)) w
        = (Raise (AttributeError "get"), w')
      /\ trace w' = trace w ++ map LookupInsert (zip_with (decision self) es rs)
      /\ heap w' !! l = Some (annotated (clock w + length ls) e).
Proof.
  intros self ls ls2 es rs rs2 l e r p ps w Hlen Hes Hlog Hnin Hl Hp Hpay.
  destruct (insert_loop_spec self ls es rs [] w Hlen)
    as (w1 & Hrun & Htr & Hck & Hout & _).
  { eapply Forall2_impl; [exact Hes|]. intros l0 e0 Hl0. exists e0. split; [exact Hl0|reflexivity]. }
  { exact Hlog. }
  cbn [app] in Hrun.
  assert (Hl1 : heap w1 !! l = Some e) by (rewrite Hout by exact Hnin; exact Hl).
  assert (Hnil : rs ++ r :: rs2 <> []) by (destruct rs; discriminate).
  unfold insert_logs.
  destruct (rs ++ r :: rs2) as [|r0 rest] eqn:Ers; [congruence|]. rewrite <- Ers.
  rewrite map_app. cbn [map].
  rewrite zip_app_same by (rewrite length_map; exact Hlen).
  unfold mbind at 1. rewrite insert_loop_app, Hrun.
  cbn [zip zip_with insert_loop]. unfold mbind at 1.
  unfold insert_one, mbind, get_time, mutate, read. cbn [heap clock trace].
  rewrite !lookup_alter_eq, Hl1. cbn [fmap option_fmap option_map].
  rewrite Hp. unfold log_top_match. rewrite Hpay. unfold raise.
  eexists. split; [reflexivity|]. cbn [trace heap]. split; [exact Htr|].
  rewrite !lookup_alter_eq, Hl1, Hck. reflexivity.
Qed.

(** The edge the relink loop adds for one scanned point. *)
Lemma relink_loop_spec : forall pairs acc,
  (Forall (fun pr : Record_ * QueryResponse =>
             length (points (snd pr)) <> 1%nat) pairs ->
   relink_loop pairs acc =
     Ok (acc ++ flat_map (fun pr : Record_ * QueryResponse =>
                            match points (snd pr) with
                            | _ :: top_point :: _ =>
                                [(record_id (fst pr), str_id (id top_point), score_ top_point)]
                            | _ => []
                            end) pairs))
  /\ (Exists (fun pr : Record_ * QueryResponse =>
                length (points (snd pr)) = 1%nat) pairs ->
      relink_loop pairs acc = Raise (IndexError "list index out of range")).
Proof.
  induction pairs as [|[pt r] pairs IH]; intros acc.
  - split; [intros _; cbn; rewrite app_nil_r; reflexivity|intros H; inversion H].
  - cbn [relink_loop flat_map fst snd]. unfold relink_one.
    destruct (points r) as [|p0 [|p1 ps]] eqn:Hp; cbn [length andb bind].
    + destruct (IH acc) as [I1 I2]. split.
      * intros H. inversion H; subst. rewrite I1 by assumption. reflexivity.
      * intros H. inversion H as [? ? H1|? ? H1]; subst; [cbn in H1; rewrite Hp in H1; discriminate|].
        apply I2, H1.
    + split.
      * intros H. inversion H as [|? ? H1 _]; subst. cbn in H1. rewrite Hp in H1.
        exfalso. apply H1. reflexivity.
      * intros _. reflexivity.
    + destruct (IH (acc ++ [(record_id pt, str_id (id p1), score_ p1)])) as [I1 I2].
      change (0 <? Z.of_nat (S (S (length ps)))) with true. cbn [andb bind].
      split.
      * intros H. inversion H; subst. rewrite I1 by assumption.
        rewrite <- app_assoc. reflexivity.
      * intros H. inversion H as [? ? H1|? ? H1]; subst; [cbn in H1; rewrite Hp in H1; discriminate|].
        apply I2, H1.
Qed.

Lemma mapM_text_payload ps :
  Forall (fun p => record_payload p <> None) ps ->
  exists texts, mapM text_payload ps = Ok texts.
Proof.
  induction 1 as [|p ps Hp _ (texts & IH)]; [eexists; reflexivity|].
  change (mapM text_payload (p :: ps)) with
    (let* y := text_payload p in let* ys := mapM text_payload ps in Ok (y :: ys)).
  unfold text_payload at 1. destruct (record_payload p); [|congruence].
  rewrite IH. eexists. reflexivity.
Qed.

(** X13. The relink job on points that carry a payload: it returns
    exactly when no compared response holds a single point.  It then
    yields, in scan order, one edge per point whose response holds at
    least two points, to the second of them (the first being taken for
    the point itself), and none for an empty response; one response of
    exactly one point makes the whole job raise [IndexError]. *)
Theorem sync_similarty_edges :
  forall self (unsync_points : list Record_) (search_results : list QueryResponse),
    Forall (fun p => record_payload p <> None) unsync_points ->
    (Forall (fun pr : Record_ * QueryResponse => length (points (snd pr)) <> 1%nat)
            (zip unsync_points search_results) ->
     sync_similarty self unsync_points search_results =
       Ok (flat_map (fun pr : Record_ * QueryResponse =>
                       match points (snd pr) with
                       | _ :: top_point :: _ =>
                           [(record_id (fst pr), str_id (id top_point), score_ top_point)]
                       | _ => []
                       end) (zip unsync_points search_results)))
    /\ (Exists (fun pr : Record_ * QueryResponse => length (points (snd pr)) = 1%nat)
               (zip unsync_points search_results) ->
        sync_similarty self unsync_points search_results =
          Raise (IndexError "list index out of range")).
Proof.
  intros self ps rs Hpay. unfold sync_similarty.
  destruct sim_sync_filter_ok as [f ->].
  destruct (mapM_text_payload ps Hpay) as [texts ->]. cbn [bind].
  destruct (relink_loop_spec (zip ps rs) []) as [H1 H2]. split.
  - intros H. rewrite H1 by exact H. reflexivity.
  - exact H2.
Qed.

End Handler.
End log_ingestion_handler.

(** ** The end-to-end scenario of the specification

    Scores are rationals compared with [Qle_bool]; the two Python
    built-ins are stand-ins, since the pipeline only passes their results
    on.  Entry E2 sits at reference 0 and its nearest neighbour [h1]
    scores 0.97 against the threshold 0.9. *)
Section Scenario.
Import log_ingestion_handler.

Local Abbreviation str_of_dict' := (fun _ : list (string * PyVal) => "{}").
Local Abbreviation md5' := (fun _ : list Z => "h2").
Local Abbreviation ge' := (fun s t : Q => Qle_bool t s).
Local Abbreviation iso' := (fun _ : nat => "2026-01-19T12:34:56Z").
Local Abbreviation handler' :=
  {| insert_sim_threshold := (9 # 10)%Q; sim_sync_batch_size := 10 |}.
Local Abbreviation E2 :=
  {| entry_text := "disk full on node 7";
     entry_metadata := [("pod_name", PStr "api-0")];
     entry_insert_timestamp := None |}.
Local Abbreviation near :=
  {| points := [{| id := IdStr "h1"; score_ := (97 # 100)%Q;
                   payload := Some [("pod_name", PStr "api-1")] |}] |}.
Local Abbreviation w0 :=
  {| heap := {[ 0%nat := E2 ]}; clock := 0; trace := [] |}.

Lemma scenario_loggable : Forall (loggable Q) [near].
Proof.
  constructor; [|constructor].
  exists [("pod_name", PStr "api-1")]. split; [reflexivity|exact I].
Defined.

Lemma scenario_present :
  Forall2 (fun (l : nat) (e : LogEntry) => heap Q w0 !! l = Some e) [0%nat] [E2].
Proof. constructor; [reflexivity|constructor]. Defined.

Lemma insert_logs_decides_each_entry_witness :
  exists w',
    insert_logs str_of_dict' md5' Q ge' 1%Q iso' handler' [0%nat] (Some [near]) w0
      = (Ok tt, w')
    /\ trace Q w' =
         [LookupInsert Q {| log_id := "h2"; closest_log_id := "h1";
                            similarity := (97 # 100)%Q;
                            timestamp := PStr ""; location := PStr "api-0" |}].
Proof.
  destruct (insert_logs_decides_each_entry
              str_of_dict' md5' Q ge' 1%Q iso' handler' [0%nat] [E2] [near] w0
              eq_refl scenario_present scenario_loggable)
    as (w' & Hrun & Htr & _).
  exists w'. split; [exact Hrun|exact Htr].
Defined.

Lemma insert_logs_annotates_every_entry_witness :
  exists w' e',
    insert_logs str_of_dict' md5' Q ge' 1%Q iso' handler' [0%nat] (Some [near]) w0
      = (Ok tt, w')
    /\ heap Q w' !! 0%nat = Some e'
    /\ entry_text e' = "disk full on node 7"
    /\ dict_get "sim_sync" (entry_metadata e') = Some (PBool false)
    /\ dict_get "pod_name" (entry_metadata e') = Some (PStr "api-0").
Proof.
  destruct (insert_logs_annotates_every_entry
              str_of_dict' md5' Q ge' 1%Q iso' handler' [0%nat] [E2] [near] w0
              eq_refl scenario_present scenario_loggable)
    as (w' & recs & Hrun & _ & Hfin & _).
  destruct (Hfin 0%nat 0%nat E2 eq_refl eq_refl)
    as (t & e' & rec & _ & Hh & Htx & _ & Hs & Hk & _).
  exists w', e'. split; [exact Hrun|]. split; [exact Hh|].
  split; [exact Htx|]. split; [exact Hs|].
  rewrite Hk by discriminate. reflexivity.
Defined.

End Scenario.
(** ** Scenarios for partial batches and the relink job

    The same stand-ins as above.  Entry E2 at reference 0 is answered by
    [h1]; reference 1 holds a second entry whose response, when there is
    one, has a top point without payload. *)
Section PartialBatches.
Import log_ingestion_handler.

Local Abbreviation str_of_dict' := (fun _ : list (string * PyVal) => "{}").
Local Abbreviation md5' := (fun _ : list Z => "h2").
Local Abbreviation ge' := (fun s t : Q => Qle_bool t s).
Local Abbreviation iso' := (fun _ : nat => "2026-01-19T12:34:56Z").
Local Abbreviation handler' :=
  {| insert_sim_threshold := (9 # 10)%Q; sim_sync_batch_size := 10 |}.
Local Abbreviation E2 :=
  {| entry_text := "disk full on node 7";
     entry_metadata := [("pod_name", PStr "api-0")];
     entry_insert_timestamp := None |}.
Local Abbreviation E3 :=
  {| entry_text := "disk full on node 8";
     entry_metadata := [("pod_name", PStr "api-2")];
     entry_insert_timestamp := None |}.
Local Abbreviation near :=
  {| points := [{| id := IdStr "h1"; score_ := (97 # 100)%Q;
                   payload := Some [("pod_name", PStr "api-1")] |}] |}.
Local Abbreviation bare :=
  {| id := IdStr "h9"; score_ := (50 # 100)%Q; payload := None |}.
Local Abbreviation w2 :=
  {| heap := {[ 0%nat := E2; 1%nat := E3 ]}; clock := 0; trace := [] |}.

Lemma partial_present :
  Forall2 (fun (l : nat) (e : LogEntry) => heap Q w2 !! l = Some e) [0%nat] [E2].
Proof. constructor; [reflexivity|constructor]. Defined.


Lemma partial_fresh : 1%nat ∉ [0%nat].
Proof. intros H. apply list_elem_of_In in H. destruct H as [H|[]]. discriminate H. Defined.


Lemma insert_logs_failure_keeps_earlier_records_witness :
  exists w',
    insert_logs str_of_dict' md5' Q ge' 1%Q iso' handler' ([0%nat] ++ [1%nat])
                (Some ([near] ++ [{| points := [bare] |}])) w2
      = (Raise (AttributeError "get"), w')
    /\ trace Q w' =
         [LookupInsert Q {| log_id := "h2"; closest_log_id := "h1";
                            similarity := (97 # 100)%Q;
                            timestamp := PStr ""; location := PStr "api-0" |}].
Proof.
  destruct (insert_logs_failure_keeps_earlier_records
              str_of_dict' md5' Q ge' 1%Q iso' handler' [0%nat] [] [E2] [near] []
              1%nat E3 {| points := [bare] |} bare [] w2
              eq_refl partial_present scenario_loggable partial_fresh
              eq_refl eq_refl eq_refl)
    as (w' & Hrun & Htr & _).
  exists w'. split; [exact Hrun|exact Htr].
Defined.

Local Abbreviation accept := (fun _ : PyVal => true).
Local Abbreviation pt1 := {| record_id := IdStr "a"; record_payload := Some [] |}.
Local Abbreviation pt2 := {| record_id := IdStr "b"; record_payload := Some [] |}.
Local Abbreviation twin :=
  {| id := IdStr "a2"; score_ := (80 # 100)%Q; payload := Some [] |}.
Local Abbreviation self_match :=
  {| id := IdStr "a"; score_ := 1%Q; payload := Some [] |}.

Lemma relink_payloads :
  Forall (fun p : Record_ => record_payload p <> None) [pt1; pt2].
Proof. repeat constructor; discriminate. Defined.

Lemma relink_no_single :
  Forall (fun pr : Record_ * QueryResponse Q => length (points Q (snd pr)) <> 1%nat)
         (zip [pt1; pt2] [{| points := [self_match; twin] |}; {| points := [] |}]).
Proof. repeat constructor; discriminate. Defined.

Lemma sync_similarty_edges_witness :
  sync_similarty Q accept accept handler' [pt1; pt2]
                 [{| points := [self_match; twin] |}; {| points := [] |}]
    = Ok [(IdStr "a", "a2", (80 # 100)%Q)].
Proof.
  destruct (sync_similarty_edges Q accept accept handler' [pt1; pt2]
              [{| points := [self_match; twin] |}; {| points := [] |}] relink_payloads)
    as [H _].
  exact (H relink_no_single).
Defined.

End PartialBatches.

(** * Properties *)

(** ** Construction of the fingerprinter *)
Section Construction.
Import minhash.

Lemma init_ok_inv ss nh b sd n l c ssl e :
  __init__ ss nh b sd n l c ssl = Ok e ->
  0 < ss /\ 0 < nh /\ 0 < b /\ nh mod b = 0 /\
  shingle_size e = ss /\ num_hashes e = nh /\ bands e = b /\
  normalize_enabled e = n /\ lowercase e = l /\ collapse_whitespace e = c /\
  stop_short_lines e = ssl /\
  _prime e = 4294967311 /\ _max_hash e = 4294967295 /\
  _a e = fst (_make_hash_params nh sd) /\ _b e = snd (_make_hash_params nh sd).
Proof.
  unfold __init__.
  destruct (Z.leb_spec ss 0); [discriminate|].
  destruct (Z.leb_spec nh 0); [discriminate|].
  destruct (Z.leb_spec b 0); [discriminate|].
  destruct (Z.eqb_spec (nh mod b) 0); [|discriminate].
  cbn [orb negb].
  destruct (_make_hash_params nh sd) as [a' b'] eqn:Hp.
  intros [= <-]. cbn. repeat split; auto; lia.
Qed.

(** C6.  [__init__] raises its [ValueError] (the spec's
    ConfigurationError) exactly when [shingle_size <= 0], [num_hashes <= 0],
    [bands <= 0] or [bands] does not divide [num_hashes]; it returns an
    embedder exactly when none of these holds; and [num_hashes = 100] with
    [bands = 7] is rejected. *)
Theorem init_fails_iff_invalid :
  forall ss nh b sd n l c ssl,
    (is_value_error (__init__ ss nh b sd n l c ssl) = true
       <-> (ss <= 0 \/ nh <= 0 \/ b <= 0 \/ ~ (b | nh)))
    /\ (is_ok (__init__ ss nh b sd n l c ssl) = true
       <-> (0 < ss /\ 0 < nh /\ 0 < b /\ (b | nh)))
    /\ is_value_error (__init__ ss 100 7 sd n l c ssl) = true.
Proof.
  intros ss nh b sd n l c ssl.
  assert (Hdiv : 0 < b -> (nh mod b = 0 <-> (b | nh))).
  { intros Hb. apply Z.mod_divide. lia. }
  split; [|split];
    [| |unfold __init__; destruct (ss <=? 0); reflexivity]; unfold __init__;
    destruct (Z.leb_spec ss 0) as [Hss|Hss];
    destruct (Z.leb_spec nh 0) as [Hnh|Hnh];
    destruct (Z.leb_spec b 0) as [Hb|Hb];
    destruct (Z.eqb_spec (nh mod b) 0) as [Hm|Hm];
    destruct (_make_hash_params nh sd); cbn;
    try (pose proof (Hdiv Hb) as Hd); intuition (try discriminate; try lia).
Qed.

End Construction.

(** ** Exact Jaccard *)
Section Jaccard.
Import minhash.

Lemma pos_of_size (n : nat) : (n <> 0)%nat -> Z.pos (Pos.of_nat n) = Z.of_nat n.
Proof.
  intros Hn. rewrite <- (positive_nat_Z (Pos.of_nat n)).
  rewrite Nat2Pos.id; auto.
Qed.

Lemma size_nonempty (A : gset Z) : A <> ∅ -> (size A <> 0)%nat.
Proof. intros HA Hs. apply HA. apply size_empty_inv in Hs. set_solver. Qed.

Lemma jaccard_nonempty (A B : gset Z) :
  A <> ∅ -> B <> ∅ ->
  jaccard A B = (Z.of_nat (size (A ∩ B)) # Pos.of_nat (size (A ∪ B)))%Q.
Proof.
  intros HA HB. unfold jaccard.
  rewrite !bool_decide_eq_false_2 by assumption. reflexivity.
Qed.

(** C7.  [jaccard] is [1] on two empty sets, [0] when exactly one set is
    empty, and the quotient of the intersection size by the union size
    otherwise; it lies between [0] and [1], and a set compared with itself
    gives [1]. *)
Theorem jaccard_spec :
  forall A B : gset Z,
    (A = ∅ -> B = ∅ -> jaccard A B = 1%Q)
    /\ ((A = ∅ /\ B <> ∅) \/ (A <> ∅ /\ B = ∅) -> jaccard A B = 0%Q)
    /\ (A <> ∅ -> B <> ∅ ->
        jaccard A B = (Z.of_nat (size (A ∩ B)) # Pos.of_nat (size (A ∪ B)))%Q)
    /\ (0 <= jaccard A B)%Q /\ (jaccard A B <= 1)%Q
    /\ (jaccard A A == 1)%Q.
Proof.
  intros A B. split; [|split; [|split; [|split; [|split]]]].
  - intros -> ->. reflexivity.
  - unfold jaccard. intros [[-> HB]|[HA ->]].
    + rewrite (bool_decide_eq_false_2 _ HB). reflexivity.
    + rewrite (bool_decide_eq_false_2 _ HA). reflexivity.
  - apply jaccard_nonempty.
  - unfold jaccard.
    destruct (bool_decide (A = ∅)), (bool_decide (B = ∅)); cbn; try discriminate.
    unfold Qle. cbn. lia.
  - unfold jaccard.
    destruct (bool_decide (A = ∅)) eqn:HA, (bool_decide (B = ∅)) eqn:HB; cbn [andb orb];
      try (unfold Qle; cbn; lia).
    apply bool_decide_eq_false in HA.
    assert (Hu : A ∪ B <> ∅) by set_solver.
    unfold Qle. cbn [Qnum Qden]. rewrite pos_of_size by (apply size_nonempty; exact Hu).
    assert ((size (A ∩ B) <= size (A ∪ B))%nat) by (apply subseteq_size; set_solver).
    lia.
  - unfold jaccard.
    destruct (bool_decide (A = ∅)) eqn:HA; cbn [andb orb]; [reflexivity|].
    apply bool_decide_eq_false in HA.
    assert (Hi : A ∩ A = A) by set_solver.
    assert (Hu : A ∪ A = A) by set_solver.
    rewrite Hi, Hu. unfold Qeq. cbn [Qnum Qden].
    rewrite pos_of_size by (apply size_nonempty; exact HA). lia.
Qed.

Lemma jaccard_spec_witness :
  ({[1; 2]} : gset Z) <> ∅ /\ ({[2; 3]} : gset Z) <> ∅
  /\ jaccard {[1; 2]} {[2; 3]}
     = Qmake (Z.of_nat (size (({[1; 2]} : gset Z) ∩ {[2; 3]})))
             (Pos.of_nat (size (({[1; 2]} : gset Z) ∪ {[2; 3]}))).
Proof.
  assert (H1 : ({[1; 2]} : gset Z) <> ∅) by (apply (bool_decide_eq_false_1 _); vm_compute; reflexivity).
  assert (H2 : ({[2; 3]} : gset Z) <> ∅) by (apply (bool_decide_eq_false_1 _); vm_compute; reflexivity).
  split; [exact H1|split; [exact H2|]].
  destruct (jaccard_spec {[1; 2]} {[2; 3]}) as (_ & _ & H & _).
  exact (H H1 H2).
Defined.

End Jaccard.

(** ** The normalizer *)
Section Normalizer.
Import re minhash.

Lemma to_lower_not_upper a : is_upper (to_lower a) = false.
Proof. destruct a as [[] [] [] [] [] [] [] []]; vm_compute; reflexivity. Qed.

Lemma to_lower_id a : is_upper a = false -> to_lower a = a.
Proof. unfold to_lower. intros ->. reflexivity. Qed.

Lemma lower_no_upper s : no_upper (str.lower s).
Proof.
  induction s as [|a s IH]; cbn; constructor; auto using to_lower_not_upper.
Qed.

Lemma lower_id s : no_upper s -> str.lower s = s.
Proof.
  induction 1 as [|a s Ha _ IH]; cbn; [reflexivity|].
  rewrite to_lower_id by assumption. f_equal. exact IH.
Qed.

Lemma no_upper_app s t : no_upper s -> no_upper t -> no_upper (s ++ t).
Proof. apply Forall_app_2. Qed.

Lemma no_upper_firstn n s : no_upper s -> no_upper (firstn n s).
Proof. intros H. apply Forall_take. exact H. Qed.

Lemma tidy_step a tl b g :
  tidy (Cursor b (a :: tl) g) -> tidy (Cursor (Some a) tl g).
Proof.
  intros [Ha Hg]. split; [|exact Hg]. cbn in *. inversion Ha; assumption.
Qed.

Lemma tidy_capture i c0 c1 : tidy c0 -> tidy c1 -> tidy (capture i c0 c1).
Proof.
  intros [H0 _] [H1 G1]. split; cbn; [exact H1|].
  constructor; [|exact G1]. cbn. apply no_upper_firstn, H0.
Qed.

Lemma rep_loop_tidy body lo hi k :
  (forall c k' c', tidy c ->
     (forall c1 c2, tidy c1 -> k' c1 = Some c2 -> tidy c2) ->
     body c k' = Some c' -> tidy c') ->
  (forall c1 c2, tidy c1 -> k c1 = Some c2 -> tidy c2) ->
  forall fuel n c c', tidy c -> rep_loop body lo hi k fuel n c = Some c' -> tidy c'.
Proof.
  intros Hbody Hk. induction fuel as [|fuel IHf]; intros n c c' Hc; cbn [rep_loop].
  - destruct (lo <=? n)%nat; [apply Hk, Hc|discriminate].
  - destruct (under hi n).
    + match goal with
      | |- context [body c ?kk] => destruct (body c kk) eqn:E1
      end.
      * intros [= <-]. eapply Hbody; [exact Hc| |exact E1].
        intros c1 c2 H1. cbn beta.
        destruct (length (ahead c1) <? length (ahead c))%nat; [|discriminate].
        apply IHf, H1.
      * destruct (lo <=? n)%nat; [apply Hk, Hc|discriminate].
    + destruct (lo <=? n)%nat; [apply Hk, Hc|discriminate].
Qed.

(** A match started on text without capitals ends on such text, and so
    do the groups it captured. *)
Lemma run_tidy r :
  forall c k c',
    tidy c ->
    (forall c1 c2, tidy c1 -> k c1 = Some c2 -> tidy c2) ->
    run r c k = Some c' -> tidy c'.
Proof.
  induction r as [|p|p|r1 IH1 r2 IH2|r1 IH1 r2 IH2|r1 IH1 lo hi| |r1 IH1|i r1 IH1|];
    intros c k c' Hc Hk; cbn [run].
  - apply Hk, Hc.
  - destruct c as [b [|a tl] g]; cbn; [discriminate|].
    destruct (p a); [|discriminate]. apply Hk. eapply tidy_step, Hc.
  - destruct c as [b [|a tl] g]; cbn; [discriminate|].
    destruct (p a); [discriminate|]. apply Hk. eapply tidy_step, Hc.
  - apply IH1; [exact Hc|]. intros c1 c2 H1. apply IH2; assumption.
  - destruct (run r1 c k) eqn:E1.
    + intros [= <-]. eapply IH1; eassumption.
    + apply IH2; assumption.
  - apply rep_loop_tidy; assumption.
  - destruct (at_boundary c); [apply Hk, Hc|discriminate].
  - destruct (run r1 c Some); [apply Hk, Hc|discriminate].
  - apply IH1; [exact Hc|]. intros c1 c2 H1. apply Hk. apply tidy_capture; assumption.
  - destruct (ahead c) as [|a [|? ?]]; try discriminate.
    + apply Hk, Hc.
    + destruct (Ascii.eqb a "010"); [apply Hk, Hc|discriminate].
Qed.

(** [sub] keeps text free of capitals when the replacement does. *)
Lemma sub_from_no_upper r repl :
  (forall c, tidy c -> no_upper (repl c)) ->
  forall s skip prev, no_upper s -> no_upper (sub_from r repl skip prev s).
Proof.
  intros Hrepl. induction s as [|a tl IH]; intros skip prev Hs; cbn [sub_from].
  - constructor.
  - assert (Htl : no_upper tl) by (inversion Hs; assumption).
    assert (Ha : is_upper a = false) by (inversion Hs; assumption).
    destruct skip as [|n]; [|apply IH, Htl].
    destruct (run r (Cursor prev (a :: tl) []) Some) as [c'|] eqn:E.
    + assert (Hc' : tidy c').
      { eapply run_tidy; [| |exact E].
        - split; [exact Hs|constructor].
        - intros c1 c2 H1 [= <-]. exact H1. }
      destruct (length (a :: tl) - length (ahead c'))%nat.
      * constructor; [exact Ha|apply IH, Htl].
      * apply no_upper_app; [apply Hrepl, Hc'|apply IH, Htl].
    + constructor; [exact Ha|apply IH, Htl].
Qed.

Lemma group_no_upper i c : tidy c -> no_upper (group i c).
Proof.
  intros [_ Hg]. unfold group.
  destruct (find _ (groups c)) as [g|] eqn:E; [|constructor].
  apply find_some in E. destruct E as [Hin _].
  rewrite Forall_forall in Hg. apply Hg. apply list_elem_of_In. exact Hin.
Qed.

Lemma const_no_upper s c :
  forallb (fun a => negb (is_upper a)) (list_ascii_of_string s) = true ->
  no_upper (const s c).
Proof.
  intros H. unfold const, no_upper. rewrite forallb_forall in H.
  apply Forall_forall. intros a Ha. apply list_elem_of_In in Ha.
  apply H in Ha. destruct (is_upper a); [discriminate|reflexivity].
Qed.

Lemma masks_no_upper :
  Forall (fun m => forall c, tidy c -> no_upper (snd m c)) masks.
Proof.
  unfold masks.
  repeat (constructor;
          [cbn [snd]; intros c Hc;
           first [apply const_no_upper; reflexivity
                 |unfold _mask_kv; repeat apply no_upper_app;
                  [apply group_no_upper, Hc|apply group_no_upper, Hc
                  |apply (const_no_upper "<id>" c); reflexivity]]|]).
  constructor.
Qed.

(** Masking text without capitals gives text without capitals. *)
Lemma mask_no_upper s : no_upper s -> no_upper (mask s).
Proof.
  unfold mask. generalize masks_no_upper. generalize masks as ms.
  intros ms Hms. revert s. induction Hms as [|m ms Hm _ IH]; intros s Hs; cbn.
  - exact Hs.
  - apply IH. unfold sub. apply sub_from_no_upper; assumption.
Qed.

(** The embedder built with the defaults of the handler's docstring. *)
Lemma default_embedder :
  exists self, __init__ 5 128 32 42 true true true 0 = Ok self
               /\ lowercase self = true /\ normalize_enabled self = true
               /\ collapse_whitespace self = true.
Proof.
  unfold __init__. cbn [Z.leb Z.compare orb negb].
  destruct (_make_hash_params 128 42) as [a b]. eexists. split; [reflexivity|].
  cbn. auto.
Qed.

(** The same embedder with [lowercase=False]. *)
Lemma case_preserving_embedder :
  exists self, __init__ 5 128 32 42 true false true 0 = Ok self
               /\ lowercase self = false /\ normalize_enabled self = true
               /\ collapse_whitespace self = true.
Proof.
  unfold __init__. cbn [Z.leb Z.compare orb negb].
  destruct (_make_hash_params 128 42) as [a b]. eexists. split; [reflexivity|].
  cbn. auto.
Qed.

(** [RE_JWT] asks for the capital [J] of ["eyJ"]: on text without
    capitals it matches at no position. *)
Lemma jwt_no_match prev s g k :
  no_upper s -> run RE_JWT (Cursor prev s g) k = None.
Proof.
  intros Hs. unfold RE_JWT, lit.
  cbn [seqs list_ascii_of_string lit_chars]. cbn [run].
  destruct (at_boundary (Cursor prev s g)); [|reflexivity].
  cbn [ahead groups].
  destruct s as [|a1 [|a2 [|a3 tl]]]; try reflexivity.
  - destruct (Ascii.eqb "e" a1); reflexivity.
  - destruct (Ascii.eqb "e" a1); [|reflexivity]. cbn [ahead groups].
    destruct (Ascii.eqb "y" a2); reflexivity.
  - destruct (Ascii.eqb "e" a1); [|reflexivity]. cbn [ahead groups].
    destruct (Ascii.eqb "y" a2); [|reflexivity]. cbn [ahead groups].
    destruct (Ascii.eqb_spec "J" a3) as [<-|_]; [|reflexivity].
    inversion Hs as [|? ? _ H2]; subst. inversion H2 as [|? ? _ H3]; subst.
    inversion H3 as [|? ? HJ _]; subst. vm_compute in HJ. discriminate.
Qed.

Lemma sub_jwt_fixed repl : forall s prev,
  no_upper s -> sub_from RE_JWT repl 0 prev s = s.
Proof.
  induction s as [|a tl IH]; intros prev Hs; [reflexivity|].
  cbn [sub_from]. rewrite jwt_no_match by exact Hs.
  inversion Hs; subst. rewrite IH by assumption. reflexivity.
Qed.

(** C3 fails on the code.  [_preprocess] lowercases before it masks, so
    the one case-sensitive mask, [RE_JWT], never fires when [lowercase]
    is on: its substitution leaves every lowercased text as it is.  A
    JWT-shaped token is masked as ["<url>"] by the embedder that keeps
    the case and by the masks-first order of the specification, and
    comes out of the default embedder unmasked. *)
Theorem preprocess_lowercase_disables_jwt_mask :
  (forall (repl : cursor -> list ascii) (s : list ascii),
      sub RE_JWT repl (str.lower s) = str.lower s)
  /\ (exists self,
        __init__ 5 128 32 42 true true true 0 = Ok self
        /\ _preprocess self "eyJabcdefghijk.abcdefghijk.abcdefghijk"
           = "eyjabcdefghijk.abcdefghijk.abcdefghijk"
        /\ normalize_masks_first self "eyJabcdefghijk.abcdefghijk.abcdefghijk" = "<url>")
  /\ (exists self,
        __init__ 5 128 32 42 true false true 0 = Ok self
        /\ _preprocess self "eyJabcdefghijk.abcdefghijk.abcdefghijk" = "<url>").
Proof.
  split; [|split].
  - intros repl s. unfold sub. apply sub_jwt_fixed, lower_no_upper.
  - destruct default_embedder as (self & Hi & Hl & Hn & Hc).
    exists self. split; [exact Hi|].
    unfold _preprocess, normalize_masks_first. rewrite Hl, Hn, Hc.
    split; vm_compute; reflexivity.
  - destruct case_preserving_embedder as (self & Hi & Hl & Hn & Hc).
    exists self. split; [exact Hi|].
    unfold _preprocess. rewrite Hl, Hn, Hc. vm_compute. reflexivity.
Qed.

(** C4 fails on the code: normalizing ["1234567890_1 5"] masks the
    number, and that placeholder supplies the letter that the unanchored
    lookahead of [RE_LONG_ALNUM] needs to mask the first token on a second
    pass. *)
Theorem preprocess_not_idempotent :
  exists self,
    __init__ 5 128 32 42 true true true 0 = Ok self
    /\ _preprocess self "1234567890_1 5" = "1234567890_1 <id>"
    /\ _preprocess self (_preprocess self "1234567890_1 5") = "<id> <id>".
Proof.
  destruct default_embedder as (self & Hi & Hl & Hn & Hc).
  exists self. split; [exact Hi|].
  unfold _preprocess. rewrite Hl, Hn, Hc.
  split; vm_compute; reflexivity.
Qed.

End Normalizer.

(** ** The MinHash signature *)
Section Signature.
Import minhash.

Lemma update_slot_length self x sig i :
  length (update_slot self x sig i) = length sig.
Proof.
  unfold update_slot. destruct (hx self x i <? nth i sig 0); [apply length_insert|reflexivity].
Qed.

Lemma update_slot_nth self x sig i j :
  (i < length sig)%nat ->
  nth j (update_slot self x sig i) 0 =
    if Nat.eqb j i then Z.min (nth i sig 0) (hx self x i) else nth j sig 0.
Proof.
  intros Hi. unfold update_slot.
  destruct (Z.ltb_spec (hx self x i) (nth i sig 0)) as [Hlt|Hge].
  - rewrite nth_lookup. destruct (Nat.eqb_spec j i) as [->|Hne].
    + rewrite list_lookup_insert_eq by exact Hi. cbn. lia.
    + rewrite list_lookup_insert_ne by congruence. rewrite <- nth_lookup. reflexivity.
  - destruct (Nat.eqb_spec j i) as [->|Hne]; [lia|reflexivity].
Qed.

(** After the slots [0 .. m-1] have been visited for shingle [x]. *)
Lemma update_prefix self x m :
  forall sig, (m <= length sig)%nat ->
    length (fold_left (update_slot self x) (seq 0 m) sig) = length sig
    /\ forall j, nth j (fold_left (update_slot self x) (seq 0 m) sig) 0 =
                 if (j <? m)%nat then Z.min (nth j sig 0) (hx self x j) else nth j sig 0.
Proof.
  induction m as [|m IH]; intros sig Hm.
  - cbn. split; [reflexivity|]. intros j. reflexivity.
  - rewrite seq_S, fold_left_app. cbn [fold_left Nat.add].
    destruct (IH sig) as [Hlen Hnth]; [lia|].
    split.
    + rewrite update_slot_length. exact Hlen.
    + intros j. rewrite update_slot_nth by lia. rewrite !Hnth.
      destruct (Nat.eqb_spec j m) as [->|Hne].
      * rewrite Nat.ltb_irrefl.
        destruct (Nat.ltb_spec m (S m)); [reflexivity|lia].
      * destruct (Nat.ltb_spec j m), (Nat.ltb_spec j (S m)); try reflexivity; lia.
Qed.

Lemma update_all_spec self sig x :
  length sig = Z.to_nat (num_hashes self) ->
  length (update_all self sig x) = length sig
  /\ forall j, (j < length sig)%nat ->
       nth j (update_all self sig x) 0 = Z.min (nth j sig 0) (hx self x j).
Proof.
  intros Hlen. unfold update_all. rewrite <- Hlen.
  destruct (update_prefix self x (length sig) sig) as [Hl Hn]; [lia|].
  split; [exact Hl|]. intros j Hj. rewrite Hn.
  destruct (Nat.ltb_spec j (length sig)); [reflexivity|lia].
Qed.

Lemma fold_update_all self xs :
  forall sig, length sig = Z.to_nat (num_hashes self) ->
    length (fold_left (update_all self) xs sig) = length sig
    /\ forall j, (j < length sig)%nat ->
         nth j (fold_left (update_all self) xs sig) 0 =
           fold_left Z.min (map (fun x => hx self x j) xs) (nth j sig 0).
Proof.
  induction xs as [|x xs IH]; intros sig Hlen; cbn [fold_left map].
  - split; reflexivity.
  - destruct (update_all_spec self sig x Hlen) as [Hl Hn].
    destruct (IH (update_all self sig x)) as [Hl' Hn']; [congruence|].
    split; [congruence|]. intros j Hj.
    rewrite Hn' by lia. rewrite Hn by exact Hj. reflexivity.
Qed.

Lemma fold_min_le l : forall m, fold_left Z.min l m <= m.
Proof.
  induction l as [|a l IH]; intros m; cbn; [lia|].
  specialize (IH (Z.min m a)). lia.
Qed.

Lemma fold_min_lower l lo : forall m, lo <= m -> Forall (fun a => lo <= a) l ->
  lo <= fold_left Z.min l m.
Proof.
  induction l as [|a l IH]; intros m Hm Hl; cbn; [exact Hm|].
  inversion Hl; subst. apply IH; [lia|assumption].
Qed.

Lemma fold_min_eq l : forall m, fold_left Z.min l m = m <-> Forall (fun a => m <= a) l.
Proof.
  induction l as [|a l IH]; intros m; cbn.
  - split; [constructor|reflexivity].
  - split.
    + intros H. pose proof (fold_min_le l (Z.min m a)) as Hle.
      assert (Hma : m <= a) by lia.
      constructor; [exact Hma|]. apply IH. rewrite Z.min_l in H by exact Hma. exact H.
    + intros H. inversion H; subst. rewrite Z.min_l by assumption. apply IH. assumption.
Qed.

Lemma nth_repeat_lt (v : Z) n j : (j < n)%nat -> nth j (repeat v n) 0 = v.
Proof.
  revert j. induction n as [|n IH]; intros j Hj; [lia|].
  destruct j as [|j]; cbn; [reflexivity|]. apply IH. lia.
Qed.

Lemma list_eq_nth (l1 l2 : list Z) :
  length l1 = length l2 ->
  (forall j, (j < length l1)%nat -> nth j l1 0 = nth j l2 0) -> l1 = l2.
Proof.
  intros Hlen Hn. apply (nth_ext l1 l2 0 0 Hlen). exact Hn.
Qed.

Lemma land_max_id v : 0 <= v <= 4294967295 -> Z.land v 4294967295 = v.
Proof.
  intros Hv. change 4294967295 with (Z.ones 32).
  rewrite Z.land_ones by lia. apply Z.mod_small.
  change (2 ^ 32) with 4294967296. change (Z.ones 32) with 4294967295 in Hv. lia.
Qed.

(** The slots of the signature of a non-empty shingle set: the least of
    the sentinel and the hash values of the slot. *)
Lemma minhash_signature_slots self (shingles : gset Z) :
  _prime self = 4294967311 -> _max_hash self = 4294967295 ->
  shingles <> ∅ ->
  length (_minhash_signature self shingles) = Z.to_nat (num_hashes self)
  /\ forall j, (j < Z.to_nat (num_hashes self))%nat ->
       nth j (_minhash_signature self shingles) 0 =
         fold_left Z.min (map (fun x => hx self x j) (elements shingles)) (_max_hash self).
Proof.
  intros Hp Hm Hne. unfold _minhash_signature.
  rewrite bool_decide_eq_false_2 by exact Hne.
  assert (Hsl : length (sentinel self) = Z.to_nat (num_hashes self))
    by (unfold sentinel; apply repeat_length).
  destruct (fold_update_all self (elements shingles) (sentinel self) Hsl) as [Hl Hn].
  split.
  - rewrite length_map. congruence.
  - intros j Hj.
    assert (Hnth : nth j (fold_left (update_all self) (elements shingles) (sentinel self)) 0
                   = fold_left Z.min (map (fun x => hx self x j) (elements shingles))
                               (_max_hash self)).
    { rewrite Hn by lia. unfold sentinel. rewrite nth_repeat_lt by exact Hj. reflexivity. }
    rewrite <- Hnth.
    rewrite (nth_indep _ 0 (Z.land 0 (_max_hash self))) by (rewrite length_map; lia).
    rewrite (map_nth (fun v => Z.land v (_max_hash self))).
    rewrite Hm. apply land_max_id. rewrite Hnth, Hm. split.
    + apply fold_min_lower; [lia|]. apply Forall_forall. intros a Ha.
      apply list_elem_of_In, in_map_iff in Ha. destruct Ha as (x & <- & _).
      unfold hx. rewrite Hp. apply Z.mod_pos_bound. lia.
    + apply fold_min_le.
Qed.

Lemma minhash_signature_sentinel_iff self (shingles : gset Z) :
  _prime self = 4294967311 -> _max_hash self = 4294967295 ->
  (_minhash_signature self shingles = sentinel self
   <-> forall x i, x ∈ shingles -> (i < Z.to_nat (num_hashes self))%nat ->
                   _max_hash self <= hx self x i).
Proof.
  intros Hp Hm.
  destruct (decide (shingles = ∅)) as [->|Hne].
  - unfold _minhash_signature. rewrite bool_decide_eq_true_2 by reflexivity.
    split; [|reflexivity]. intros _ x i Hx. set_solver.
  - destruct (minhash_signature_slots self shingles Hp Hm Hne) as [Hl Hn].
    split.
    + intros Heq x i Hx Hi.
      specialize (Hn i Hi). rewrite Heq in Hn. unfold sentinel in Hn.
      rewrite nth_repeat_lt in Hn by exact Hi. symmetry in Hn.
      apply fold_min_eq in Hn. rewrite Forall_forall in Hn. apply Hn.
      apply list_elem_of_In, in_map_iff. exists x. split; [reflexivity|].
      apply list_elem_of_In, elem_of_elements, Hx.
    + intros Hall. apply list_eq_nth.
      * rewrite Hl. unfold sentinel. rewrite repeat_length. reflexivity.
      * intros j Hj. rewrite Hl in Hj. rewrite Hn by exact Hj.
        unfold sentinel. rewrite nth_repeat_lt by exact Hj.
        apply fold_min_eq. apply Forall_forall. intros a Ha.
        apply list_elem_of_In, in_map_iff in Ha. destruct Ha as (x & <- & Hx).
        apply Hall; [|exact Hj]. apply elem_of_elements, list_elem_of_In, Hx.
Qed.

Lemma minhash_signature_length self (shingles : gset Z) :
  length (_minhash_signature self shingles) = Z.to_nat (num_hashes self).
Proof.
  unfold _minhash_signature. destruct (bool_decide (shingles = ∅)).
  - unfold sentinel. apply repeat_length.
  - rewrite length_map.
    assert (Hsl : length (sentinel self) = Z.to_nat (num_hashes self))
      by (unfold sentinel; apply repeat_length).
    destruct (fold_update_all self (elements shingles) (sentinel self) Hsl) as [Hl _].
    congruence.
Qed.

(** C5 (as amended).  For an embedder that [__init__] returned and any
    text, the signature of [embed] has exactly [num_hashes] slots; when
    the shingle set is empty (text shorter than [shingle_size], or cut
    short by [stop_short_lines]) every slot is the sentinel [2^32 - 1] and
    [shingle_count] is [0]; and the signature is all-sentinel exactly when
    no shingle hashes below the sentinel in any slot. *)
Theorem embed_signature_sentinel :
  forall ss nh b sd n l c ssl (self : LSHMinHashEmbedder) (text : string),
    __init__ ss nh b sd n l c ssl = Ok self ->
    Z.of_nat (length (signature (embed self text))) = num_hashes self
    /\ sentinel self = repeat (2 ^ 32 - 1) (Z.to_nat (num_hashes self))
    /\ (embedded_shingles self text = ∅ ->
        signature (embed self text) = sentinel self
        /\ shingle_count (embed self text) = 0)
    /\ (signature (embed self text) = sentinel self
        <-> forall x i, x ∈ embedded_shingles self text ->
                        (i < Z.to_nat (num_hashes self))%nat ->
                        _max_hash self <= hx self x i).
Proof.
  intros ss nh b sd n l c ssl self text Hinit.
  apply init_ok_inv in Hinit.
  destruct Hinit as (_ & Hnh & _ & _ & _ & Hnh' & _ & _ & _ & _ & _ & Hp & Hm & _).
  assert (Hpos : 0 < num_hashes self) by lia.
  unfold embed, embedded_shingles.
  destruct (negb (stop_short_lines self =? 0)
            && (len (_preprocess self text) <? stop_short_lines self)); cbn.
  - split; [|split; [|split]].
    + unfold sentinel. rewrite repeat_length. lia.
    + unfold sentinel. rewrite Hm. reflexivity.
    + intros _. split; reflexivity.
    + split; [|reflexivity]. intros _ x i Hx. set_solver.
  - set (sh := _shingle self (_preprocess self text)).
    split; [|split; [|split]].
    + rewrite minhash_signature_length. lia.
    + unfold sentinel. rewrite Hm. reflexivity.
    + intros He. rewrite He. split.
      * unfold _minhash_signature. rewrite bool_decide_eq_true_2 by reflexivity.
        reflexivity.
      * rewrite size_empty. reflexivity.
    + apply minhash_signature_sentinel_iff; assumption.
Qed.

Lemma embed_signature_sentinel_witness :
  exists self,
    __init__ 5 4 2 42 true true true 0 = Ok self
    /\ Z.of_nat (length (signature (embed self "ab"))) = 4
    /\ (embedded_shingles self "ab" = ∅ ->
        signature (embed self "ab") = sentinel self
        /\ shingle_count (embed self "ab") = 0).
Proof.
  eexists. split; [vm_compute; reflexivity|].
  match goal with
  | |- context [embed ?self _] =>
      destruct (embed_signature_sentinel 5 4 2 42 true true true 0 self "ab")
        as (Hlen & _ & Hempty & _); [vm_compute; reflexivity|]
  end.
  split; [exact Hlen|exact Hempty].
Defined.

(** C5 (as stated) fails: with seed 737841139 the only hash value of the
    only shingle of ["a"] is 4294967302, not below the sentinel, so a
    non-empty shingle set yields the all-sentinel signature. *)
Lemma all_sentinel_nonempty_counterexample :
  exists self,
    __init__ 1 1 1 737841139 true true true 0 = Ok self
    /\ embedded_shingles self "a" = {[ 1431053258 ]}
    /\ hx self 1431053258 0 = 4294967302
    /\ signature (embed self "a") = sentinel self
    /\ shingle_count (embed self "a") = 1.
Proof.
  eexists. split; [vm_compute; reflexivity|].
  split; [|split; [|split]]; vm_compute; reflexivity.
Qed.

End Signature.

(** ** The filter compiler *)
Section FilterCompiler.
Import filter_adapter.

Variable float_ok : PyVal -> bool.
Variable datetime_ok : PyVal -> bool.

Local Abbreviation atomic_cond := (_field_condition_from_atomic float_ok datetime_ok).
Local Abbreviation build := (_build_filter_from_expr float_ok datetime_ok).
Local Abbreviation clause := (compile_clause float_ok datetime_ok).
Local Abbreviation adapter := (adapter_specs_to_filters float_ok datetime_ok).

Lemma or_lower_total v dflt :
  str_or_falsy v = true -> exists s, or_lower v dflt = Ok s.
Proof.
  unfold or_lower, str_or_falsy. destruct v; intros H;
    try (apply negb_true_iff in H; rewrite H; eauto).
  destruct (truthy (PStr s)); eauto.
Qed.

Lemma split_comma_none s :
  existsb (Ascii.eqb ",") s = false -> str.split_comma s = None.
Proof.
  induction s as [|a s IH]; intros H; [reflexivity|].
  cbn [existsb] in H. apply orb_false_elim in H. destruct H as [Ha Hs].
  cbn [str.split_comma]. rewrite Ascii.eqb_sym in Ha.
  rewrite Ha, (IH Hs). reflexivity.
Qed.

Lemma parse_range_value_unsupported value :
  range_shape_ok value = false ->
  _parse_range_value value =
    Raise (ValueError "Unsupported range value format: " [value]).
Proof.
  destruct value as [| | | |s|l|l|d]; cbn; try reflexivity; try discriminate.
  - unfold contains_comma. intros H. rewrite split_comma_none by exact H. reflexivity.
  - destruct l as [|a [|b [|c l]]]; try reflexivity; discriminate.
  - destruct l as [|a [|b [|c l]]]; try reflexivity; discriminate.
Qed.

Ltac split_ops H :=
  unfold is_in, supported_ops in H; cbn [existsb] in H;
  repeat (apply orb_false_elim in H; let H1 := fresh "Hop" in destruct H as [H1 H]).

Ltac rewrite_ops :=
  repeat match goal with
         | H : String.eqb _ _ = false |- _ => rewrite H; clear H
         end.

Lemma atomic_missing_key d dtype op :
  or_lower (get d "dtype") "string" = Ok dtype ->
  or_lower (get d "op") "equals" = Ok op ->
  truthy (get d "key") = false -> op <> "has_id" ->
  atomic_cond (PDict d) = Raise (ValueError "Missing 'key' in spec: " [PDict d]).
Proof.
  intros Hdt Hop Hk Hne. unfold _field_condition_from_atomic.
  rewrite Hdt, Hop. cbn [bind]. rewrite Hk.
  destruct (String.eqb_spec op "has_id"); [contradiction|]. reflexivity.
Qed.

Lemma atomic_unsupported_op d dtype op :
  or_lower (get d "dtype") "string" = Ok dtype ->
  or_lower (get d "op") "equals" = Ok op ->
  truthy (get d "key") = true -> is_in op supported_ops = false ->
  atomic_cond (PDict d) = Raise (ValueError "Unsupported op=" [PStr op; PDict d]).
Proof.
  intros Hdt Hop Hk Hsup. unfold _field_condition_from_atomic.
  rewrite Hdt, Hop. cbn [bind]. rewrite Hk. split_ops Hsup.
  unfold is_in. cbn [existsb negb andb]. rewrite_ops. reflexivity.
Qed.

Lemma atomic_bad_range d dtype op :
  or_lower (get d "dtype") "string" = Ok dtype ->
  or_lower (get d "op") "equals" = Ok op ->
  truthy (get d "key") = true -> is_in op ["between"; "range"] = true ->
  range_shape_ok (get d "value") = false ->
  atomic_cond (PDict d) =
    Raise (ValueError "Unsupported range value format: " [get d "value"]).
Proof.
  intros Hdt Hop Hk Hin Hshape. unfold _field_condition_from_atomic.
  rewrite Hdt, Hop. cbn [bind]. rewrite Hk.
  unfold is_in in Hin. cbn [existsb] in Hin.
  rewrite orb_false_r in Hin. apply orb_true_iff in Hin.
  destruct Hin as [He|He]; apply String.eqb_eq in He; subst op;
    cbn; rewrite (parse_range_value_unsupported _ Hshape); reflexivity.
Qed.

(** [_build_filter_from_expr] on a logical expression, with the lookup
    of ["clauses"] and the clause loop written out. *)
Lemma build_filter_logical d logic :
  truthy (get d "logic") = true ->
  or_lower (get d "logic") "" = Ok logic ->
  build (PDict d) =
    match dict_get "clauses" d with
    | Some (PList (c :: cs)) =>
        combine logic (PDict d) (mapM clause (c :: cs))
    | _ => Raise (bad_clauses (PDict d))
    end.
Proof.
  intros Ht Hl. cbn [_build_filter_from_expr]. rewrite Ht. cbn [negb].
  rewrite Hl. cbn [bind]. clear Ht Hl.
  generalize (PDict d) as expr. intros expr.
  induction d as [|[k v] tl IH]; [reflexivity|].
  cbn [dict_get]. destruct (String.eqb k "clauses"); [|exact IH].
  destruct v as [| | | | |l| |]; reflexivity.
Qed.

Lemma build_filter_atomic d :
  truthy (get d "logic") = false ->
  build (PDict d) =
    (let* cond := atomic_cond (PDict d) in
     models.Filter (Some [cond]) None None None).
Proof. intros Ht. cbn [_build_filter_from_expr]. rewrite Ht. reflexivity. Qed.

(** A clause with a truthy ["logic"] is never compiled: the lookup of
    [models.FilterCondition] fails first. *)
Lemma compile_clause_nested c :
  is_nested c = Ok true -> clause c = Raise (AttributeError "FilterCondition").
Proof. intros H. unfold compile_clause. rewrite H. reflexivity. Qed.

Lemma compile_clause_atomic c :
  atomic c = true -> clause c = atomic_cond c.
Proof.
  unfold atomic, compile_clause, is_nested. destruct c; try discriminate.
  intros H. apply negb_true_iff in H. cbn [bind]. rewrite H. reflexivity.
Qed.

Lemma compile_clause_ok c cond :
  clause c = Ok cond -> atomic c = true /\ atomic_cond c = Ok cond.
Proof.
  unfold compile_clause, is_nested, atomic. destruct c; try discriminate.
  cbn [bind]. destruct (truthy (get kvs "logic")); [discriminate|].
  intros H. split; [reflexivity|exact H].
Qed.

Lemma mapM_cons {A B} (f : A -> result B) x xs :
  mapM f (x :: xs) = (let* y := f x in let* ys := mapM f xs in Ok (y :: ys)).
Proof. reflexivity. Qed.

Lemma mapM_ok_inv {A B} (f : A -> result B) xs : forall ys,
  mapM f xs = Ok ys -> Forall2 (fun x y => f x = Ok y) xs ys.
Proof.
  induction xs as [|x xs IH]; intros ys.
  - intros [= <-]. constructor.
  - rewrite mapM_cons.
    destruct (f x) as [y|] eqn:Ex; cbn [bind]; [|discriminate].
    destruct (mapM f xs) as [ys'|] eqn:Em; cbn [bind]; [|discriminate].
    intros [= <-]. constructor; [exact Ex|apply IH; reflexivity].
Qed.

Lemma mapM_ok_all {A B} (f : A -> result B) xs ys :
  mapM f xs = Ok ys -> Forall (fun x => is_ok (f x) = true) xs.
Proof.
  intros H. apply mapM_ok_inv in H.
  induction H as [|x y xs' ys' Hx _ IH]; constructor; [rewrite Hx; reflexivity|exact IH].
Qed.

Lemma mapM_first_failure {A B} (f : A -> result B) pre x post e :
  Forall (fun x' => is_ok (f x') = true) pre -> f x = Raise e ->
  mapM f (pre ++ x :: post) = Raise e.
Proof.
  intros Hpre Hx. induction Hpre as [|p pre Hp _ IH]; cbn [app]; rewrite mapM_cons.
  - rewrite Hx. reflexivity.
  - destruct (f p); [|discriminate]. cbn [bind]. rewrite IH. reflexivity.
Qed.

Lemma combine_raise logic expr e :
  is_in logic ["and"; "or"; "not"] = true ->
  combine logic expr (Raise e) = Raise e.
Proof.
  unfold is_in, combine. cbn [existsb].
  destruct (String.eqb logic "and"); [reflexivity|].
  destruct (String.eqb logic "or"); [reflexivity|].
  destruct (String.eqb logic "not"); [reflexivity|discriminate].
Qed.

Lemma combine_ok logic expr conds f :
  combine logic expr conds = Ok f ->
  exists cs, conds = Ok cs
             /\ (f = {| models.must := Some cs; models.should := None;
                        models.min_should := None; models.must_not := None |}
                 \/ f = {| models.must := None; models.should := None;
                           models.min_should := None; models.must_not := Some cs |}).
Proof.
  unfold combine.
  destruct (String.eqb logic "and").
  { destruct conds as [cs|]; cbn; [|discriminate]. intros [= <-]. eauto. }
  destruct (String.eqb logic "or").
  { destruct conds as [cs|]; cbn; discriminate. }
  destruct (String.eqb logic "not").
  { destruct conds as [cs|]; cbn; [|discriminate]. intros [= <-]. eauto. }
  discriminate.
Qed.

(** C8 (as amended).  For a spec whose [dtype], [op] and [logic] fields
    are strings (or absent).  An atomic spec raises a [ValueError] (the
    spec's ValidationError) naming the spec when it has no key and its op
    is not [has_id], and when its op is unsupported; it raises one
    carrying the value when a [between]/[range] value has none of the
    accepted shapes; and what it raises is raised both when it is
    compiled on its own and when it is a clause of a loop.  A logical spec
    raises a [ValueError] naming the spec when its [clauses] is missing,
    not a list or empty.  Nothing is skipped: in an and/or/not
    expression the first clause that fails to compile makes the
    expression raise that clause's error, and an expression that compiles
    holds the conditions of all its clauses, in order; likewise for a
    list of specs. *)
Theorem malformed_specs_fail :
  forall (d : list (string * PyVal)),
    str_or_falsy (get d "dtype") = true ->
    str_or_falsy (get d "op") = true ->
    str_or_falsy (get d "logic") = true ->
    (truthy (get d "logic") = false ->
     exists op, or_lower (get d "op") "equals" = Ok op
       /\ (truthy (get d "key") = false -> op <> "has_id" ->
           atomic_cond (PDict d) =
             Raise (ValueError "Missing 'key' in spec: " [PDict d]))
       /\ (truthy (get d "key") = true -> is_in op supported_ops = false ->
           atomic_cond (PDict d) =
             Raise (ValueError "Unsupported op=" [PStr op; PDict d]))
       /\ (truthy (get d "key") = true -> is_in op ["between"; "range"] = true ->
           range_shape_ok (get d "value") = false ->
           atomic_cond (PDict d) =
             Raise (ValueError "Unsupported range value format: " [get d "value"]))
       /\ (forall e, atomic_cond (PDict d) = Raise e ->
             build (PDict d) = Raise e /\ clause (PDict d) = Raise e))
    /\ (truthy (get d "logic") = true -> clauses_ok d = false ->
        build (PDict d) =
          Raise (ValueError "Logical expr must have non-empty list 'clauses': " [PDict d]))
    /\ (truthy (get d "logic") = true ->
        forall logic pre c post e,
          or_lower (get d "logic") "" = Ok logic ->
          is_in logic ["and"; "or"; "not"] = true ->
          dict_get "clauses" d = Some (PList (pre ++ c :: post)) ->
          Forall (fun c' => is_ok (clause c') = true) pre ->
          clause c = Raise e ->
          build (PDict d) = Raise e)
    /\ (truthy (get d "logic") = true ->
        forall f, build (PDict d) = Ok f ->
          exists cs conds,
            dict_get "clauses" d = Some (PList cs)
            /\ Forall2 (fun c cond => atomic c = true /\ atomic_cond c = Ok cond) cs conds
            /\ (models.must f = Some conds \/ models.must_not f = Some conds))
    /\ (forall specs mode,
          let compiles := fun s => if existsb has_logic specs
                                   then is_ok (build (PDict s))
                                   else is_ok (atomic_cond (PDict s)) in
          (is_ok (adapter specs mode) = true -> Forall (fun s => compiles s = true) specs)
          /\ (forall pre s post e,
                specs = pre ++ s :: post ->
                Forall (fun s' => compiles s' = true) pre ->
                (if existsb has_logic specs then build (PDict s) = Raise e
                 else atomic_cond (PDict s) = Raise e) ->
                adapter specs mode = Raise e)).
Proof.
  intros d Hdt Hop Hlg.
  destruct (or_lower_total _ "string" Hdt) as [dtype Edt].
  destruct (or_lower_total _ "equals" Hop) as [op Eop].
  destruct (or_lower_total _ "" Hlg) as [logic Elg].
  split; [|split; [|split; [|split]]].
  - intros Hat. exists op. split; [exact Eop|]. split; [|split; [|split]].
    + intros Hk Hne. apply (atomic_missing_key d dtype op); auto.
    + intros Hk Hsup. apply (atomic_unsupported_op d dtype op); auto.
    + intros Hk Hin Hshape. apply (atomic_bad_range d dtype op); auto.
    + intros e He. split.
      * rewrite (build_filter_atomic d Hat), He. reflexivity.
      * rewrite compile_clause_atomic, He; [reflexivity|].
        unfold atomic. rewrite Hat. reflexivity.
  - intros Ht Hcl. rewrite (build_filter_logical d logic Ht Elg).
    unfold clauses_ok in Hcl.
    destruct (dict_get "clauses" d) as [[| | | | |[|c cs]| |]|]; try reflexivity.
    discriminate.
  - intros Ht logic' pre c post e Hl Hin Hcl Hpre Hc.
    rewrite Elg in Hl. injection Hl as <-.
    rewrite (build_filter_logical d logic Ht Elg), Hcl.
    assert (Hm : mapM clause (pre ++ c :: post) = Raise e)
      by (apply mapM_first_failure; assumption).
    destruct (pre ++ c :: post) as [|c0 cs0] eqn:E; [destruct pre; discriminate|].
    rewrite Hm. apply combine_raise, Hin.
  - intros Ht f Hok. rewrite (build_filter_logical d logic Ht Elg) in Hok.
    destruct (dict_get "clauses" d) as [[| | | | |[|c cs]| |]|]; try discriminate.
    apply combine_ok in Hok. destruct Hok as (conds & Hm & Hf).
    exists (c :: cs), conds. split; [reflexivity|]. split.
    + apply mapM_ok_inv in Hm. eapply Forall2_impl; [exact Hm|].
      intros c' cond' H. apply compile_clause_ok, H.
    + destruct Hf as [-> | ->]; [left|right]; reflexivity.
  - intros specs mode compiles. subst compiles. unfold adapter_specs_to_filters.
    destruct (existsb has_logic specs); split.
    + destruct (mapM _ specs) as [fs|] eqn:Em; cbn [bind]; [|discriminate].
      intros _. eapply mapM_ok_all. exact Em.
    + intros pre s post e -> Hpre Hs.
      rewrite (mapM_first_failure _ pre s post e Hpre Hs). reflexivity.
    + destruct (mapM _ specs) as [cs|] eqn:Em; cbn [bind]; [|discriminate].
      intros _. eapply mapM_ok_all. exact Em.
    + intros pre s post e -> Hpre Hs.
      rewrite (mapM_first_failure _ pre s post e Hpre Hs). reflexivity.
Qed.

Lemma mapM_all_ok {A B} (f : A -> result B) xs :
  Forall (fun x => is_ok (f x) = true) xs -> exists ys, mapM f xs = Ok ys.
Proof.
  induction 1 as [|x xs Hx _ [ys IH]]; [exists []; reflexivity|].
  rewrite mapM_cons. destruct (f x) as [y|]; [|discriminate].
  cbn [bind]. rewrite IH. eexists. reflexivity.
Qed.

(** X16.  Of the logical expressions only flat [and] and [not]
    expressions compile.  An [or] expression never does: once all its
    clauses have compiled, [MinShould(min_count=1)] raises pydantic's
    [ValidationError] for want of [conditions].  And in an and/or/not
    expression a clause that is itself a logical expression raises
    [AttributeError] as soon as the loop reaches it, since
    [models.FilterCondition] does not exist. *)
Theorem or_and_nested_never_compile :
  forall (d : list (string * PyVal)) (logic : string),
    truthy (get d "logic") = true ->
    or_lower (get d "logic") "" = Ok logic ->
    (logic = "or" ->
       is_ok (build (PDict d)) = false
       /\ forall c cs,
            dict_get "clauses" d = Some (PList (c :: cs)) ->
            Forall (fun c' => is_ok (clause c') = true) (c :: cs) ->
            build (PDict d) = Raise (ValidationError "MinShould"))
    /\ (is_in logic ["and"; "or"; "not"] = true ->
        forall pre c post,
          dict_get "clauses" d = Some (PList (pre ++ c :: post)) ->
          Forall (fun c' => is_ok (clause c') = true) pre ->
          is_nested c = Ok true ->
          build (PDict d) = Raise (AttributeError "FilterCondition"))
    /\ (forall f, build (PDict d) = Ok f ->
          (logic = "and" \/ logic = "not")
          /\ exists c cs, dict_get "clauses" d = Some (PList (c :: cs))
                          /\ Forall (fun c' => atomic c' = true) (c :: cs)).
Proof.
  intros d logic Ht Elg. rewrite (build_filter_logical d logic Ht Elg).
  split; [|split].
  - intros ->. split.
    + destruct (dict_get "clauses" d) as [[| | | | |[|c cs]| |]|]; try reflexivity.
      unfold combine. cbn [String.eqb Ascii.eqb Bool.eqb].
      destruct (mapM clause (c :: cs)); reflexivity.
    + intros c cs -> Hall. destruct (mapM_all_ok _ _ Hall) as [ys ->]. reflexivity.
  - intros Hin pre c post -> Hpre Hc.
    assert (Hm : mapM clause (pre ++ c :: post) = Raise (AttributeError "FilterCondition"))
      by (apply mapM_first_failure; [exact Hpre|apply compile_clause_nested, Hc]).
    destruct (pre ++ c :: post) as [|c0 cs0] eqn:E; [destruct pre; discriminate|].
    rewrite Hm. apply combine_raise, Hin.
  - intros f Hok.
    destruct (dict_get "clauses" d) as [[| | | | |[|c cs]| |]|]; try discriminate.
    split.
    + unfold combine in Hok.
      destruct (String.eqb_spec logic "and"); [left; assumption|].
      destruct (String.eqb_spec logic "or").
      { destruct (mapM clause (c :: cs)); discriminate. }
      destruct (String.eqb_spec logic "not"); [right; assumption|discriminate].
    + exists c, cs. split; [reflexivity|].
      apply combine_ok in Hok. destruct Hok as (conds & Hm & _).
      apply mapM_ok_inv in Hm.
      induction Hm as [|x y xs ys Hx _ IH]; constructor; [|exact IH].
      apply compile_clause_ok in Hx. apply Hx.
Qed.

End FilterCompiler.

Section FilterScenarios.
Import filter_adapter.

Local Abbreviation accept := (fun _ : PyVal => true).

Lemma malformed_specs_fail_witness :
  _field_condition_from_atomic accept accept
      (PDict [("op", PStr "Equals"); ("value", PInt 3)]) =
    Raise (ValueError "Missing 'key' in spec: "
                      [PDict [("op", PStr "Equals"); ("value", PInt 3)]])
  /\ _build_filter_from_expr accept accept
       (PDict [("logic", PStr "and"); ("clauses", PList [])]) =
       Raise (ValueError "Logical expr must have non-empty list 'clauses': "
                         [PDict [("logic", PStr "and"); ("clauses", PList [])]]).
Proof.
  split.
  - pose proof (malformed_specs_fail accept accept
                  [("op", PStr "Equals"); ("value", PInt 3)]
                  eq_refl eq_refl eq_refl) as (Hat & _).
    destruct (Hat eq_refl) as (op & Hop & Hmiss & _).
    vm_compute in Hop. injection Hop as <-.
    apply Hmiss; [reflexivity|discriminate].
  - pose proof (malformed_specs_fail accept accept
                  [("logic", PStr "and"); ("clauses", PList [])]
                  eq_refl eq_refl eq_refl) as (_ & Hcl & _).
    apply Hcl; reflexivity.
Defined.

(** C8 (as stated) fails: an atomic spec without a key compiles when its
    op is [has_id], and the error for a malformed range value carries the
    value, not the spec.  Neither computation reaches a [float] or a
    [datetime] field. *)
Lemma keyless_has_id_counterexample :
  dict_get "key" [("op", PStr "has_id"); ("value", PList [PInt 7])] = None
  /\ _build_filter_from_expr accept accept
       (PDict [("op", PStr "has_id"); ("value", PList [PInt 7])]) =
       Ok {| models.must := Some [models.has_id_condition [PInt 7]];
             models.should := None; models.min_should := None;
             models.must_not := None |}
  /\ _build_filter_from_expr accept accept
       (PDict [("key", PStr "ts"); ("op", PStr "between"); ("value", PInt 5)]) =
       Raise (ValueError "Unsupported range value format: " [PInt 5]).
Proof. repeat split; vm_compute; reflexivity. Qed.

Lemma or_and_nested_never_compile_witness :
  _build_filter_from_expr accept accept
    (PDict [("logic", PStr "OR");
            ("clauses", PList [PDict [("key", PStr "pod_name"); ("value", PStr "api-0")]])])
    = Raise (ValidationError "MinShould")
  /\ _build_filter_from_expr accept accept
       (PDict [("logic", PStr "and");
               ("clauses",
                PList [PDict [("key", PStr "pod_name"); ("value", PStr "api-0")];
                       PDict [("logic", PStr "not");
                              ("clauses", PList [PDict [("key", PStr "level");
                                                        ("value", PStr "debug")]])]])])
       = Raise (AttributeError "FilterCondition").
Proof.
  split.
  - destruct (or_and_nested_never_compile accept accept
                [("logic", PStr "OR");
                 ("clauses", PList [PDict [("key", PStr "pod_name"); ("value", PStr "api-0")]])]
                "or" eq_refl eq_refl) as (Hor & _).
    destruct (Hor eq_refl) as [_ H]. eapply H; [reflexivity|].
    constructor; [reflexivity|constructor].
  - destruct (or_and_nested_never_compile accept accept
                [("logic", PStr "and");
                 ("clauses",
                  PList [PDict [("key", PStr "pod_name"); ("value", PStr "api-0")];
                         PDict [("logic", PStr "not");
                                ("clauses", PList [PDict [("key", PStr "level");
                                                          ("value", PStr "debug")]])]])]
                "and" eq_refl eq_refl) as (_ & Hn & _).
    apply (Hn eq_refl [PDict [("key", PStr "pod_name"); ("value", PStr "api-0")]]
              (PDict [("logic", PStr "not");
                      ("clauses", PList [PDict [("key", PStr "level");
                                                ("value", PStr "debug")]])]) []).
    + reflexivity.
    + constructor; [reflexivity|constructor].
    + reflexivity.
Defined.

End FilterScenarios.

(** * The hash utilities and the shingler *)

Section HashUtilities.
Import minhash.

Lemma to_le_bytes n : forall x, Forall (fun b => 0 <= b < 256) (blake2b.to_le n x).
Proof.
  induction n as [|n IH]; intros x; cbn; constructor.
  - apply Z.mod_pos_bound. lia.
  - apply IH.
Qed.

Lemma from_le_bound bs :
  Forall (fun b => 0 <= b < 256) bs ->
  0 <= blake2b.from_le bs < 256 ^ Z.of_nat (length bs).
Proof.
  induction 1 as [|b bs Hb _ IH]; cbn [blake2b.from_le length].
  - cbn. lia.
  - rewrite Nat2Z.inj_succ, Z.pow_succ_r by lia. lia.
Qed.

Lemma digest_bytes nn data : Forall (fun b => 0 <= b < 256) (blake2b.digest nn data).
Proof.
  unfold blake2b.digest. apply Forall_take.
  generalize (blake2b.absorb (S (length data))
                (<[0%nat := Z.lxor (blake2b.word blake2b.IV 0)
                              (Z.lxor 0x01010000 (Z.of_nat nn))]> blake2b.IV)
                0 data).
  intros h. induction h as [|x h IH]; cbn [flat_map]; [constructor|].
  apply Forall_app. split; [apply to_le_bytes|exact IH].
Qed.

Lemma digest_length_le nn data : (length (blake2b.digest nn data) <= nn)%nat.
Proof. unfold blake2b.digest. rewrite length_take. lia. Qed.

Lemma from_le_digest_bound (bs : list Z) (n : nat) :
  Forall (fun b => 0 <= b < 256) bs -> (length bs <= n)%nat ->
  0 <= blake2b.from_le bs < 256 ^ Z.of_nat n.
Proof.
  intros Hb Hl. pose proof (from_le_bound bs Hb) as [H0 H1]. split; [exact H0|].
  eapply Z.lt_le_trans; [exact H1|]. apply Z.pow_le_mono_r; lia.
Qed.

(** X1. [_stable_u32] always yields an unsigned 32-bit value, whatever
    the string. *)
Theorem stable_u32_range (s : string) : 0 <= _stable_u32 s < 2 ^ 32.
Proof.
  unfold _stable_u32.
  change (2 ^ 32) with (256 ^ Z.of_nat 4).
  apply from_le_digest_bound; [apply digest_bytes|apply digest_length_le].
Qed.

Lemma lor_one x : 0 <= x -> Z.lor x 1 = 2 * (x / 2) + 1.
Proof.
  intros Hx. apply Z.bits_inj'. intros n Hn.
  rewrite Z.lor_spec.
  destruct (Z.eq_dec n 0) as [->|Hne].
  - rewrite Z.testbit_odd_0. cbn. apply orb_true_r.
  - replace n with (Z.succ (n - 1)) by lia.
    rewrite Z.testbit_odd_succ by lia.
    rewrite Z.div2_bits by lia.
    replace (Z.testbit 1 (Z.succ (n - 1))) with false; [apply orb_false_r|].
    symmetry. apply Z.bits_above_log2; cbn; lia.
Qed.

Lemma hash_param_range seed i :
  Z.odd (fst (hash_param seed i)) = true
  /\ 1 <= fst (hash_param seed i) < 2 ^ 64
  /\ 0 <= snd (hash_param seed i) < 2 ^ 64.
Proof.
  unfold hash_param. cbn [fst snd].
  set (h := blake2b.digest 16 _).
  assert (Hh : Forall (fun b => 0 <= b < 256) h) by apply digest_bytes.
  assert (Hl : (length h <= 16)%nat) by apply digest_length_le.
  assert (Ha : 0 <= blake2b.from_le (firstn 8 h) < 256 ^ Z.of_nat 8).
  { apply from_le_digest_bound; [apply Forall_take, Hh|rewrite length_take; lia]. }
  assert (Hb : 0 <= blake2b.from_le (skipn 8 h) < 256 ^ Z.of_nat 8).
  { apply from_le_digest_bound; [apply Forall_drop, Hh|rewrite length_drop; lia]. }
  change (256 ^ Z.of_nat 8) with (2 ^ 64) in *.
  rewrite lor_one by lia.
  set (x := blake2b.from_le (firstn 8 h)) in *.
  assert (Hx : 0 <= x / 2) by (apply Z.div_pos; lia).
  assert (Hx' : 2 * (x / 2) <= x) by (apply Z.mul_div_le; lia).
  split; [rewrite Z.add_comm, Z.odd_add_mul_2; reflexivity|].
  split; [|exact Hb].
  lia.
Qed.

(** X2. [_make_hash_params(k, seed)] returns two lists of [k] entries;
    every multiplier [a_i] is odd (hence nonzero) and both lists hold
    unsigned 64-bit values. *)
Theorem make_hash_params_shape (k seed : Z) :
  length (fst (_make_hash_params k seed)) = Z.to_nat k
  /\ length (snd (_make_hash_params k seed)) = Z.to_nat k
  /\ Forall (fun a => Z.odd a = true /\ 1 <= a < 2 ^ 64) (fst (_make_hash_params k seed))
  /\ Forall (fun b => 0 <= b < 2 ^ 64) (snd (_make_hash_params k seed)).
Proof.
  unfold _make_hash_params. cbn [fst snd].
  rewrite !length_map, length_seq.
  split; [reflexivity|]. split; [reflexivity|]. split.
  - rewrite Forall_map, Forall_map. apply Forall_forall. intros i _.
    pose proof (hash_param_range seed i) as (Ho & Ha & _).
    split; [exact Ho|exact Ha].
  - rewrite Forall_map, Forall_map. apply Forall_forall. intros i _.
    pose proof (hash_param_range seed i) as (_ & _ & Hb). exact Hb.
Qed.

Lemma fold_union_singletons (f : nat -> Z) (l : list nat) :
  forall acc : gset Z,
    fold_left (fun out i => out ∪ {[ f i ]}) l acc = acc ∪ list_to_set (map f l).
Proof.
  induction l as [|i l IH]; intros acc; cbn [fold_left map list_to_set].
  - set_solver.
  - rewrite IH. set_solver.
Qed.

Lemma size_list_to_set_le (l : list Z) : (size (list_to_set l : gset Z) <= length l)%nat.
Proof.
  induction l as [|a l IH]; cbn [list_to_set length].
  - rewrite size_empty. lia.
  - rewrite size_union_alt, size_singleton.
    assert (size ((list_to_set l : gset Z) ∖ {[a]}) <= size (list_to_set l : gset Z))%nat
      by (apply subseteq_size; set_solver).
    lia.
Qed.

Lemma make_hash_params_lengths (k seed : Z) :
  length (fst (_make_hash_params k seed)) = Z.to_nat k
  /\ length (snd (_make_hash_params k seed)) = Z.to_nat k.
Proof.
  unfold _make_hash_params. cbn [fst snd].
  rewrite !length_map, length_seq. split; reflexivity.
Qed.

Lemma init_shingle_size ss nh b sd n l c ssl self :
  __init__ ss nh b sd n l c ssl = Ok self ->
  0 < shingle_size self /\ 0 < num_hashes self /\ 0 < bands self
  /\ num_hashes self = bands self * rows_per_band self
  /\ _prime self = 4294967311 /\ _max_hash self = 4294967295
  /\ length (_a self) = Z.to_nat (num_hashes self)
  /\ length (_b self) = Z.to_nat (num_hashes self).
Proof.
  unfold __init__.
  destruct (Z.leb_spec ss 0); [discriminate|].
  destruct (Z.leb_spec nh 0); [discriminate|].
  destruct (Z.leb_spec b 0); cbn [orb]; [discriminate|].
  destruct (Z.eqb_spec (nh mod b) 0) as [Hd|]; cbn [negb]; [|discriminate].
  pose proof (make_hash_params_lengths nh sd) as (La & Lb).
  destruct (_make_hash_params nh sd) as [a' b'] eqn:E. cbn [fst snd] in La, Lb.
  intros [= <-]. cbn.
  repeat split; try lia; try assumption.
  apply Z.div_exact in Hd; lia.
Qed.

(** X3. For a constructed embedder [_shingle] returns the empty set
    exactly when the string is shorter than [shingle_size]; otherwise it
    holds at least one and at most [len(s) - shingle_size + 1] hashes,
    each an unsigned 32-bit value. *)
Theorem shingle_count_bounds :
  forall ss nh b sd n l c ssl (self : LSHMinHashEmbedder) (s : string),
    __init__ ss nh b sd n l c ssl = Ok self ->
    (_shingle self s = ∅ <-> len s < shingle_size self)
    /\ (shingle_size self <= len s ->
        1 <= Z.of_nat (size (_shingle self s)) <= len s - shingle_size self + 1)
    /\ (forall x, x ∈ _shingle self s -> 0 <= x < 2 ^ 32).
Proof.
  intros ss nh b sd n l c ssl self s Hinit.
  pose proof (init_shingle_size _ _ _ _ _ _ _ _ _ Hinit) as (Hss & _).
  unfold _shingle.
  destruct (Z.ltb_spec (len s) (shingle_size self)) as [Hlt|Hge].
  - split; [tauto|]. split; [lia|]. intros x Hx. set_solver.
  - rewrite fold_union_singletons, union_empty_l_L.
    set (f := fun i => _stable_u32 (slice s i (Z.to_nat (shingle_size self)))).
    set (m := Z.to_nat (len s - shingle_size self + 1)).
    assert (Hm : (0 < m)%nat) by (unfold m; lia).
    assert (Hin : f 0%nat ∈ (list_to_set (map f (seq 0 m)) : gset Z)).
    { apply elem_of_list_to_set, list_elem_of_In, in_map_iff. exists 0%nat.
      split; [reflexivity|]. apply in_seq. lia. }
    split; [|split].
    + split; [intros E; rewrite E in Hin; set_solver|lia].
    + intros _. split.
      * assert (size (list_to_set (map f (seq 0 m)) : gset Z) <> 0)%nat; [|lia].
        apply size_non_empty_iff. intros E. apply (proj1 (elem_of_equiv_empty _) E _ Hin).
      * pose proof (size_list_to_set_le (map f (seq 0 m))) as Hle.
        rewrite length_map, length_seq in Hle.
        assert (Hmz : Z.of_nat m = len s - shingle_size self + 1) by (unfold m; lia).
        lia.
    + intros x Hx. rewrite ?union_empty_l_L in Hx.
      apply elem_of_list_to_set, list_elem_of_In, in_map_iff in Hx.
      destruct Hx as (i & <- & _). unfold _stable_u32.
      change (2 ^ 32) with (256 ^ Z.of_nat 4).
      apply from_le_digest_bound; [apply digest_bytes|apply digest_length_le].
Qed.

Lemma shingle_count_bounds_witness :
  exists self,
    __init__ 5 4 2 42 true true true 0 = Ok self
    /\ (_shingle self "ab" = ∅ <-> len "ab" < shingle_size self)
    /\ (forall x, x ∈ _shingle self "abcdef" -> 0 <= x < 2 ^ 32).
Proof.
  destruct (__init__ 5 4 2 42 true true true 0) as [self|e] eqn:E;
    [|vm_compute in E; discriminate].
  exists self. split; [reflexivity|].
  pose proof (shingle_count_bounds 5 4 2 42 true true true 0 self "ab" E) as (H1 & _).
  pose proof (shingle_count_bounds 5 4 2 42 true true true 0 self "abcdef" E) as (_ & _ & H3).
  split; assumption.
Defined.

End HashUtilities.

(** * MinHash signatures, band keys and the exact Jaccard *)

Section SignatureAlgebra.
Import minhash.

Lemma fold_min_attained l : forall m,
  fold_left Z.min l m = m \/ In (fold_left Z.min l m) l.
Proof.
  induction l as [|a l IH]; intros m; cbn [fold_left]; [left; reflexivity|].
  destruct (IH (Z.min m a)) as [E|Hin].
  - rewrite E. destruct (Z.min_spec m a) as [[_ ->]|[_ ->]]; [left|right; left]; reflexivity.
  - right. right. exact Hin.
Qed.

Lemma fold_min_below l : forall m a, In a l -> fold_left Z.min l m <= a.
Proof.
  induction l as [|b l IH]; intros m a Hin; [contradiction|].
  cbn [fold_left]. destruct Hin as [->|Hin].
  - pose proof (fold_min_le l (Z.min m a)). lia.
  - apply IH, Hin.
Qed.

(** The slot of a set: the least hash of its elements, capped by the
    sentinel value. *)
Lemma slot_union (f : Z -> Z) (m : Z) (A B : gset Z) :
  fold_left Z.min (map f (elements (A ∪ B))) m =
  Z.min (fold_left Z.min (map f (elements A)) m)
        (fold_left Z.min (map f (elements B)) m).
Proof.
  set (vA := fold_left Z.min (map f (elements A)) m).
  set (vB := fold_left Z.min (map f (elements B)) m).
  set (vU := fold_left Z.min (map f (elements (A ∪ B))) m).
  assert (HA : vA <= m) by apply fold_min_le.
  assert (HB : vB <= m) by apply fold_min_le.
  assert (HU : vU <= m) by apply fold_min_le.
  assert (Hsub : forall X, X ⊆ A ∪ B -> forall a, In a (map f (elements X)) ->
                   In a (map f (elements (A ∪ B)))).
  { intros X HX a Ha. apply in_map_iff in Ha as (x & <- & Hx). apply in_map.
    apply list_elem_of_In, elem_of_elements. apply list_elem_of_In, elem_of_elements in Hx.
    set_solver. }
  assert (HUA : vU <= vA).
  { assert (Hat : vA = m \/ In vA (map f (elements A))) by apply fold_min_attained.
    destruct Hat as [E|Hin].
    - lia.
    - apply fold_min_below. apply (Hsub A); [set_solver|exact Hin]. }
  assert (HUB : vU <= vB).
  { assert (Hat : vB = m \/ In vB (map f (elements B))) by apply fold_min_attained.
    destruct Hat as [E|Hin].
    - lia.
    - apply fold_min_below. apply (Hsub B); [set_solver|exact Hin]. }
  assert (Hge : Z.min vA vB <= vU).
  { assert (Hat : vU = m \/ In vU (map f (elements (A ∪ B)))) by apply fold_min_attained.
    destruct Hat as [E|Hin].
    - lia.
    - apply in_map_iff in Hin as (x & Hx & Hel).
      apply list_elem_of_In, elem_of_elements, elem_of_union in Hel.
      destruct Hel as [Hel|Hel].
      + assert (vA <= vU); [|lia]. rewrite <- Hx. apply fold_min_below, in_map.
        apply list_elem_of_In, elem_of_elements, Hel.
      + assert (vB <= vU); [|lia]. rewrite <- Hx. apply fold_min_below, in_map.
        apply list_elem_of_In, elem_of_elements, Hel. }
  lia.
Qed.

(** Every slot of a signature, for the empty set as for any other. *)
Lemma signature_slot self (shingles : gset Z) j :
  _prime self = 4294967311 -> _max_hash self = 4294967295 ->
  (j < Z.to_nat (num_hashes self))%nat ->
  nth j (_minhash_signature self shingles) 0 =
    fold_left Z.min (map (fun x => hx self x j) (elements shingles)) (_max_hash self).
Proof.
  intros Hp Hm Hj.
  destruct (decide (shingles = ∅)) as [->|Hne].
  - rewrite elements_empty. cbn [map fold_left].
    unfold _minhash_signature. rewrite bool_decide_eq_true_2 by reflexivity.
    unfold sentinel. apply nth_repeat_lt, Hj.
  - apply (minhash_signature_slots self shingles Hp Hm Hne), Hj.
Qed.

Lemma nth_zip_with_min (l1 l2 : list Z) j :
  (j < length l1)%nat -> (j < length l2)%nat ->
  nth j (zip_with Z.min l1 l2) 0 = Z.min (nth j l1 0) (nth j l2 0).
Proof.
  revert l2 j. induction l1 as [|a l1 IH]; intros [|b l2] j H1 H2; cbn in *; try lia.
  destruct j as [|j]; [reflexivity|]. apply IH; lia.
Qed.

(** X4. The signature of a union is the slot-wise minimum of the two
    signatures: signatures of parts can be merged without rehashing. *)
Theorem minhash_signature_union :
  forall ss nh b sd n l c ssl (self : LSHMinHashEmbedder) (A B : gset Z),
    __init__ ss nh b sd n l c ssl = Ok self ->
    _minhash_signature self (A ∪ B) =
      zip_with Z.min (_minhash_signature self A) (_minhash_signature self B).
Proof.
  intros ss nh b sd n l c ssl self A B Hinit.
  pose proof (init_shingle_size _ _ _ _ _ _ _ _ _ Hinit) as (_ & _ & _ & _ & Hp & Hm & _).
  apply list_eq_nth.
  - rewrite length_zip_with, !minhash_signature_length. lia.
  - intros j Hj. rewrite minhash_signature_length in Hj.
    rewrite nth_zip_with_min by (rewrite minhash_signature_length; exact Hj).
    rewrite !signature_slot by assumption.
    apply slot_union.
Qed.

Lemma minhash_signature_union_witness :
  exists self,
    __init__ 5 4 2 42 true true true 0 = Ok self
    /\ _minhash_signature self ({[ 7 ]} ∪ {[ 11 ]}) =
         zip_with Z.min (_minhash_signature self {[ 7 ]}) (_minhash_signature self {[ 11 ]}).
Proof.
  destruct (__init__ 5 4 2 42 true true true 0) as [self|e] eqn:E;
    [|vm_compute in E; discriminate].
  exists self. split; [reflexivity|].
  exact (minhash_signature_union 5 4 2 42 true true true 0 self {[ 7 ]} {[ 11 ]} E).
Defined.

Lemma hx_range self x i : _prime self = 4294967311 -> 0 <= hx self x i < 4294967311.
Proof. intros Hp. unfold hx. rewrite Hp. apply Z.mod_pos_bound. lia. Qed.

(** X5. Every component of the signature [embed] returns is an unsigned
    32-bit value, although the hashes are taken modulo a prime above
    [2^32]. *)
Theorem embed_signature_range :
  forall ss nh b sd n l c ssl (self : LSHMinHashEmbedder) (text : string),
    __init__ ss nh b sd n l c ssl = Ok self ->
    Forall (fun v => 0 <= v <= 2 ^ 32 - 1) (signature (embed self text)).
Proof.
  intros ss nh b sd n l c ssl self text Hinit.
  pose proof (init_shingle_size _ _ _ _ _ _ _ _ _ Hinit) as (_ & _ & _ & _ & Hp & Hm & _).
  change (2 ^ 32 - 1) with 4294967295.
  assert (Hsent : Forall (fun v => 0 <= v <= 4294967295) (sentinel self)).
  { unfold sentinel. rewrite Hm. apply Forall_forall. intros v Hv.
    apply list_elem_of_In, repeat_spec in Hv. lia. }
  unfold embed.
  destruct (negb (stop_short_lines self =? 0) && (len (_preprocess self text) <? stop_short_lines self));
    cbn [signature]; [exact Hsent|].
  set (S := _shingle self (_preprocess self text)).
  apply Forall_forall. intros v Hv.
  apply list_elem_of_In, (In_nth _ _ 0) in Hv as (j & Hj & <-).
  rewrite minhash_signature_length in Hj.
  rewrite signature_slot by assumption. rewrite Hm. split.
  - apply fold_min_lower; [lia|]. apply Forall_forall. intros a Ha.
    apply list_elem_of_In, in_map_iff in Ha as (x & <- & _).
    pose proof (hx_range self x j Hp). lia.
  - apply fold_min_le.
Qed.

Lemma embed_signature_range_witness :
  exists self,
    __init__ 5 4 2 42 true true true 0 = Ok self
    /\ Forall (fun v => 0 <= v <= 2 ^ 32 - 1) (signature (embed self "connection reset")).
Proof.
  destruct (__init__ 5 4 2 42 true true true 0) as [self|e] eqn:E;
    [|vm_compute in E; discriminate].
  exists self. split; [reflexivity|].
  exact (embed_signature_range 5 4 2 42 true true true 0 self "connection reset" E).
Defined.

End SignatureAlgebra.

(** * Band keys and the exact Jaccard *)

Section Bands.
Import minhash.

Lemma concat_chunks (l : list Z) (r : nat) n :
  concat (map (fun b : nat => firstn r (skipn (b * r) l)) (seq 0 n)) = firstn (n * r) l.
Proof.
  induction n as [|n IH]; [reflexivity|].
  rewrite seq_S, map_app, concat_app, IH. cbn [map concat Nat.add].
  rewrite app_nil_r, take_take_drop. f_equal. lia.
Qed.

Lemma chunk_of_band (sig : list Z) (r : Z) (b : nat) :
  0 <= r ->
  chunk_of sig (Z.of_nat b * r) ((Z.of_nat b + 1) * r) =
    firstn (Z.to_nat r) (skipn (b * Z.to_nat r) sig).
Proof.
  intros Hr. unfold chunk_of. f_equal; [f_equal; lia|].
  f_equal. rewrite Z2Nat.inj_mul, Nat2Z.id by lia. reflexivity.
Qed.

Lemma imap_map_seq {A B} (f : nat -> A -> B) (g : nat -> A) n :
  imap f (map g (seq 0 n)) = map (fun i => f i (g i)) (seq 0 n).
Proof.
  induction n as [|n IH]; [reflexivity|].
  rewrite seq_S, !map_app, imap_app, IH, length_map, length_seq.
  cbn. rewrite Nat.add_0_r. reflexivity.
Qed.

(** X6. For a constructed embedder and a signature of [num_hashes]
    values, [_signature_to_band_keys] cuts the signature into [bands]
    consecutive chunks of [rows_per_band] values each, which together
    make up the whole signature (no value is left out and none is used
    in two bands), and returns for the chunk at index [b] the key
    ["lsh:b:"] followed by the 8-byte BLAKE2b digest of its values joined
    by commas. *)
Theorem band_keys_partition :
  forall ss nh b sd n l c ssl (self : LSHMinHashEmbedder) (sig : list Z),
    __init__ ss nh b sd n l c ssl = Ok self ->
    length sig = Z.to_nat (num_hashes self) ->
    exists chunks : list (list Z),
      concat chunks = sig
      /\ length chunks = Z.to_nat (bands self)
      /\ Forall (fun chunk => Z.of_nat (length chunk) = rows_per_band self) chunks
      /\ _signature_to_band_keys self sig =
           imap (fun (i : nat) (chunk : list Z) =>
                   "lsh:" +:+ pretty (Z.of_nat i) +:+ ":"
                   +:+ blake2b.hexdigest 8 (str.encode (join_ints chunk)))
                chunks.
Proof.
  intros ss nh b sd n l c ssl self sig Hinit Hlen.
  pose proof (init_shingle_size _ _ _ _ _ _ _ _ _ Hinit) as (_ & Hnh & Hb & Hdiv & _).
  assert (Hr : 0 < rows_per_band self) by nia.
  assert (Hn : length sig = (Z.to_nat (bands self) * Z.to_nat (rows_per_band self))%nat).
  { rewrite Hlen, Hdiv, Z2Nat.inj_mul by lia. reflexivity. }
  exists (map (fun i : nat =>
                 chunk_of sig (Z.of_nat i * rows_per_band self)
                              ((Z.of_nat i + 1) * rows_per_band self))
              (seq 0 (Z.to_nat (bands self)))).
  split; [|split; [|split]].
  - rewrite (map_ext _ (fun i : nat =>
               firstn (Z.to_nat (rows_per_band self))
                      (skipn (i * Z.to_nat (rows_per_band self)) sig)))
      by (intros i; apply chunk_of_band; lia).
    rewrite concat_chunks, <- Hn. apply firstn_all.
  - rewrite length_map, length_seq. reflexivity.
  - apply Forall_forall. intros chunk Hin.
    apply list_elem_of_In, in_map_iff in Hin as (i & <- & Hi). apply in_seq in Hi.
    rewrite chunk_of_band by lia.
    rewrite length_take, length_drop.
    assert ((i * Z.to_nat (rows_per_band self) + Z.to_nat (rows_per_band self)
             <= Z.to_nat (bands self) * Z.to_nat (rows_per_band self))%nat) by nia.
    lia.
  - rewrite imap_map_seq. reflexivity.
Qed.

Lemma band_keys_partition_witness :
  exists self,
    __init__ 5 4 2 42 true true true 0 = Ok self
    /\ exists chunks : list (list Z),
         concat chunks = [10; 20; 30; 40]
         /\ length chunks = Z.to_nat (bands self)
         /\ _signature_to_band_keys self [10; 20; 30; 40] =
              imap (fun (i : nat) (chunk : list Z) =>
                      "lsh:" +:+ pretty (Z.of_nat i) +:+ ":"
                      +:+ blake2b.hexdigest 8 (str.encode (join_ints chunk)))
                   chunks.
Proof.
  eexists. split; [vm_compute; reflexivity|].
  match goal with
  | |- context [_signature_to_band_keys ?self _] =>
      destruct (band_keys_partition 5 4 2 42 true true true 0 self [10; 20; 30; 40])
        as (chunks & Hc & Hl & _ & Hk); [vm_compute; reflexivity|reflexivity|]
  end.
  exists chunks. split; [exact Hc|]. split; [exact Hl|exact Hk].
Defined.

End Bands.

Section JaccardAlgebra.
Import minhash.

Lemma jaccard_num_den (A B : gset Z) :
  A <> ∅ -> B <> ∅ ->
  Qnum (jaccard A B) = Z.of_nat (size (A ∩ B))
  /\ Z.pos (Qden (jaccard A B)) = Z.of_nat (size (A ∪ B)).
Proof.
  intros HA HB. rewrite jaccard_nonempty by assumption. cbn [Qnum Qden].
  split; [reflexivity|]. apply pos_of_size, size_nonempty. set_solver.
Qed.

(** X7. The exact Jaccard is symmetric; it is [1] exactly when the two
    shingle sets are equal, and [0] exactly when they share no element
    and are not both empty. *)
Theorem jaccard_symmetric_and_extremes :
  forall A B : gset Z,
    jaccard A B = jaccard B A
    /\ ((jaccard A B == 1)%Q <-> A = B)
    /\ ((jaccard A B == 0)%Q <-> A ∩ B = ∅ /\ ~ (A = ∅ /\ B = ∅)).
Proof.
  intros A B.
  destruct (decide (A = ∅)) as [HA|HA], (decide (B = ∅)) as [HB|HB].
  - subst. split; [reflexivity|]. split.
    + split; reflexivity.
    + split; [intros H; vm_compute in H; discriminate|intros [_ H]; exfalso; apply H; auto].
  - subst A. unfold jaccard.
    rewrite (bool_decide_eq_false_2 _ HB), bool_decide_eq_true_2 by reflexivity.
    cbn [andb orb]. split; [reflexivity|]. split.
    + split; [intros H; vm_compute in H; discriminate|intros E; exfalso; auto].
    + split; [intros _; split; [set_solver|tauto]|reflexivity].
  - subst B. unfold jaccard.
    rewrite (bool_decide_eq_false_2 _ HA), bool_decide_eq_true_2 by reflexivity.
    cbn [andb orb]. split; [reflexivity|]. split.
    + split; [intros H; vm_compute in H; discriminate|intros E; exfalso; auto].
    + split; [intros _; split; [set_solver|tauto]|reflexivity].
  - pose proof (jaccard_num_den A B HA HB) as [Hn Hd].
    split; [|split].
    + rewrite !jaccard_nonempty by assumption.
      rewrite (intersection_comm_L A B), (union_comm_L A B). reflexivity.
    + unfold Qeq. cbn [Qnum Qden]. rewrite Hn, Hd. split.
      * intros H.
        assert (Heq : A ∩ B = A ∪ B).
        { apply set_subseteq_size_eq; [set_solver|lia]. }
        apply set_eq. intros x. split; intros Hx.
        -- assert (x ∈ A ∩ B) by (rewrite Heq; set_solver). set_solver.
        -- assert (x ∈ A ∩ B) by (rewrite Heq; set_solver). set_solver.
      * intros ->. rewrite intersection_idemp_L, union_idemp_L. lia.
    + unfold Qeq. cbn [Qnum Qden]. rewrite Hn. split.
      * intros H. split; [|tauto].
        apply leibniz_equiv, size_empty_iff. lia.
      * intros [E _]. rewrite E, size_empty. lia.
Qed.

End JaccardAlgebra.

(** * Whitespace collapsing *)

Section Whitespace.
Import re minhash.

Lemma lead_le s : (lead s <= length s)%nat.
Proof.
  induction s as [|a s IH]; cbn [lead length]; [lia|].
  destruct (is_space a); lia.
Qed.

Lemma ends_ok_lead s : ends_ok s = true -> lead s = 0%nat.
Proof.
  destruct s as [|a s]; [reflexivity|]. cbn [ends_ok lead].
  destruct (is_space a); [discriminate|reflexivity].
Qed.

(** The greedy loop of [\s+] consumes the whole run of whitespace the
    text starts with. *)
Lemma rep_loop_space : forall s fuel n prev g,
  (length s < fuel)%nat ->
  ((1 <= lead s + n)%nat ->
     exists c', rep_loop (run space) 1 None Some fuel n (Cursor prev s g) = Some c'
                /\ ahead c' = skipn (lead s) s)
  /\ ((lead s + n = 0)%nat ->
     rep_loop (run space) 1 None Some fuel n (Cursor prev s g) = None).
Proof.
  induction s as [|a tl IH]; intros fuel n prev g Hf;
    (destruct fuel as [|fuel]; [cbn [length] in Hf; lia|]);
    cbn [rep_loop under]; unfold space at 1 3; cbn [run ahead groups lead].
  - split.
    + intros H. destruct (Nat.leb_spec 1 n); [|lia].
      eexists. split; reflexivity.
    + intros H. destruct (Nat.leb_spec 1 n); [lia|reflexivity].
  - destruct (is_space a) eqn:Ha.
    + cbn [length] in *.
      assert (Hlt : (length tl <? S (length tl))%nat = true) by (apply Nat.ltb_lt; lia).
      rewrite Hlt.
      destruct (IH fuel (S n) (Some a) g ltac:(lia)) as [Hsome _].
      destruct Hsome as (c' & Hc' & Hah); [lia|].
      fold space. rewrite Hc'. split; [|lia].
      intros _. exists c'. split; [reflexivity|exact Hah].
    + split.
      * intros H. destruct (Nat.leb_spec 1 n); [|lia].
        eexists. split; reflexivity.
      * intros H. destruct (Nat.leb_spec 1 n); [lia|reflexivity].
Qed.

Lemma run_plus_space prev s :
  ((1 <= lead s)%nat ->
     exists c', run (plus space) (Cursor prev s []) Some = Some c'
                /\ (length s - length (ahead c'))%nat = lead s)
  /\ (lead s = 0%nat -> run (plus space) (Cursor prev s []) Some = None).
Proof.
  unfold plus. cbn [run ahead].
  destruct (rep_loop_space s (S (length s)) 0 prev [] ltac:(lia)) as [Hs Hn].
  split.
  - intros H. destruct Hs as (c' & Hc' & Hah); [lia|].
    exists c'. split; [exact Hc'|]. rewrite Hah, length_skipn.
    pose proof (lead_le s). lia.
  - intros H. apply Hn. lia.
Qed.

(** One step of [RE_WS.sub(" ", s)] at a position outside a match. *)
Lemma sub_space_step prev a tl :
  sub_from (plus space) (const " ") 0 prev (a :: tl) =
    if is_space a
    then " "%char :: sub_from (plus space) (const " ") (lead tl) (Some a) tl
    else a :: sub_from (plus space) (const " ") 0 (Some a) tl.
Proof.
  cbn [sub_from].
  destruct (run_plus_space prev (a :: tl)) as [Hs Hn].
  cbn [lead] in Hs, Hn. destruct (is_space a).
  - destruct Hs as (c' & Hc' & Hlen); [lia|].
    rewrite Hc', Hlen. reflexivity.
  - rewrite Hn by reflexivity. reflexivity.
Qed.

Lemma sub_space_spaced : forall s prev,
  spaced (sub_from (plus space) (const " ") 0 prev s) = true
  /\ spaced (sub_from (plus space) (const " ") (lead s) prev s) = true
  /\ ends_ok (sub_from (plus space) (const " ") (lead s) prev s) = true.
Proof.
  induction s as [|a tl IH]; intros prev; [repeat split|].
  destruct (IH (Some a)) as (I0 & I1 & I2).
  rewrite sub_space_step. cbn [lead].
  destruct (is_space a) eqn:Ha.
  - cbn [sub_from]. repeat split; try assumption.
    cbn [spaced]. rewrite I1, I2. reflexivity.
  - rewrite sub_space_step, Ha.
    repeat split; cbn [spaced ends_ok]; rewrite Ha, ?I0; reflexivity.
Qed.

Lemma sub_space_fixed : forall s prev,
  spaced s = true -> sub_from (plus space) (const " ") 0 prev s = s.
Proof.
  induction s as [|a tl IH]; intros prev Hs; [reflexivity|].
  rewrite sub_space_step. cbn [spaced] in Hs.
  apply andb_true_iff in Hs as [Ha Htl].
  destruct (is_space a) eqn:Hsp.
  - cbn [negb orb] in Ha. apply andb_true_iff in Ha as [Heq Hend].
    apply Ascii.eqb_eq in Heq. subst a.
    rewrite (ends_ok_lead tl Hend), IH by assumption. reflexivity.
  - rewrite IH by assumption. reflexivity.
Qed.

Lemma lstrip_spec s :
  ends_ok (str.lstrip s) = true /\ exists pre, s = pre ++ str.lstrip s.
Proof.
  induction s as [|a tl [IH1 (pre & IH2)]]; cbn [str.lstrip].
  - split; [reflexivity|exists []; reflexivity].
  - destruct (is_space a) eqn:Ha.
    + split; [exact IH1|]. exists (a :: pre). cbn. rewrite <- IH2. reflexivity.
    + split; [cbn; rewrite Ha; reflexivity|exists []; reflexivity].
Qed.

Lemma lstrip_id s : ends_ok s = true -> str.lstrip s = s.
Proof.
  destruct s as [|a s]; [reflexivity|]. cbn [ends_ok str.lstrip].
  destruct (is_space a); [discriminate|reflexivity].
Qed.

Lemma spaced_suffix p t : spaced (p ++ t) = true -> spaced t = true.
Proof.
  induction p as [|a p IH]; [auto|]. cbn [app spaced].
  intros H. apply andb_true_iff in H as [_ H]. auto.
Qed.

Lemma ends_ok_prefix t w : ends_ok (t ++ w) = true -> t <> [] -> ends_ok t = true.
Proof. destruct t; [congruence|auto]. Qed.

Lemma spaced_prefix t w : spaced (t ++ w) = true -> spaced t = true.
Proof.
  induction t as [|a t IH]; [reflexivity|]. cbn [app spaced].
  intros H. apply andb_true_iff in H as [Ha H]. rewrite (IH H), andb_true_r.
  destruct (negb (is_space a)); [reflexivity|]. cbn [orb] in *.
  apply andb_true_iff in Ha as [Heq Hend]. rewrite Heq. cbn [andb].
  destruct t as [|b t]; [reflexivity|exact Hend].
Qed.

(** [strip] returns a stretch of the text between two whitespace runs. *)
Lemma strip_spec s :
  ends_ok (str.strip s) = true /\ ends_ok (rev (str.strip s)) = true
  /\ exists pre post, s = pre ++ str.strip s ++ post.
Proof.
  unfold str.strip.
  destruct (lstrip_spec s) as [H1 (pre & Hpre)].
  destruct (lstrip_spec (rev (str.lstrip s))) as [H2 (post & Hpost)].
  set (x := str.lstrip s) in *. set (y := str.lstrip (rev x)) in *.
  assert (Hx : x = rev y ++ rev post).
  { rewrite <- rev_app_distr, <- Hpost, rev_involutive. reflexivity. }
  split; [|split].
  - destruct (rev y) as [|b o] eqn:E; [reflexivity|].
    rewrite Hx in H1. exact H1.
  - rewrite rev_involutive. exact H2.
  - exists pre, (rev post). rewrite <- Hx. exact Hpre.
Qed.

Lemma strip_id s : ends_ok s = true -> ends_ok (rev s) = true -> str.strip s = s.
Proof.
  intros H1 H2. unfold str.strip.
  rewrite (lstrip_id s H1), (lstrip_id (rev s) H2). apply rev_involutive.
Qed.

Lemma collapse_ws_normal s : ws_normal (collapse s) = true.
Proof.
  unfold ws_normal, collapse, sub.
  set (t := sub_from (plus space) (const " ") 0 None s).
  destruct (strip_spec t) as (H1 & H2 & pre & post & Ht).
  rewrite H1, H2, !andb_true_r.
  destruct (sub_space_spaced s None) as [Hsp _]. fold t in Hsp.
  rewrite Ht in Hsp. apply spaced_suffix in Hsp. apply spaced_prefix in Hsp. exact Hsp.
Qed.

Lemma collapse_fixed s : ws_normal s = true -> collapse s = s.
Proof.
  unfold ws_normal. intros H.
  apply andb_true_iff in H as [H H3]. apply andb_true_iff in H as [H1 H2].
  unfold collapse, sub. rewrite sub_space_fixed by assumption.
  apply strip_id; assumption.
Qed.

Lemma strip_no_upper s : no_upper s -> no_upper (str.strip s).
Proof.
  intros Hs. destruct (strip_spec s) as (_ & _ & pre & post & E).
  unfold no_upper in *. rewrite E in Hs.
  apply Forall_app in Hs as [_ Hs]. apply Forall_app in Hs as [Hs _]. exact Hs.
Qed.

Lemma collapse_no_upper s : no_upper s -> no_upper (collapse s).
Proof.
  intros Hs. unfold collapse, sub. apply strip_no_upper.
  apply sub_from_no_upper; [|exact Hs].
  intros c _. unfold const. cbn. repeat constructor.
Qed.

(** X8. With [collapse_whitespace] on, whatever the other flags and the
    masks do, the normalized text neither starts nor ends with whitespace
    and every whitespace character in it is a single blank followed by a
    character that is not whitespace. *)
Theorem preprocess_whitespace_normal :
  forall (self : LSHMinHashEmbedder) (text : string),
    collapse_whitespace self = true ->
    ws_normal (list_ascii_of_string (_preprocess self text)) = true.
Proof.
  intros self text Hc. unfold _preprocess, preprocess_chars.
  rewrite Hc, list_ascii_of_string_of_list_ascii. apply collapse_ws_normal.
Qed.

Lemma preprocess_whitespace_normal_witness :
  exists self,
    __init__ 5 4 2 42 true true true 0 = Ok self
    /\ ws_normal (list_ascii_of_string (_preprocess self "  GET   /a  ")) = true.
Proof.
  eexists. split; [vm_compute; reflexivity|].
  apply preprocess_whitespace_normal. reflexivity.
Defined.

(** X9. With masking disabled the normalizer is idempotent, for every
    setting of the two other flags: lowercasing and whitespace collapsing
    leave their own output unchanged. *)
Theorem preprocess_idempotent_without_masks :
  forall (self : LSHMinHashEmbedder) (text : string),
    normalize_enabled self = false ->
    _preprocess self (_preprocess self text) = _preprocess self text.
Proof.
  intros self text Hn. unfold _preprocess, preprocess_chars.
  rewrite Hn, list_ascii_of_string_of_list_ascii. f_equal.
  set (s := list_ascii_of_string text).
  destruct (lowercase self), (collapse_whitespace self).
  - rewrite (lower_id (collapse (str.lower s)))
      by (apply collapse_no_upper, lower_no_upper).
    apply collapse_fixed, collapse_ws_normal.
  - apply lower_id, lower_no_upper.
  - apply collapse_fixed, collapse_ws_normal.
  - reflexivity.
Qed.

Lemma preprocess_idempotent_without_masks_witness :
  exists self,
    __init__ 5 4 2 42 false true true 0 = Ok self
    /\ _preprocess self (_preprocess self "  Disk  FULL on /dev/sda1 ")
       = _preprocess self "  Disk  FULL on /dev/sda1 ".
Proof.
  eexists. split; [vm_compute; reflexivity|].
  apply preprocess_idempotent_without_masks. reflexivity.
Defined.

(** X10. With [lowercase] on, the normalized text holds no capital
    letter: the placeholders the masks insert are lowercase, and
    collapsing whitespace adds none. *)
Theorem preprocess_no_capitals :
  forall (self : LSHMinHashEmbedder) (text : string),
    lowercase self = true ->
    no_upper (list_ascii_of_string (_preprocess self text)).
Proof.
  intros self text Hl. unfold _preprocess, preprocess_chars.
  rewrite Hl, list_ascii_of_string_of_list_ascii.
  set (s := str.lower (list_ascii_of_string text)).
  assert (Hs : no_upper s) by apply lower_no_upper.
  assert (Hm : no_upper (if normalize_enabled self then mask s else s))
    by (destruct (normalize_enabled self); [apply mask_no_upper|]; exact Hs).
  destruct (collapse_whitespace self); [apply collapse_no_upper|]; exact Hm.
Qed.

Lemma preprocess_no_capitals_witness :
  exists self,
    __init__ 5 4 2 42 true true true 0 = Ok self
    /\ no_upper (list_ascii_of_string (_preprocess self "ERROR from 10.0.0.1")).
Proof.
  eexists. split; [vm_compute; reflexivity|].
  apply preprocess_no_capitals. reflexivity.
Defined.

End Whitespace.

(** * The LSH embedder *)

Section Embedder.
Import embedder embedder.LshEmbedder.

Lemma matches_cons x y a b :
  matches (x :: a) (y :: b) = ((if (x =? y)%Z then 1 else 0) + matches a b)%nat.
Proof. unfold matches. cbn. destruct (x =? y); reflexivity. Qed.

Lemma matches_le a : forall b, (matches a b <= length a)%nat.
Proof.
  induction a as [|x a IH]; intros [|y b]; try (cbn; lia).
  rewrite matches_cons. specialize (IH b). cbn [length]. destruct (x =? y); lia.
Qed.

Lemma matches_comm a : forall b, matches a b = matches b a.
Proof.
  induction a as [|x a IH]; intros [|y b]; try reflexivity.
  rewrite !matches_cons, IH, (Z.eqb_sym x y). reflexivity.
Qed.

Lemma matches_full a : forall b,
  length a = length b -> (matches a b = length a <-> a = b).
Proof.
  induction a as [|x a IH]; intros [|y b] Hlen; try discriminate.
  - split; reflexivity.
  - rewrite matches_cons. cbn [length] in *.
    pose proof (matches_le a b) as Hle.
    assert (Hl : length a = length b) by lia.
    destruct (Z.eqb_spec x y) as [->|Hne].
    + split.
      * intros H. f_equal. apply IH; [exact Hl|lia].
      * intros [= ->]. f_equal. apply (IH b Hl). reflexivity.
    + split; [lia|congruence].
Qed.

(** Two signatures of the same positive length: [compare] returns the
    share of positions at which they agree. *)
Lemma compare_returns (self : t) (a b : list Z) :
  length a = length b -> a <> [] ->
  exists q, compare self a b = Returns q /\ compare self b a = Returns q
            /\ (0 <= q)%Q /\ (q <= 1)%Q /\ ((q == 1)%Q <-> a = b).
Proof.
  intros Hlen Hne. unfold compare, jaccard.
  destruct a as [|x a]; [congruence|]. destruct b as [|y b]; [discriminate|].
  pose proof (matches_le (x :: a) (y :: b)) as Hle.
  pose proof (matches_full (x :: a) (y :: b) Hlen) as Hfull.
  pose proof (matches_comm (y :: b) (x :: a)) as Hcomm.
  cbn [length] in *.
  destruct (Nat.eqb_spec (S (length a)) (S (length b))) as [_|Hn]; [|congruence].
  destruct (Nat.eqb_spec (S (length b)) (S (length a))) as [_|Hn]; [|congruence].
  cbn [negb]. eexists. split; [reflexivity|].
  split; [rewrite Hcomm, <- Hlen; reflexivity|].
  assert (Hd : Z.pos (Pos.of_nat (S (length a))) = Z.of_nat (S (length a)))
    by (apply pos_of_size; lia).
  unfold Qle, Qeq. cbn [Qnum Qden]. rewrite Hd.
  split; [lia|]. split; [lia|]. rewrite <- Hfull. lia.
Qed.

(** X17. [compare] raises its [ValueError] exactly when the two
    signatures differ in length, and a [ZeroDivisionError] exactly when
    both are empty; otherwise it returns the share of positions at which
    they agree, a value between 0 and 1 that does not depend on the order
    of the arguments and is 1 exactly when the signatures are equal. *)
Theorem compare_outcome :
  forall (self : t) (a b : list Z),
    (length a <> length b <->
     compare self a b =
       Raises (Exn (ValueError "Signatures must be of the same length for comparison." [])))
    /\ (a = [] /\ b = [] <-> compare self a b = Raises ZeroDivisionError)
    /\ (length a = length b -> a <> [] ->
        exists q, compare self a b = Returns q /\ compare self b a = Returns q
                  /\ (0 <= q)%Q /\ (q <= 1)%Q /\ ((q == 1)%Q <-> a = b)).
Proof.
  intros self a b. split; [|split; [|apply compare_returns]].
  - unfold compare, jaccard.
    destruct (Nat.eqb_spec (length a) (length b)) as [Hlen|Hlen]; cbn [negb].
    + split; [intros H; contradiction|].
      destruct (length a); discriminate.
    + split; [reflexivity|auto].
  - unfold compare, jaccard.
    destruct (Nat.eqb_spec (length a) (length b)) as [Hlen|Hlen]; cbn [negb].
    + destruct a as [|x a].
      * destruct b; [|discriminate]. split; [reflexivity|auto].
      * cbn [length]. split; [intros [H _]; discriminate|discriminate].
    + split; [intros [-> ->]; contradiction Hlen; reflexivity|discriminate].
Qed.

Lemma embed_length self text :
  length (embed self text) = Z.to_nat (minhash.num_hashes (lsh self)).
Proof.
  unfold embed, minhash.embed.
  destruct (negb (minhash.stop_short_lines (lsh self) =? 0)
            && (minhash.len (minhash._preprocess (lsh self) text)
                <? minhash.stop_short_lines (lsh self)));
    cbn [minhash.signature].
  - unfold minhash.sentinel. apply repeat_length.
  - apply minhash_signature_length.
Qed.

Lemma lsh_init_inv ss nh b sd n l c ssl self :
  __init__ ss nh b sd n l c ssl = Ok self ->
  minhash.__init__ ss nh b sd n l c ssl = Ok (lsh self)
  /\ base self = {| BaseEmbedder.vector_size := nh; BaseEmbedder.distance := "cosine" |}.
Proof.
  unfold __init__.
  destruct (minhash.__init__ ss nh b sd n l c ssl) as [m|e]; cbn [bind]; [|discriminate].
  intros [= <-]. split; reflexivity.
Qed.

(** X18. An [LshEmbedder] is constructed exactly when its
    [LSHMinHashEmbedder] is (the distance check of the base class never
    fires); it then declares [vector_size = num_hashes] and the distance
    ["cosine"], every vector it embeds has [vector_size] components, and
    comparing two of its vectors never raises: the result lies between 0
    and 1, and is 1 for equal vectors. *)
Theorem lsh_embedder_vectors :
  forall ss nh b sd n l c ssl,
    is_ok (__init__ ss nh b sd n l c ssl) = is_ok (minhash.__init__ ss nh b sd n l c ssl)
    /\ forall self,
         __init__ ss nh b sd n l c ssl = Ok self ->
         vector_size self = nh /\ distance self = "cosine"
         /\ (forall text, Z.of_nat (length (embed self text)) = vector_size self)
         /\ (forall t1 t2,
               exists q, compare self (embed self t1) (embed self t2) = Returns q
                         /\ (0 <= q)%Q /\ (q <= 1)%Q
                         /\ (embed self t1 = embed self t2 -> (q == 1)%Q)).
Proof.
  intros ss nh b sd n l c ssl. split.
  - unfold __init__.
    destruct (minhash.__init__ ss nh b sd n l c ssl); reflexivity.
  - intros self Hinit.
    destruct (lsh_init_inv _ _ _ _ _ _ _ _ _ Hinit) as [Hm Hb].
    pose proof (init_ok_inv _ _ _ _ _ _ _ _ _ Hm) as (_ & Hnh & _ & _ & _ & Hn & _).
    unfold vector_size, distance. rewrite Hb. cbn [BaseEmbedder.vector_size BaseEmbedder.distance].
    split; [reflexivity|]. split; [reflexivity|].
    assert (Hlen : forall text, length (embed self text) = Z.to_nat nh)
      by (intros text; rewrite embed_length, Hn; reflexivity).
    split; [intros text; rewrite Hlen; lia|].
    intros t1 t2.
    destruct (compare_returns self (embed self t1) (embed self t2))
      as (q & Hq & _ & H0 & H1 & Heq).
    + rewrite !Hlen. reflexivity.
    + intros E. pose proof (Hlen t1) as Hl. rewrite E in Hl. cbn in Hl. lia.
    + exists q. split; [exact Hq|]. split; [exact H0|]. split; [exact H1|].
      intros E. apply Heq, E.
Qed.

Lemma lsh_embedder_vectors_witness :
  exists self,
    __init__ 5 4 2 42 true true true 0 = Ok self
    /\ vector_size self = 4 /\ distance self = "cosine"
    /\ Z.of_nat (length (embed self "connection reset by peer")) = vector_size self.
Proof.
  eexists. split; [vm_compute; reflexivity|].
  match goal with
  | |- context [embed ?self _] =>
      destruct (lsh_embedder_vectors 5 4 2 42 true true true 0) as [_ H];
      destruct (H self) as (Hv & Hd & Hl & _); [vm_compute; reflexivity|]
  end.
  split; [exact Hv|]. split; [exact Hd|]. apply Hl.
Defined.

End Embedder.

(** * The clock and the timestamp check of [inserts] *)

Section Timestamps.
Import re.

(** The equations of the matcher used below. *)
Lemma run_seq r1 r2 c k : run (Seq r1 r2) c k = run r1 c (fun c1 => run r2 c1 k).
Proof. reflexivity. Qed.

Lemma run_group i r c k : run (Group i r) c k = run r c (fun c1 => k (capture i c c1)).
Proof. reflexivity. Qed.

Lemma run_rep r lo hi c k :
  run (Rep r lo hi) c k = rep_loop (run r) lo hi k (S (length (ahead c))) O c.
Proof. reflexivity. Qed.

Lemma run_chr p b a tl g k :
  p a = true -> run (Chr p) (Cursor b (a :: tl) g) k = k (Cursor (Some a) tl g).
Proof. intros H. cbn [run ahead groups]. rewrite H. reflexivity. Qed.

Lemma run_lit1 a b tl g k :
  run (lit (String a EmptyString)) (Cursor b (a :: tl) g) k = k (Cursor (Some a) tl g).
Proof. unfold lit. cbn [list_ascii_of_string lit_chars]. apply run_chr, Ascii.eqb_refl. Qed.

(** [r{n}] on a class reads exactly [n] characters of the class. *)
Lemma rep_loop_exact p k rest g : forall ds j fuel b,
  Forall (fun a => p a = true) ds -> (length ds < fuel)%nat ->
  rep_loop (run (Chr p)) (j + length ds) (Some (j + length ds)%nat) k fuel j
           (Cursor b (ds ++ rest) g)
  = k (Cursor (read_past ds b) rest g).
Proof.
  induction ds as [|a ds IH]; intros j fuel b Hds Hf;
    (destruct fuel as [|fuel]; [cbn [length] in Hf; lia|]).
  - cbn [rep_loop under length app read_past fold_left]. rewrite Nat.add_0_r.
    rewrite Nat.ltb_irrefl, Nat.leb_refl. reflexivity.
  - inversion Hds as [|? ? Ha Hds']; subst.
    cbn [length] in *. cbn [rep_loop under app].
    assert (Hlt : (j <? j + S (length ds))%nat = true) by (apply Nat.ltb_lt; lia).
    assert (Hle : (j + S (length ds) <=? j)%nat = false) by (apply Nat.leb_gt; lia).
    rewrite Hlt, Hle, (run_chr p b a (ds ++ rest) g) by exact Ha.
    cbn [ahead length].
    assert (Hdec : (length (ds ++ rest) <? S (length (ds ++ rest)))%nat = true)
      by (apply Nat.ltb_lt; lia).
    rewrite Hdec.
    replace (j + S (length ds))%nat with (S j + length ds)%nat by lia.
    rewrite IH by (assumption || lia).
    cbn [read_past fold_left].
    destruct (k _); reflexivity.
Qed.

Lemma run_times p n ds rest b g k :
  Forall (fun a => p a = true) ds -> length ds = n ->
  run (times n (Chr p)) (Cursor b (ds ++ rest) g) k = k (Cursor (read_past ds b) rest g).
Proof.
  intros Hds <-. unfold times. rewrite run_rep. cbn [ahead].
  apply (rep_loop_exact p k rest g ds 0); [exact Hds|].
  rewrite length_app. lia.
Qed.

(** [r+] on a class takes the whole run when what follows is not of
    the class and the rest of the pattern then matches. *)
Lemma rep_loop_plus p k rest g r :
  match rest with a :: _ => p a = false | [] => True end ->
  forall ds j fuel b,
    Forall (fun a => p a = true) ds -> (length ds < fuel)%nat ->
    (1 <= j + length ds)%nat ->
    k (Cursor (read_past ds b) rest g) = Some r ->
    rep_loop (run (Chr p)) 1 None k fuel j (Cursor b (ds ++ rest) g) = Some r.
Proof.
  intros Hrest.
  induction ds as [|a ds IH]; intros j fuel b Hds Hf Hj Hk;
    (destruct fuel as [|fuel]; [cbn [length] in Hf; lia|]).
  - cbn [length read_past fold_left app] in *. cbn [rep_loop under].
    assert (Hjle : (1 <=? j)%nat = true) by (apply Nat.leb_le; lia).
    rewrite Hjle, Hk.
    destruct rest as [|a rest]; cbn [run ahead groups]; [reflexivity|].
    rewrite Hrest. reflexivity.
  - inversion Hds as [|? ? Ha Hds']; subst.
    cbn [length] in *. cbn [rep_loop under app].
    rewrite (run_chr p b a (ds ++ rest) g) by exact Ha.
    cbn [ahead length].
    assert (Hdec : (length (ds ++ rest) <? S (length (ds ++ rest)))%nat = true)
      by (apply Nat.ltb_lt; lia).
    rewrite Hdec, (IH (S j) fuel (Some a)); [reflexivity|assumption|lia|lia|exact Hk].
Qed.

Lemma is_digit_digit_char n : is_digit (utils.digit_char (n mod 10)) = true.
Proof.
  assert (H : 0 <= n mod 10 < 10) by (apply Z.mod_pos_bound; lia).
  assert (E : n mod 10 = 0 \/ n mod 10 = 1 \/ n mod 10 = 2 \/ n mod 10 = 3 \/ n mod 10 = 4
              \/ n mod 10 = 5 \/ n mod 10 = 6 \/ n mod 10 = 7 \/ n mod 10 = 8 \/ n mod 10 = 9)
    by lia.
  repeat (destruct E as [E|E]; [rewrite E; reflexivity|]). rewrite E. reflexivity.
Qed.

Lemma digits_spec w : forall n,
  length (utils.digits w n) = w /\ Forall (fun a => is_digit a = true) (utils.digits w n).
Proof.
  induction w as [|w IH]; intros n; cbn [utils.digits]; [split; [reflexivity|constructor]|].
  destruct (IH (n / 10)) as [Hl Hd]. split.
  - rewrite length_app, Hl. cbn. lia.
  - apply Forall_app. split; [exact Hd|]. repeat constructor. apply is_digit_digit_char.
Qed.

Lemma digit_not_plus a : is_digit a = true -> Ascii.eqb "+" a = false.
Proof.
  destruct a as [[] [] [] [] [] [] [] []]; vm_compute; congruence.
Qed.

(** [replace] leaves alone text in which [old] does not start. *)
Lemma replace_past old new a rest :
  utils.starts_with old (a :: rest) = false ->
  utils.replace_from old new 0 (a :: rest) = a :: utils.replace_from old new 0 rest.
Proof. intros H. cbn [utils.replace_from]. rewrite H. reflexivity. Qed.

Lemma replace_past_digits new ds rest :
  Forall (fun a => is_digit a = true) ds ->
  utils.replace_from (list_ascii_of_string "+00:00") new 0 (ds ++ rest)
  = ds ++ utils.replace_from (list_ascii_of_string "+00:00") new 0 rest.
Proof.
  induction 1 as [|a ds Ha _ IH]; [reflexivity|]. cbn [app].
  rewrite replace_past; [rewrite IH; reflexivity|].
  cbn [list_ascii_of_string utils.starts_with]. rewrite (digit_not_plus a Ha). reflexivity.
Qed.

(** What [get_time] returns: the date and the time of day, the
    microseconds when there are any, and [Z]. *)
Lemma get_time_chars d :
  list_ascii_of_string (utils.get_time d) =
    utils.digits 4 (utils.year d) ++ "-"%char :: utils.digits 2 (utils.month d)
    ++ "-"%char :: utils.digits 2 (utils.day d) ++ "T"%char :: utils.digits 2 (utils.hour d)
    ++ ":"%char :: utils.digits 2 (utils.minute d) ++ ":"%char :: utils.digits 2 (utils.second d)
    ++ (if utils.microsecond d =? 0 then []
        else "."%char :: utils.digits 6 (utils.microsecond d)) ++ ["Z"%char].
Proof.
  unfold utils.get_time, utils.replace, utils.isoformat.
  rewrite list_ascii_of_string_of_list_ascii.
  repeat (rewrite replace_past_digits by apply digits_spec;
          rewrite ?(replace_past _ _ "-"%char), ?(replace_past _ _ "T"%char),
                  ?(replace_past _ _ ":"%char) by reflexivity).
  repeat f_equal.
  destruct (utils.microsecond d =? 0).
  - reflexivity.
  - cbn [app]. rewrite replace_past by reflexivity.
    rewrite replace_past_digits by apply digits_spec. reflexivity.
Qed.

(** Every text of the shape the pattern describes is accepted; the
    fields are not checked against the calendar. *)
Lemma iso_shape_accepted (Y M D h m s frac : list ascii) :
  Forall (fun a => is_digit a = true) Y -> length Y = 4%nat ->
  Forall (fun a => is_digit a = true) M -> length M = 2%nat ->
  Forall (fun a => is_digit a = true) D -> length D = 2%nat ->
  Forall (fun a => is_digit a = true) h -> length h = 2%nat ->
  Forall (fun a => is_digit a = true) m -> length m = 2%nat ->
  Forall (fun a => is_digit a = true) s -> length s = 2%nat ->
  Forall (fun a => is_digit a = true) frac ->
  exists c,
    match_ vector_store.ISO_8601_UTC_REGEX
      (Y ++ "-"%char :: M ++ "-"%char :: D ++ "T"%char :: h ++ ":"%char :: m
         ++ ":"%char :: s
         ++ match frac with [] => [] | _ => "."%char :: frac end ++ ["Z"%char])
    = Some c.
Proof.
  intros HY LY HM LM HD LD Hh Lh Hm Lm Hs Ls Hf.
  unfold match_, vector_store.ISO_8601_UTC_REGEX. cbn [seqs]. unfold digit.
  rewrite run_seq, (run_times _ 4 Y) by assumption. rewrite run_seq, run_lit1.
  rewrite run_seq, (run_times _ 2 M) by assumption. rewrite run_seq, run_lit1.
  rewrite run_seq, (run_times _ 2 D) by assumption. rewrite run_seq, run_lit1.
  rewrite run_seq, (run_times _ 2 h) by assumption. rewrite run_seq, run_lit1.
  rewrite run_seq, (run_times _ 2 m) by assumption. rewrite run_seq, run_lit1.
  rewrite run_seq, (run_times _ 2 s) by assumption.
  rewrite run_seq. unfold opt. rewrite run_rep.
  generalize (read_past s (Some ":"%char)). intros b.
  destruct frac as [|f0 frac].
  - eexists. vm_compute. reflexivity.
  - cbn [app ahead length]. cbn [rep_loop under].
    change (0 <? 1)%nat with true. cbv iota.
    rewrite run_group, run_seq, run_lit1. unfold plus. rewrite run_rep. cbn [ahead].
    erewrite (rep_loop_plus is_digit _ ["Z"%char] [] _ eq_refl (f0 :: frac) 0);
      [eexists; reflexivity|exact Hf|cbn [length]; rewrite length_app; cbn [length]; lia|cbn; lia|].
    cbv beta. unfold capture. cbn [ahead length groups before].
    assert (Hlt : (1 <? S (S (length (frac ++ ["Z"%char]))))%nat = true)
      by (apply Nat.ltb_lt; lia).
    rewrite Hlt. cbn [rep_loop under].
    change (1 <? 1)%nat with false. change (0 <=? 1)%nat with true. cbv iota.
    rewrite run_seq, run_lit1. cbn [run ahead]. reflexivity.
Qed.

(** The digits above come out of any integer: the check does not look
    at the values of the fields. *)
Lemma get_time_iso_ok (d : utils.datetime) :
  vector_store.iso_ok (utils.get_time d) = true.
Proof.
  unfold vector_store.iso_ok. rewrite get_time_chars.
  destruct (iso_shape_accepted
              (utils.digits 4 (utils.year d)) (utils.digits 2 (utils.month d))
              (utils.digits 2 (utils.day d)) (utils.digits 2 (utils.hour d))
              (utils.digits 2 (utils.minute d)) (utils.digits 2 (utils.second d))
              (if utils.microsecond d =? 0 then [] else utils.digits 6 (utils.microsecond d)))
    as [c Hc]; try apply digits_spec.
  - destruct (utils.microsecond d =? 0); [constructor|apply digits_spec].
  - destruct (utils.microsecond d =? 0) eqn:E.
    + rewrite Hc. reflexivity.
    + assert (Hne : utils.digits 6 (utils.microsecond d) <> [])
        by (intros H; apply (f_equal (@length ascii)) in H;
            rewrite (proj1 (digits_spec 6 _)) in H; discriminate).
      destruct (utils.digits 6 (utils.microsecond d)) as [|f0 fr]; [congruence|].
      rewrite Hc. reflexivity.
Qed.

Lemma length_list_ascii_of_string s :
  length (list_ascii_of_string s) = String.length s.
Proof. induction s as [|a s IH]; cbn; [reflexivity|rewrite IH; reflexivity]. Qed.

(** X19. Whatever the clock reads, the timestamp [get_time] returns
    passes the check [inserts] applies to the timestamps it is given; it
    is 20 characters long when the microseconds are zero and 27
    otherwise. *)
Theorem get_time_passes_iso_check :
  forall d : utils.datetime,
    utils.well_formed d = true ->
    vector_store.iso_ok (utils.get_time d) = true
    /\ String.length (utils.get_time d)
       = if (utils.microsecond d =? 0)%Z then 20%nat else 27%nat.
Proof.
  intros d _. split; [apply get_time_iso_ok|].
  rewrite <- length_list_ascii_of_string, get_time_chars.
  repeat (rewrite length_app || rewrite length_cons).
  rewrite !(proj1 (digits_spec _ _)).
  destruct (utils.microsecond d =? 0); cbn [length].
  - reflexivity.
  - rewrite (proj1 (digits_spec _ _)). reflexivity.
Qed.

Lemma get_time_passes_iso_check_witness :
  vector_store.iso_ok
    (utils.get_time {| utils.year := 2026; utils.month := 1; utils.day := 19;
                       utils.hour := 12; utils.minute := 34; utils.second := 56;
                       utils.microsecond := 250 |}) = true.
Proof.
  apply (get_time_passes_iso_check
           {| utils.year := 2026; utils.month := 1; utils.day := 19;
              utils.hour := 12; utils.minute := 34; utils.second := 56;
              utils.microsecond := 250 |}).
  reflexivity.
Defined.

End Timestamps.

(** * The vector store: what [inserts] sends to the client *)

Section Inserts.
Import vector_store.

Variable str_of_dict : list (string * PyVal) -> string.
Variable md5_hexdigest : list Z -> string.
Variable now : nat -> utils.datetime.

Local Abbreviation _hash' := (_hash str_of_dict md5_hexdigest).
Local Abbreviation insert_point' := (insert_point str_of_dict md5_hexdigest now).
Local Abbreviation inserts_loop' := (inserts_loop str_of_dict md5_hexdigest now).
Local Abbreviation inserts' := (inserts str_of_dict md5_hexdigest now).

(** The point [inserts] builds for an object stamped [ts]. *)
Local Abbreviation point_of :=
  (fun (self : VectorStore) (o : Insertable) (ts : string) =>
     {| point_id := _hash' o;
        vector := embedder.LshEmbedder.embed (embedder self) (text o);
        point_payload := dict_set "insert_timestamp" (PStr ts) (metadata o) |}).

Lemma inserts_pairs (e : embedder.LshEmbedder.t) (objects : list Insertable) :
  zip objects (embedder.LshEmbedder.embeds e (map text objects)) =
    map (fun o => (o, embedder.LshEmbedder.embed e (text o))) objects.
Proof.
  unfold embedder.LshEmbedder.embeds.
  induction objects as [|o objects IH]; [reflexivity|].
  cbn [map zip zip_with]. f_equal. exact IH.
Qed.

Lemma inserts_loop_app self p1 : forall p2 c,
  inserts_loop' self (p1 ++ p2) c =
    match inserts_loop' self p1 c with
    | (Ok _, c') => inserts_loop' self p2 c'
    | (Raise e, c') => (Raise e, c')
    end.
Proof.
  induction p1 as [|[o emb] p1 IH]; intros p2 c; cbn [app inserts_loop].
  - reflexivity.
  - unfold st_bind. destruct (insert_point' self o emb c) as [[[]|e] c1]; [apply IH|reflexivity].
Qed.

(** One turn of the loop on an object whose timestamp, if it has one,
    passes the check. *)
Lemma insert_point_ok self o c :
  (forall t, utils.well_formed (now t) = true) ->
  match insert_timestamp o with Some ts => iso_ok ts = true | None => True end ->
  exists ts c',
    insert_point' self o (embedder.LshEmbedder.embed (embedder self) (text o)) c = (Ok tt, c')
    /\ collections c' = collections c
    /\ calls c' = calls c ++ [Upsert (collection_name self) (point_of self o ts)]
    /\ iso_ok ts = true
    /\ (forall ts', insert_timestamp o = Some ts' -> ts = ts').
Proof.
  intros Hclock Hts. unfold insert_point, st_bind.
  destruct (insert_timestamp o) as [ts|] eqn:E.
  - rewrite Hts. cbn [negb]. unfold st_ret, client_call.
    eexists ts, _. split; [reflexivity|]. cbn [collections calls].
    split; [reflexivity|]. split; [reflexivity|]. split; [exact Hts|].
    intros ts' [= <-]. reflexivity.
  - unfold get_time, client_call.
    eexists (utils.get_time (now (tick c))), _. split; [reflexivity|].
    cbn [collections calls].
    split; [reflexivity|]. split; [reflexivity|].
    split; [apply get_time_iso_ok|discriminate].
Qed.

Lemma inserts_loop_ok self : forall objects c,
  (forall t, utils.well_formed (now t) = true) ->
  Forall (fun o => match insert_timestamp o with
                   | Some ts => iso_ok ts = true
                   | None => True
                   end) objects ->
  exists c' stamps,
    inserts_loop' self
      (map (fun o => (o, embedder.LshEmbedder.embed (embedder self) (text o))) objects) c
      = (Ok tt, c')
    /\ collections c' = collections c
    /\ calls c' = calls c ++ map (Upsert (collection_name self))
                               (zip_with (point_of self) objects stamps)
    /\ Forall2 (fun o ts => iso_ok ts = true
                            /\ forall ts', insert_timestamp o = Some ts' -> ts = ts')
               objects stamps.
Proof.
  induction objects as [|o objects IH]; intros c Hclock Hall.
  - exists c, []. cbn. rewrite app_nil_r. repeat split. constructor.
  - inversion Hall as [|? ? Ho Hrest]; subst.
    destruct (insert_point_ok self o c Hclock Ho) as (ts & c1 & Hrun & Hcol & Hcalls & Hok & Heq).
    destruct (IH c1 Hclock Hrest) as (c' & stamps & Hloop & Hcol' & Hcalls' & Hst).
    exists c', (ts :: stamps). cbn [map inserts_loop]. unfold st_bind. rewrite Hrun.
    split; [exact Hloop|]. split; [congruence|]. split.
    + rewrite Hcalls', Hcalls, <- app_assoc. reflexivity.
    + constructor; [split; assumption|exact Hst].
Qed.

(** X20.  [inserts] on objects whose timestamp, when they carry one,
    passes the ISO check, with a clock that reads well-formed datetimes
    and a client whose calls succeed:
    it returns having made exactly one [upsert] per object, in order,
    and no other call.  The point of an object has the id [_hash] of the
    object, the embedding of its text as vector, and as payload the
    metadata with ["insert_timestamp"] set: to the object's own timestamp
    when it has one, to a reading of the clock (which passes the same
    check) otherwise; every other key of the payload is a key of the
    metadata, with its value.  An object
    whose timestamp fails the check makes [inserts] raise a [ValueError]
    naming the timestamp; the points of the objects before it have been
    upserted by then and stay so. *)
Theorem inserts_upserts_each_object :
  forall (self : VectorStore) (objects : list Insertable) (c : client),
    (forall t, utils.well_formed (now t) = true) ->
    (Forall (fun o => match insert_timestamp o with
                      | Some ts => iso_ok ts = true
                      | None => True
                      end) objects ->
     exists c' points,
       inserts' self objects c = (Ok tt, c')
       /\ collections c' = collections c
       /\ calls c' = calls c ++ map (Upsert (collection_name self)) points
       /\ Forall2 (fun o p =>
             point_id p = _hash' o
             /\ vector p = embedder.LshEmbedder.embed (embedder self) (text o)
             /\ (exists ts, dict_get "insert_timestamp" (point_payload p) = Some (PStr ts)
                            /\ iso_ok ts = true
                            /\ forall ts', insert_timestamp o = Some ts' -> ts = ts')
             /\ (forall k, k <> "insert_timestamp" ->
                   dict_get k (point_payload p) = dict_get k (metadata o)))
           objects points)
    /\ (forall pre o post ts,
          objects = pre ++ o :: post ->
          Forall (fun o => match insert_timestamp o with
                           | Some ts => iso_ok ts = true
                           | None => True
                           end) pre ->
          insert_timestamp o = Some ts -> iso_ok ts = false ->
          exists c' points,
            inserts' self objects c
              = (Raise (ValueError "insert_timestamp must be in ISO 8601 UTC format (…Z): "
                                   [PStr ts]), c')
            /\ calls c' = calls c ++ map (Upsert (collection_name self)) points
            /\ Forall2 (fun o p => point_id p = _hash' o) pre points).
Proof.
  intros self objects c Hclock. split.
  - intros Hall. unfold inserts. rewrite inserts_pairs.
    destruct (inserts_loop_ok self objects c Hclock Hall)
      as (c' & stamps & Hloop & Hcol & Hcalls & Hst).
    exists c', (zip_with (point_of self) objects stamps).
    split; [exact Hloop|]. split; [exact Hcol|]. split; [exact Hcalls|].
    clear Hloop Hcalls Hall. induction Hst as [|o ts objects stamps [Hok Heq] _ IH].
    + constructor.
    + cbn [zip_with]. constructor; [|exact IH].
      cbn [point_id vector point_payload].
      split; [reflexivity|]. split; [reflexivity|]. split.
      * exists ts. split; [apply log_ingestion_handler.dict_get_set_eq|].
        split; [exact Hok|exact Heq].
      * intros k Hk. apply log_ingestion_handler.dict_get_set_ne, Hk.
  - intros pre o post ts -> Hpre Hts Hbad. unfold inserts. rewrite inserts_pairs.
    rewrite map_app, inserts_loop_app.
    destruct (inserts_loop_ok self pre c Hclock Hpre)
      as (c1 & stamps & Hloop & Hcol & Hcalls & Hst).
    rewrite Hloop. cbn [map inserts_loop]. unfold st_bind, insert_point at 1.
    unfold st_bind. rewrite Hts, Hbad. cbn [negb]. unfold st_raise.
    exists c1, (zip_with (point_of self) pre stamps).
    split; [reflexivity|]. split; [exact Hcalls|].
    clear Hloop Hcalls Hpre. induction Hst as [|o' ts' pre' stamps' _ _ IH].
    + constructor.
    + cbn [zip_with]. constructor; [reflexivity|exact IH].
Qed.

End Inserts.

Section InsertsScenario.
Import vector_store.

Local Abbreviation str_of_dict' := (fun _ : list (string * PyVal) => "{}").
Local Abbreviation md5' := (fun _ : list Z => "h2").
Local Abbreviation noon :=
  (fun _ : nat => {| utils.year := 2026; utils.month := 1; utils.day := 19;
                     utils.hour := 12; utils.minute := 0; utils.second := 0;
                     utils.microsecond := 0 |}).
Local Abbreviation fresh :=
  {| text := "disk full on node 7"; metadata := [("pod_name", PStr "api-0")];
     insert_timestamp := None |}.
Local Abbreviation empty_client := {| collections := ∅; tick := 0; calls := [] |}.

Lemma noon_well_formed : forall t : nat, utils.well_formed (noon t) = true.
Proof. intros t. reflexivity. Defined.

Lemma fresh_unstamped :
  Forall (fun o : Insertable => match insert_timestamp o with
                                | Some ts => iso_ok ts = true
                                | None => True
                                end) [fresh].
Proof. constructor; [exact I|constructor]. Defined.

Lemma inserts_upserts_each_object_witness :
  exists self,
    embedder.LshEmbedder.__init__ 5 4 2 42 true true true 0 = Ok self
    /\ exists c' p,
         inserts str_of_dict' md5' noon {| collection_name := "logs"; embedder := self |}
                 [fresh] empty_client = (Ok tt, c')
         /\ calls c' = [Upsert "logs" p]
         /\ point_id p = "h2"
         /\ dict_get "pod_name" (point_payload p) = Some (PStr "api-0").
Proof.
  eexists. split; [vm_compute; reflexivity|].
  match goal with
  | |- context [{| collection_name := _; embedder := ?self |}] =>
      destruct (inserts_upserts_each_object str_of_dict' md5' noon
                  {| collection_name := "logs"; embedder := self |} [fresh] empty_client
                  noon_well_formed) as [H _]
  end.
  destruct (H fresh_unstamped) as (c' & points & Hrun & _ & Hcalls & Hpts).
  inversion Hpts as [|o p os ps (Hid & _ & _ & Hk) Hrest]; subst.
  inversion Hrest; subst.
  exists c', p. split; [exact Hrun|]. split; [exact Hcalls|]. split; [exact Hid|].
  rewrite Hk by discriminate. reflexivity.
Defined.

End InsertsScenario.

(** * From the ingestion pipeline to the vector store *)

Section Pipeline.
Import vector_store log_ingestion_handler.

Variable str_of_dict : list (string * PyVal) -> string.
Variable md5_hexdigest : list Z -> string.
Variable score : Type.
Variable score_ge : score -> score -> bool.
Variable score_one : score.
Variable now : nat -> utils.datetime.

(** Both modules read the clock through [utils.get_time]. *)
Local Abbreviation iso := (fun t : nat => utils.get_time (now t)).
Local Abbreviation insert_logs' :=
  (insert_logs str_of_dict md5_hexdigest score score_ge score_one iso).
Local Abbreviation decision' := (decision str_of_dict md5_hexdigest score score_ge score_one).
Local Abbreviation queue_of' := (queue_of score score_ge).
Local Abbreviation queued' := (queued score score_ge).
Local Abbreviation annotated' := (annotated iso).
Local Abbreviation inserts' := (inserts str_of_dict md5_hexdigest now).

Lemma objects_of_cons (w' : world score) l refs :
  objects_of score w' (l :: refs) =
    match heap score w' !! l with
    | Some e => to_insertable e :: objects_of score w' refs
    | None => objects_of score w' refs
    end.
Proof. unfold objects_of. cbn. destruct (heap score w' !! l); reflexivity. Qed.

(** The queued references lead to the annotated entries that were
    decided canonical, in batch order. *)
Lemma queued_objects self (w' : world score) : forall ls es rs,
  length rs = length ls ->
  Forall2 (fun l e => exists t, heap score w' !! l = Some (annotated' t e)) ls es ->
  Forall2 (fun o (er : LogEntry * QueryResponse score) =>
             exists t, o = to_insertable (annotated' t (fst er)))
          (objects_of score w' (queue_of' self ls rs))
          (List.filter (fun er => queued' self (snd er)) (zip es rs)).
Proof.
  induction ls as [|l ls IH]; intros es rs Hlen Hfin.
  - inversion Hfin; subst. constructor.
  - destruct rs as [|r rs]; [discriminate|].
    inversion Hfin as [|? e ? es' (t & Hl) Hfin']; subst.
    rewrite queue_of_cons. cbn [zip zip_with List.filter snd].
    assert (Hlen' : length rs = length ls) by (cbn in Hlen; lia).
    specialize (IH es' rs Hlen' Hfin').
    destruct (queued' self r); [|exact IH].
    rewrite objects_of_cons, Hl.
    constructor; [exists t; reflexivity|exact IH].
Qed.

Lemma queued_self_reference self e r :
  queued' self r = true ->
  closest_log_id score (decision' self e r) = log_id score (decision' self e r).
Proof.
  unfold queued, decision. destruct (points score r) as [|p ps]; [reflexivity|].
  destruct (score_ge (score_ score p) (insert_sim_threshold score self)); [discriminate|reflexivity].
Qed.

(** X21.  The two stores agree on the ids.  On a batch that
    [insert_logs] handles without raising, hand the entries it queued to
    [inserts], as [insert_logs] does, with a client whose calls succeed:
    [inserts] returns without raising (the timestamps set by
    [insert_logs] pass its check), it upserts one
    point per self-referencing lookup record, in the order of the
    records, and the id of each point is the [log_id], and the
    [closest_log_id], of its record. *)
Theorem canonical_entries_share_their_id :
  forall (self : LogIngestionHtbridHandler score) (store : VectorStore)
         (ls : list nat) (es : list LogEntry) (rs : list (QueryResponse score))
         (w : world score) (c : client),
    (forall t, utils.well_formed (now t) = true) ->
    length rs = length ls ->
    Forall2 (fun l e => heap score w !! l = Some e) ls es ->
    Forall (loggable score) rs ->
    exists w' c' points,
      insert_logs' self ls (Some rs) w = (Ok tt, w')
      /\ trace score w' = trace score w ++ map (LookupInsert score) (zip_with (decision' self) es rs)
                     ++ match queue_of' self ls rs with
                        | [] => []
                        | queue => [VectorInserts score queue]
                        end
      /\ inserts' store (objects_of score w' (queue_of' self ls rs)) c = (Ok tt, c')
      /\ calls c' = calls c ++ map (Upsert (collection_name store)) points
      /\ Forall2 (fun p (er : LogEntry * QueryResponse score) =>
                    point_id p = log_id score (decision' self (fst er) (snd er))
                    /\ point_id p = closest_log_id score (decision' self (fst er) (snd er)))
                 points
                 (List.filter (fun er => queued' self (snd er)) (zip es rs)).
Proof.
  intros self store ls es rs w c Hclock Hlen Hes Hlog.
  destruct (insert_logs_spec str_of_dict md5_hexdigest score score_ge score_one iso
              self ls es rs w Hlen Hes Hlog) as (w' & Hrun & Htr & Hfin).
  assert (Hfin' : Forall2 (fun l e => exists t, heap score w' !! l = Some (annotated' t e)) ls es).
  { eapply Forall2_impl; [exact Hfin|]. intros l e (t & _ & H). exists t. exact H. }
  pose proof (queued_objects self w' ls es rs Hlen Hfin') as Hobj.
  set (objects := objects_of score w' (queue_of' self ls rs)) in *.
  set (pairs := List.filter (fun er => queued' self (snd er)) (zip es rs)) in *.
  assert (Hq : Forall (fun er : LogEntry * QueryResponse score => queued' self (snd er) = true)
                      pairs).
  { apply Forall_forall. intros er Hin. apply list_elem_of_In, filter_In in Hin. apply Hin. }
  assert (Hstamped : Forall (fun o => match insert_timestamp o with
                                      | Some ts => iso_ok ts = true
                                      | None => True
                                      end) objects).
  { clear -Hobj. induction Hobj as [|o er os ers (t & ->) _ IH]; constructor; [|exact IH].
    cbn. apply get_time_iso_ok. }
  destruct (inserts_loop_ok str_of_dict md5_hexdigest now store objects c Hclock Hstamped)
    as (c' & stamps & Hloop & _ & Hcalls & Hst).
  exists w', c'. eexists. split; [exact Hrun|]. split; [exact Htr|].
  split; [unfold inserts; rewrite inserts_pairs; exact Hloop|].
  split; [exact Hcalls|].
  clear Hloop Hcalls Hstamped. revert stamps Hst.
  induction Hobj as [|o er os ers (t & ->) _ IH]; intros stamps Hst.
  - inversion Hst; subst. constructor.
  - inversion Hst as [|? ts ? stamps' _ Hst']; subst.
    inversion Hq as [|? ? Hqr Hq']; subst.
    cbn [zip_with]. constructor; [|apply IH; assumption].
    cbn [point_id]. destruct er as [e r]. cbn [fst snd] in *.
    rewrite (queued_self_reference self e r Hqr), decision_log_id.
    split; reflexivity.
Qed.

End Pipeline.

Section PipelineScenario.
Import vector_store log_ingestion_handler.

Local Abbreviation str_of_dict' := (fun _ : list (string * PyVal) => "{}").
Local Abbreviation md5' := (fun _ : list Z => "h2").
Local Abbreviation ge' := (fun s t : Q => Qle_bool t s).
Local Abbreviation noon :=
  (fun _ : nat => {| utils.year := 2026; utils.month := 1; utils.day := 19;
                     utils.hour := 12; utils.minute := 0; utils.second := 0;
                     utils.microsecond := 0 |}).
Local Abbreviation handler' :=
  {| insert_sim_threshold := (9 # 10)%Q; sim_sync_batch_size := 10 |}.
Local Abbreviation E1 :=
  {| entry_text := "disk full on node 7";
     entry_metadata := [("pod_name", PStr "api-0")];
     entry_insert_timestamp := None |}.
Local Abbreviation nothing := {| points := @nil (ScoredPoint Q) |}.
Local Abbreviation w1 :=
  {| heap := {[ 0%nat := E1 ]}; clock := 0; trace := @nil (event Q) |}.
Local Abbreviation empty_client := {| collections := ∅; tick := 0; calls := [] |}.

Lemma first_entry_present :
  Forall2 (fun (l : nat) (e : LogEntry) => heap Q w1 !! l = Some e) [0%nat] [E1].
Proof. constructor; [reflexivity|constructor]. Defined.

Lemma nothing_loggable : Forall (loggable Q) [nothing].
Proof. constructor; [exact I|constructor]. Defined.

Lemma canonical_entries_share_their_id_witness :
  exists self,
    embedder.LshEmbedder.__init__ 5 4 2 42 true true true 0 = Ok self
    /\ exists w' c' p,
         insert_logs str_of_dict' md5' Q ge' 1%Q (fun t : nat => utils.get_time (noon t))
                     handler' [0%nat] (Some [nothing]) w1 = (Ok tt, w')
         /\ inserts str_of_dict' md5' noon {| collection_name := "logs"; embedder := self |}
                    (objects_of Q w' [0%nat]) empty_client = (Ok tt, c')
         /\ calls c' = [Upsert "logs" p]
         /\ point_id p = "h2".
Proof.
  eexists. split; [vm_compute; reflexivity|].
  match goal with
  | |- context [{| collection_name := _; embedder := ?self |}] =>
      destruct (canonical_entries_share_their_id str_of_dict' md5' Q ge' 1%Q noon handler'
                  {| collection_name := "logs"; embedder := self |}
                  [0%nat] [E1] [nothing] w1 empty_client
                  noon_well_formed eq_refl first_entry_present nothing_loggable)
        as (w' & c' & points & Hrun & _ & Hins & Hcalls & Hids)
  end.
  inversion Hids as [|p er ps ers [Hid _] Hrest]; subst. inversion Hrest; subst.
  exists w', c', p. split; [exact Hrun|]. split; [exact Hins|].
  split; [exact Hcalls|exact Hid].
Defined.

End PipelineScenario.

(** * The collection and the vectors sent to it *)

Section Collection.
Import vector_store.

Variable str_of_dict : list (string * PyVal) -> string.
Variable md5_hexdigest : list Z -> string.
Variable now : nat -> utils.datetime.

Local Abbreviation insert_point' := (insert_point str_of_dict md5_hexdigest now).
Local Abbreviation inserts_loop' := (inserts_loop str_of_dict md5_hexdigest now).
Local Abbreviation inserts' := (inserts str_of_dict md5_hexdigest now).

(** A turn of the loop makes one [upsert], carrying the embedding it
    was given, or raises before any call. *)
Lemma insert_point_calls self o emb c :
  exists out c',
    insert_point' self o emb c = (out, c')
    /\ collections c' = collections c
    /\ (calls c' = calls c
        \/ exists p, calls c' = calls c ++ [Upsert (collection_name self) p]
                     /\ vector p = emb).
Proof.
  unfold insert_point, st_bind.
  destruct (insert_timestamp o) as [ts|].
  - destruct (iso_ok ts); cbn [negb].
    + eexists _, _. split; [reflexivity|]. split; [reflexivity|].
      right. eexists. split; reflexivity.
    + eexists _, _. split; [reflexivity|]. split; [reflexivity|]. left. reflexivity.
  - eexists _, _. split; [reflexivity|]. split; [reflexivity|].
    right. eexists. split; reflexivity.
Qed.

Lemma inserts_loop_calls self (n : nat) : forall pairs c,
  Forall (fun pr : Insertable * list Z => length (snd pr) = n) pairs ->
  exists out c' points,
    inserts_loop' self pairs c = (out, c')
    /\ collections c' = collections c
    /\ calls c' = calls c ++ map (Upsert (collection_name self)) points
    /\ Forall (fun p => length (vector p) = n) points.
Proof.
  induction pairs as [|[o emb] pairs IH]; intros c Hall.
  - exists (Ok tt), c, []. cbn. rewrite app_nil_r. repeat split. constructor.
  - pose proof (Forall_inv Hall) as Hemb. pose proof (Forall_inv_tail Hall) as Hrest.
    cbn [snd] in Hemb.
    destruct (insert_point_calls self o emb c) as (out & c1 & Hrun & Hcol & Hcalls).
    cbn [inserts_loop]. unfold st_bind. rewrite Hrun.
    destruct out as [[]|e].
    + destruct (IH c1 Hrest) as (out' & c' & points & Hloop & Hcol' & Hcalls' & Hlen).
      destruct Hcalls as [Hsame|(p & Hp & Hv)].
      * exists out', c', points. split; [exact Hloop|]. split; [congruence|].
        split; [rewrite Hcalls', Hsame; reflexivity|exact Hlen].
      * exists out', c', (p :: points). split; [exact Hloop|]. split; [congruence|].
        split; [rewrite Hcalls', Hp, <- app_assoc; reflexivity|].
        constructor; [rewrite Hv; exact Hemb|exact Hlen].
    + destruct Hcalls as [Hsame|(p & Hp & Hv)].
      * exists (Raise e), c1, []. split; [reflexivity|]. split; [exact Hcol|].
        split; [cbn; rewrite app_nil_r; exact Hsame|constructor].
      * exists (Raise e), c1, [p]. split; [reflexivity|]. split; [exact Hcol|].
        split; [exact Hp|]. constructor; [rewrite Hv; exact Hemb|constructor].
Qed.

(** X22.  A store built on an [LshEmbedder], with a client whose calls
    succeed: [VectorStore.__init__] passes the distance check of
    [create_collection_if_not_exists] (the embedder's distance is always
    ["cosine"]); afterwards the collection exists, and when it did not
    exist before it has been created with [num_hashes] as vector size and
    the cosine distance, by the only call made.  Whatever [inserts] is
    then given, and whether it returns or raises, the calls it makes are
    [upsert]s into that collection whose vectors have exactly
    [num_hashes] components, the size the collection was created with. *)
Theorem store_vectors_fit_collection :
  forall ss nh b sd n l c ssl (e : embedder.LshEmbedder.t) (name : string) (cl : client),
    embedder.LshEmbedder.__init__ ss nh b sd n l c ssl = Ok e ->
    exists store cl',
      __init__ name e cl = (Ok store, cl')
      /\ collection_name store = name /\ embedder store = e
      /\ name ∈ collections cl'
      /\ (name ∈ collections cl -> cl' = cl)
      /\ (name ∉ collections cl ->
          calls cl' = calls cl ++ [CreateCollection name nh COSINE])
      /\ forall objects cl1,
           exists out cl2 points,
             inserts' store objects cl1 = (out, cl2)
             /\ collections cl2 = collections cl1
             /\ calls cl2 = calls cl1 ++ map (Upsert name) points
             /\ Forall (fun p => Z.of_nat (length (vector p)) = nh) points.
Proof.
  intros ss nh b sd n l c ssl e name cl Hinit.
  destruct (lsh_init_inv _ _ _ _ _ _ _ _ _ Hinit) as [Hm Hb].
  pose proof (init_ok_inv _ _ _ _ _ _ _ _ _ Hm) as (_ & Hnh & _ & _ & _ & Hn & _).
  exists {| collection_name := name; embedder := e |}.
  unfold __init__, st_bind, create_collection_if_not_exists,
    embedder.LshEmbedder.vector_size, embedder.LshEmbedder.distance.
  rewrite Hb. cbn [embedder.BaseEmbedder.vector_size embedder.BaseEmbedder.distance
                   collection_name String.eqb Ascii.eqb Bool.eqb].
  assert (Hins : forall objects cl1,
             exists out cl2 points,
               inserts' {| collection_name := name; embedder := e |} objects cl1 = (out, cl2)
               /\ collections cl2 = collections cl1
               /\ calls cl2 = calls cl1 ++ map (Upsert name) points
               /\ Forall (fun p => Z.of_nat (length (vector p)) = nh) points).
  { intros objects cl1. unfold inserts.
    destruct (inserts_loop_calls {| collection_name := name; embedder := e |}
                (Z.to_nat nh)
                (zip objects (embedder.LshEmbedder.embeds e (map text objects))) cl1)
      as (out & cl2 & points & Hrun & Hcol & Hcalls & Hlen).
    - apply Forall_forall. intros [o emb] Hin.
      apply list_elem_of_In in Hin. apply in_combine_r in Hin.
      unfold embedder.LshEmbedder.embeds in Hin. apply in_map_iff in Hin as (t & <- & _).
      cbn [snd]. rewrite embed_length, Hn. reflexivity.
    - exists out, cl2, points. split; [exact Hrun|]. split; [exact Hcol|].
      split; [exact Hcalls|].
      eapply Forall_impl; [exact Hlen|]. intros p Hp. cbn beta in Hp. rewrite Hp. lia. }
  destruct (decide (name ∈ collections cl)) as [Hin|Hnin].
  - rewrite bool_decide_eq_true_2 by exact Hin. exists cl.
    split; [reflexivity|]. split; [reflexivity|]. split; [reflexivity|].
    split; [exact Hin|]. split; [reflexivity|]. split; [contradiction|exact Hins].
  - rewrite bool_decide_eq_false_2 by exact Hnin. eexists.
    split; [reflexivity|]. split; [reflexivity|]. split; [reflexivity|].
    cbn [collections calls]. split; [set_solver|].
    split; [contradiction|]. split; [reflexivity|exact Hins].
Qed.

End Collection.

Section CollectionScenario.
Import vector_store.

Local Abbreviation str_of_dict' := (fun _ : list (string * PyVal) => "{}").
Local Abbreviation md5' := (fun _ : list Z => "h2").
Local Abbreviation noon :=
  (fun _ : nat => {| utils.year := 2026; utils.month := 1; utils.day := 19;
                     utils.hour := 12; utils.minute := 0; utils.second := 0;
                     utils.microsecond := 0 |}).
Local Abbreviation empty_client := {| collections := ∅; tick := 0; calls := [] |}.

Lemma store_vectors_fit_collection_witness :
  exists e,
    embedder.LshEmbedder.__init__ 5 4 2 42 true true true 0 = Ok e
    /\ exists store cl',
         __init__ "logs" e empty_client = (Ok store, cl')
         /\ calls cl' = [CreateCollection "logs" 4 COSINE].
Proof.
  eexists. split; [vm_compute; reflexivity|].
  match goal with
  | |- context [__init__ _ ?e _] =>
      destruct (store_vectors_fit_collection str_of_dict' md5' noon
                  5 4 2 42 true true true 0 e "logs" empty_client)
        as (store & cl' & Hrun & _ & _ & _ & _ & Hnew & _); [vm_compute; reflexivity|]
  end.
  exists store, cl'. split; [exact Hrun|]. apply Hnew. set_solver.
Defined.

End CollectionScenario.
